(** * Cli-Proxy-API-Management-Center: UI components and theme store

    A shallow embedding of the display logic of the dashboard's components
    (pagination window, JSON tree viewer with folding, heatmap week
    bucketing, drawer scroll lock, display states of the statistics cards)
    and of the theme store, with the properties the specification states
    about them.

    Conventions of the embedding:
    - JavaScript numbers that the code only uses as integers (page numbers,
      indices, counters) are [Z] or [nat];
    - JavaScript strings are [string] (byte strings: a character outside
      ASCII is its UTF-8 bytes; the characters the code inspects are ASCII);
      where the code counts or cuts a string by [length] and [slice], the
      string is the list of its UTF-16 code units;
    - [Set<T>] is [gset T], arrays are lists, [push] appends at the end;
    - mutable module or closure variables are fields of an explicit state
      record that every operation takes and returns. *)

From Stdlib Require Import ZArith Lia Ascii String.
From Stdlib Require Import Floats.SpecFloat.
From stdpp Require Import base numbers list strings pretty gmap sets.

Local Open Scope Z_scope.

(** The double-quote character, which string literals cannot contain. *)
Definition dquote : ascii := "034"%char.

(* ===================================================================== *)
(** * Numbers: the platform's [Number], as far as the components divide,
      compare, round down and format numbers                              *)
(* ===================================================================== *)

Module Number.

(** A JavaScript number is an IEEE 754 binary64 value, [spec_float] of the
    standard library at 53 bits of precision.  The components' counts,
    sizes and durations are integers; sums, products and comparisons of
    integers below 2^53 are exact and are written on [Z].  A division is
    not exact: [a / b] is [div (ofZ a) (ofZ b)]. *)
Definition prec : Z := 53.
Definition emax : Z := 1024.

(** The number an integer denotes (the nearest double). *)
Definition ofZ (n : Z) : spec_float := binary_normalize prec emax n 0 false.

(** A literal [m * 2^e], such as [0.25 = 1 * 2^-2]. *)
Definition dyadic (m e : Z) : spec_float := binary_normalize prec emax m e false.

Definition div : spec_float -> spec_float -> spec_float := SFdiv prec emax.

(** [x <= y]. *)
Definition leb : spec_float -> spec_float -> bool := SFleb.

(** ** [Number.prototype.toFixed]

    "Let n be an integer for which n / 10^f - x is as close to zero as
    possible.  If there are two such n, pick the larger n": for
    [x = m * 2^e] that is the floor of [x * 10^f + 1/2]. *)
Definition nearestFixed (f : nat) (m : positive) (e : Z) : Z :=
  (2 * (Z.pos m * 2 ^ Z.max e 0 * 10 ^ Z.of_nat f) + 2 ^ Z.max (- e) 0)
    / (2 * 2 ^ Z.max (- e) 0).

(** The last [f] decimal digits of [r], with leading zeros. *)
Fixpoint fractionDigits (f : nat) (r : Z) : string :=
  match f with
  | O => ""
  | S f' => fractionDigits f' (r / 10) +:+ pretty (r `mod` 10)
  end.

(** The decimal digits of [n] with a point before the last [f] of them,
    and at least one digit before the point. *)
Definition fixedDigits (f : nat) (n : Z) : string :=
  pretty (n / 10 ^ Z.of_nat f)
  +:+ match f with
      | O => ""
      | _ => "." +:+ fractionDigits f (n `mod` 10 ^ Z.of_nat f)
      end.

(** [x.toFixed(f)] for [x] below 10^21 in magnitude (from there on
    [toFixed] switches to the exponent notation of [toString], which the
    components' values never reach). *)
Definition toFixed (f : nat) (x : spec_float) : string :=
  match x with
  | S754_nan => "NaN"
  | S754_infinity s => if s then "-Infinity" else "Infinity"
  | S754_zero _ => fixedDigits f 0
  | S754_finite s m e => (if s then "-" else "") +:+ fixedDigits f (nearestFixed f m e)
  end.

(** [Math.floor(x)]; [None] for NaN and the infinities, which are no
    integers. *)
Definition Math_floor (x : spec_float) : option Z :=
  match x with
  | S754_nan | S754_infinity _ => None
  | S754_zero _ => Some 0
  | S754_finite s m e =>
      Some ((if s then Z.neg m else Z.pos m) * 2 ^ Z.max e 0 / 2 ^ Z.max (- e) 0)
  end.

(** [Math.max(a, x)] for an integer [a]. *)
Definition Math_max (a : Z) (x : option Z) : option Z := Z.max a <$> x.

(** ** Integers as text

    [String(n)] and [n.toString()] of an integer below 2^53 in magnitude:
    all its digits.  (From 2^53 on a number no longer holds every integer
    and [String] writes the shortest digits that read back as the number,
    in exponent notation from 10^21 on, [1e+21]; these are outside this
    definition, and what is proved with it carries the bound.) *)
Definition toString (n : Z) : string := pretty n.

(** White space that [parseInt] skips (the ASCII part of it). *)
Definition isWhiteSpace (c : ascii) : bool :=
  let n := Z.of_nat (nat_of_ascii c) in (n =? 32) || ((9 <=? n) && (n <=? 13)).

Fixpoint skipWhiteSpace (s : string) : string :=
  match s with
  | String c s' => if isWhiteSpace c then skipWhiteSpace s' else s
  | EmptyString => s
  end.

(** The value of a digit or letter as a digit of a radix up to 36. *)
Definition digitValue (c : ascii) : option Z :=
  let n := Z.of_nat (nat_of_ascii c) in
  if (48 <=? n) && (n <=? 57) then Some (n - 48)
  else if (97 <=? n) && (n <=? 122) then Some (n - 87)
  else if (65 <=? n) && (n <=? 90) then Some (n - 55)
  else None.

(** The longest prefix of digits of the radix, as a number; [acc] is the
    value read so far, [None] before the first digit. *)
Fixpoint parseDigits (radix : Z) (acc : option Z) (s : string) : option Z :=
  match s with
  | String c s' =>
      match digitValue c with
      | Some d =>
          if d <? radix then parseDigits radix (Some (default 0 acc * radix + d)) s'
          else acc
      | None => acc
      end
  | EmptyString => acc
  end.

(** The digits after the sign: hexadecimal after [0x] or [0X], decimal
    otherwise. *)
Definition parseUnsigned (s : string) : option Z :=
  match s with
  | String "0" (String "x" s') | String "0" (String "X" s') => parseDigits 16 None s'
  | _ => parseDigits 10 None s
  end.

(** [parseInt(s)] without a radix; [None] is NaN.  (The result is kept as
    an integer: above 2^53 JavaScript rounds it to a double.) *)
Definition parseInt (s : string) : option Z :=
  match skipWhiteSpace s with
  | String "-" s' => Z.opp <$> parseUnsigned s'
  | String "+" s' => parseUnsigned s'
  | s' => parseUnsigned s'
  end.

(** A decimal digit, as [pretty] writes it. *)
Definition isDigit (c : ascii) : Prop :=
  exists d, 0 <= d < 10 /\ c = pretty_N_char (Z.to_N d).

Fixpoint allDigits (s : string) : Prop :=
  match s with
  | String c s' => isDigit c /\ allDigits s'
  | EmptyString => True
  end.

(** ** Products, comparisons and [Number(s)] *)

(** [x * y]. *)
Definition mul : spec_float -> spec_float -> spec_float := SFmul prec emax.

(** [x >= y]. *)
Definition geb (x y : spec_float) : bool := SFleb y x.

(** The digits at the start of [s]: the value of [acc] followed by them,
    [count] plus how many they are, and the rest of [s]. *)
Fixpoint readDigits (acc : Z) (count : nat) (s : string) : Z * nat * string :=
  match s with
  | String c s' =>
      match digitValue c with
      | Some d => if d <? 10 then readDigits (acc * 10 + d) (S count) s' else (acc, count, s)
      | None => (acc, count, s)
      end
  | EmptyString => (acc, count, s)
  end.

(** [Number(s)] for a text of decimal digits with at most one point among
    them: the double nearest to the decimal (the quotient is rounded once,
    so the result is exact for up to 15 digits); the empty text is 0 and a
    point without a digit is NaN.  Signs, exponents, surrounding white
    space, radix prefixes and [Infinity] are not covered: any other text
    is NaN here. *)
Definition ofString (s : string) : spec_float :=
  let '(i, ni, rest) := readDigits 0 0 s in
  match rest with
  | EmptyString => ofZ i
  | String "." frac =>
      let '(m, nf, rest') := readDigits i 0 frac in
      match rest' with
      | EmptyString =>
          match (ni + nf)%nat with
          | O => S754_nan
          | _ => div (ofZ m) (ofZ (10 ^ Z.of_nat nf))
          end
      | _ => S754_nan
      end
  | _ => S754_nan
  end.

(** ** Properties *)

Example div_not_exact : div (ofZ 1450) (ofZ 1000) = S754_finite false 6530219459687219 (-52).
Proof. reflexivity. Qed.

Example toFixed_below_half : toFixed 1 (div (ofZ 1450) (ofZ 1000)) = "1.4"%string.
Proof. reflexivity. Qed.

Example toFixed_tie_up : toFixed 1 (div (ofZ 1250) (ofZ 1000)) = "1.3"%string.
Proof. reflexivity. Qed.

Example toFixed_two_digits : toFixed 2 (div (ofZ 5) (ofZ 1000)) = "0.01"%string.
Proof. reflexivity. Qed.

Example Math_floor_negative : Math_floor (div (ofZ (-5)) (ofZ 2)) = Some (-3).
Proof. reflexivity. Qed.

Lemma digits2_pos_size p : digits2_pos p = Pos.size p.
Proof. induction p; simpl; congruence. Qed.

Lemma Zdigits2_bounds z : 0 < z -> 2 ^ (Zdigits2 z - 1) <= z < 2 ^ Zdigits2 z.
Proof.
  destruct z as [|p|p]; try lia. intros _. simpl. rewrite digits2_pos_size.
  pose proof (Pos.size_gt p) as Hgt. pose proof (Pos.size_le p) as Hle.
  split.
  - assert (2 ^ Z.pos (Pos.size p) <= 2 * Z.pos p) as H2
      by (rewrite <- Pos2Z.inj_pow; lia).
    replace (Z.pos (Pos.size p)) with (Z.succ (Z.pos (Pos.size p) - 1)) in H2 by lia.
    rewrite Z.pow_succ_r in H2 by lia. lia.
  - rewrite <- Pos2Z.inj_pow. lia.
Qed.

Lemma Zdigits2_unique z d : 2 ^ (d - 1) <= z < 2 ^ d -> 0 < z -> Zdigits2 z = d.
Proof.
  intros Hz Hpos. pose proof (Zdigits2_bounds z Hpos) as Hb.
  assert (0 < Zdigits2 z) by (destruct z; simpl; lia).
  destruct (Z.lt_trichotomy (Zdigits2 z) d) as [Hlt | [-> | Hgt]]; [|done|].
  - assert (2 ^ Zdigits2 z <= 2 ^ (d - 1)) by (apply Z.pow_le_mono_r; lia). lia.
  - assert (d <= 0 \/ 0 < d) as [Hd|Hd] by lia.
    + assert (2 ^ d <= 1).
      { destruct (decide (d = 0)) as [->|]; [simpl; lia|]. rewrite Z.pow_neg_r; lia. }
      lia.
    + assert (2 ^ d <= 2 ^ (Zdigits2 z - 1)) by (apply Z.pow_le_mono_r; lia). lia.
Qed.

Lemma shr_1_nonneg m r s : 0 <= m ->
  shr_1 (Build_shr_record m r s) = Build_shr_record (m / 2) (Z.odd m) (r || s).
Proof.
  intros Hm. destruct m as [|p|p]; try lia; [done|].
  destruct p; simpl shr_1.
  - f_equal. rewrite Pos2Z.inj_xI, (Z.mul_comm 2), Z.div_add_l by lia. done.
  - f_equal. rewrite Pos2Z.inj_xO, (Z.mul_comm 2), Z.div_mul by lia. done.
  - done.
Qed.

Lemma fexp_normal d : -1021 <= d -> fexp prec emax d = d - 53.
Proof. unfold fexp, emin, prec, emax. lia. Qed.

Lemma shr_fexp_53 m e l : 2 ^ 52 <= m < 2 ^ 53 -> -1074 <= e ->
  shr_fexp prec emax m e l = (shr_record_of_loc m l, e).
Proof.
  intros Hm He. unfold shr_fexp.
  rewrite (Zdigits2_unique m 53) by lia.
  rewrite fexp_normal by lia.
  replace (53 + e - 53 - e) with 0 by lia. done.
Qed.

Lemma shr_fexp_54 m e l : 2 ^ 53 <= m < 2 ^ 54 -> -1074 <= e ->
  shr_fexp prec emax m e l = (shr_1 (shr_record_of_loc m l), e + 1).
Proof.
  intros Hm He. unfold shr_fexp.
  rewrite (Zdigits2_unique m 54) by lia.
  rewrite fexp_normal by lia.
  replace (54 + e - 53 - e) with 1 by lia. done.
Qed.

(** Where the remainder [r] of a division by [D] lies: nowhere, below,
    at or above the half. *)
Lemma new_location_spec D r : 0 < D -> 0 <= r < D ->
  new_location D r = if r =? 0 then loc_Exact else loc_Inexact (2 * r ?= D).
Proof.
  intros HD Hr. unfold new_location, new_location_even, new_location_odd.
  destruct (Z.even D) eqn:Hev; [done|].
  destruct (r =? 0); [done|]. f_equal.
  assert (Z.odd D = true) as Hodd by (rewrite <- Z.negb_even, Hev; done).
  apply Z.odd_spec in Hodd as [k Hk].
  destruct (Z.compare_spec (2 * r + 1) D), (Z.compare_spec (2 * r) D); try done; lia.
Qed.

(** The second normalisation of [binary_round_aux]: a rounded mantissa of
    53 bits stays, 2^53 becomes 2^52 with the next exponent. *)
Lemma finish_53 (s : bool) m1 e :
  2 ^ 52 <= m1 <= 2 ^ 53 -> -1074 <= e <= 960 ->
  exists m i,
    (let '(mrs, e') := shr_fexp prec emax m1 e loc_Exact in
     match shr_m mrs with
     | 0 => S754_zero s
     | Z.pos m => if e' <=? emax - prec then S754_finite s m e' else S754_infinity s
     | Z.neg _ => S754_nan
     end) = S754_finite s m (e + i)
    /\ 2 ^ 52 <= Z.pos m < 2 ^ 53 /\ 0 <= i <= 1 /\ Z.pos m * 2 ^ i = m1.
Proof.
  intros Hm He.
  destruct (Z_lt_le_dec m1 (2 ^ 53)) as [Hlt1 | Hge1].
  - rewrite shr_fexp_53 by lia. simpl shr_m.
    destruct m1 as [|p|p] eqn:Ep; try lia.
    assert ((e <=? emax - prec) = true) as -> by (unfold emax, prec; lia).
    exists p, 0. rewrite Z.add_0_r. split; [done|]. split; [lia|]. split; [lia|]. lia.
  - assert (m1 = 2 ^ 53) as -> by lia.
    rewrite shr_fexp_54 by lia. simpl shr_m.
    assert ((e + 1 <=? emax - prec) = true) as -> by (unfold emax, prec; lia).
    exists (2 ^ 52)%positive, 1. split; [done|]. split; [lia|]. split; [lia|]. done.
Qed.

(** Rounding a quotient [N / D] of 53 or 54 bits to nearest, ties to
    even: the result [m * 2^j] is within half a unit of [N / D]. *)
Lemma round_quotient (s : bool) N D e :
  0 < D -> 2 ^ 52 * D <= N < 2 ^ 54 * D -> -1074 <= e <= 900 ->
  exists m j,
    binary_round_aux prec emax s (N / D) e (new_location D (N mod D))
      = S754_finite s m (e + j)
    /\ 2 ^ 52 <= Z.pos m < 2 ^ 53 /\ 0 <= j <= 2
    /\ Z.abs (2 * (Z.pos m * 2 ^ j * D) - 2 * N) <= 2 ^ j * D.
Proof.
  intros HD HN He.
  pose proof (Z.div_mod N D ltac:(lia)) as Hdm.
  pose proof (Z.mod_pos_bound N D HD) as Hr.
  assert (2 ^ 52 <= N / D < 2 ^ 54) as Hq.
  { split; [apply Z.div_le_lower_bound; lia | apply Z.div_lt_upper_bound; lia]. }
  set (q := N / D) in *. set (r := N mod D) in *.
  rewrite new_location_spec by done.
  unfold binary_round_aux.
  destruct (Z_lt_le_dec q (2 ^ 53)) as [Hlt | Hge].
  - rewrite shr_fexp_53 by lia.
    set (m1 := round_nearest_even _ _).
    assert ((m1 = q /\ 2 * r <= D) \/ (m1 = q + 1 /\ D <= 2 * r)) as Hm1.
    { subst m1. destruct (Z.eqb_spec r 0) as [->|Hr0]; simpl; [left; lia|].
      destruct (Z.compare_spec (2 * r) D); simpl.
      - destruct (Z.even q); [left|right]; lia.
      - left; lia.
      - right; lia. }
    clearbody m1.
    destruct (finish_53 s m1 e) as (m & i & -> & Hm & Hi & Hmi); [lia|lia|].
    exists m, i. split; [done|]. split; [done|]. split; [lia|].
    rewrite Hmi. clear Hmi Hm Hq Hlt HN.
    assert (2 ^ i = 1 \/ 2 ^ i = 2) as [-> | ->]
      by (assert (i = 0 \/ i = 1) as [-> | ->] by lia; [left|right]; done).
    all: destruct Hm1 as [[-> ?] | [-> ?]]; lia.
  - rewrite shr_fexp_54 by lia.
    assert (shr_1 (shr_record_of_loc q (if r =? 0 then loc_Exact else loc_Inexact (2 * r ?= D)))
            = Build_shr_record (q / 2) (Z.odd q) (negb (r =? 0))) as ->.
    { destruct (r =? 0); [|destruct (2 * r ?= D)]; simpl shr_record_of_loc;
        rewrite shr_1_nonneg by lia; done. }
    set (m1 := round_nearest_even _ _).
    pose proof (Z.div_mod q 2 ltac:(lia)) as Hq2.
    rewrite Zmod_odd in Hq2.
    set (h := q / 2) in *.
    assert (2 ^ 52 <= h < 2 ^ 53) as Hh by (destruct (Z.odd q); lia).
    assert ((m1 = h /\ 4 * (h * D) <= 2 * N /\ 2 * N <= 4 * (h * D) + 2 * D)
         \/ (m1 = h + 1 /\ 4 * (h * D) + 2 * D <= 2 * N /\ 2 * N <= 4 * (h * D) + 4 * D)) as Hm1.
    { subst m1. simpl shr_m. clear Hq Hge Hh HN.
      destruct (Z.odd q) eqn:Hodd, (Z.eqb_spec r 0) as [Hr0|Hr0]; simpl.
      - destruct (Z.even h); [left|right]; (split; [done|]); subst q; lia.
      - right; (split; [done|]); subst q; lia.
      - left; (split; [done|]); subst q; lia.
      - left; (split; [done|]); subst q; lia. }
    clearbody m1.
    destruct (finish_53 s m1 (e + 1)) as (m & i & -> & Hm & Hi & Hmi); [lia|lia|].
    exists m, (1 + i). split; [f_equal; lia|]. split; [done|]. split; [lia|].
    rewrite Z.pow_add_r by lia. rewrite Z.pow_1_r.
    replace (Z.pos m * (2 * 2 ^ i) * D) with (2 * (Z.pos m * 2 ^ i * D)) by ring.
    rewrite Hmi. clear Hmi Hm Hq Hge Hh HN Hdm Hq2.
    assert (2 ^ i = 1 \/ 2 ^ i = 2) as [-> | ->]
      by (assert (i = 0 \/ i = 1) as [-> | ->] by lia; [left|right]; done).
    all: destruct Hm1 as [(-> & ? & ?) | (-> & ? & ?)]; lia.
Qed.

Lemma iter_xO m d : Z.pos (Pos.iter xO m d) = Z.pos m * 2 ^ Z.pos d.
Proof.
  induction d as [|d IH] using Pos.peano_ind.
  - simpl. lia.
  - rewrite Pos.iter_succ, Pos2Z.inj_xO, IH, Pos2Z.inj_succ, Z.pow_succ_r by lia. ring.
Qed.

(** An integer below 2^53 is a double: its mantissa is the integer shifted
    to 53 bits. *)
Lemma binary_round_int (s : bool) p : Z.pos p < 2 ^ 53 ->
  exists m u, binary_round prec emax s p 0 = S754_finite s m (- u)
    /\ 2 ^ 52 <= Z.pos m < 2 ^ 53 /\ 0 <= u <= 52 /\ Z.pos m = Z.pos p * 2 ^ u.
Proof.
  intros Hp. unfold binary_round.
  pose proof (Zdigits2_bounds (Z.pos p) ltac:(lia)) as Hd. simpl Zdigits2 in Hd.
  set (d := Z.pos (digits2_pos p)) in *.
  assert (1 <= d <= 53) as Hd53.
  { split; [lia|]. destruct (Z_le_gt_dec d 53); [done|].
    assert (2 ^ 53 <= 2 ^ (d - 1)) by (apply Z.pow_le_mono_r; lia). lia. }
  rewrite Z.add_0_r, fexp_normal by lia.
  unfold shl_align. rewrite Z.sub_0_r.
  assert (exists m, (match d - 53 with
                     | Z.neg d0 => (Pos.iter xO p d0, d - 53)
                     | _ => (p, 0)
                     end) = (m, d - 53) /\ Z.pos m = Z.pos p * 2 ^ (53 - d))
    as (m & -> & Hm).
  { destruct (d - 53) as [|q|q] eqn:E; try lia.
    - exists p. split; [done|]. replace (53 - d) with 0 by lia. lia.
    - exists (Pos.iter xO p q). split; [done|]. rewrite iter_xO. f_equal. f_equal. lia. }
  assert (2 ^ 52 <= Z.pos m < 2 ^ 53) as Hm53.
  { rewrite Hm.
    assert (2 ^ 52 = 2 ^ (d - 1) * 2 ^ (53 - d)) as ->
      by (rewrite <- Z.pow_add_r by lia; f_equal; lia).
    assert (2 ^ 53 = 2 ^ d * 2 ^ (53 - d)) as ->
      by (rewrite <- Z.pow_add_r by lia; f_equal; lia).
    assert (0 < 2 ^ (53 - d)) by (apply Z.pow_pos_nonneg; lia).
    split; [apply Z.mul_le_mono_nonneg_r; lia | apply Z.mul_lt_mono_pos_r; lia]. }
  unfold binary_round_aux.
  rewrite shr_fexp_53 by lia. simpl round_nearest_even.
  rewrite shr_fexp_53 by lia. simpl shr_m.
  assert ((d - 53 <=? emax - prec) = true) as -> by (unfold emax, prec; lia).
  exists m, (53 - d). split; [f_equal; lia|]. split; [done|]. split; [lia|done].
Qed.

Lemma ofZ_nonzero a : a <> 0 -> Z.abs a < 2 ^ 53 ->
  exists m u, ofZ a = S754_finite (a <? 0) m (- u)
    /\ 2 ^ 52 <= Z.pos m < 2 ^ 53 /\ 0 <= u <= 52 /\ Z.pos m = Z.abs a * 2 ^ u.
Proof.
  intros Ha Hlt. destruct a as [|p|p]; [done| |]; simpl in Hlt;
    unfold ofZ, binary_normalize; apply binary_round_int; lia.
Qed.

(** Division of two non-zero integers below 2^53: the quotient
    [2 * m / 2^t] is within half a unit in the last place of [a / b]. *)
Lemma div_ofZ a b : a <> 0 -> Z.abs a < 2 ^ 53 -> 0 < b < 2 ^ 53 ->
  exists m t, div (ofZ a) (ofZ b) = S754_finite (a <? 0) m (1 - t)
    /\ 2 ^ 52 <= Z.pos m < 2 ^ 53 /\ 0 <= t <= 106
    /\ Z.abs (2 * Z.pos m * b - 2 ^ t * Z.abs a) <= b.
Proof.
  intros Ha Halt Hb.
  destruct (ofZ_nonzero a Ha Halt) as (mx & u & -> & Hmx & Hu & Emx).
  destruct (ofZ_nonzero b ltac:(lia) ltac:(lia)) as (my & v & -> & Hmy & Hv & Emy).
  replace (Z.abs b) with b in Emy by lia.
  assert ((b <? 0) = false) as -> by lia.
  unfold div, SFdiv, SFdiv_core_binary.
  rewrite (Zdigits2_unique (Z.pos mx) 53), (Zdigits2_unique (Z.pos my) 53) by lia.
  rewrite fexp_normal by lia.
  replace (Z.min (53 + - u - (53 + - v) - 53) (- u - - v)) with (v - u - 53) by lia.
  replace (- u - - v - (v - u - 53)) with 53 by lia.
  cbv iota. rewrite Z.shiftl_mul_pow2 by lia.
  set (N := Z.pos mx * 2 ^ 53).
  assert (Z.div_eucl N (Z.pos my) = (N / Z.pos my, N mod Z.pos my)) as ->
    by (unfold Z.div, Z.modulo; destruct (Z.div_eucl N (Z.pos my)); done).
  rewrite xorb_false_r.
  destruct (round_quotient (a <? 0) N (Z.pos my) (v - u - 53))
    as (m & j & -> & Hm & Hj & Hbound); [lia|subst N; lia|lia|].
  exists m, (54 + u - v - j).
  split; [f_equal; lia|]. split; [done|]. split; [lia|].
  (* the bound, scaled by 2^j * 2^v, is the one of [round_quotient] *)
  assert (0 < 2 ^ j * 2 ^ v) as Hc by (apply Z.mul_pos_pos; apply Z.pow_pos_nonneg; lia).
  set (c := 2 ^ j * 2 ^ v) in *.
  assert (2 ^ (54 + u - v - j) * c = 2 * 2 ^ 53 * 2 ^ u) as Hpow.
  { subst c. rewrite <- !Z.pow_add_r by lia.
    change (2 * 2 ^ 53) with (2 ^ 54). rewrite <- Z.pow_add_r by lia. f_equal. lia. }
  apply (Z.mul_le_mono_pos_r _ _ c Hc).
  rewrite <- (Z.abs_eq c) at 1 by lia. rewrite <- Z.abs_mul.
  replace ((2 * Z.pos m * b - 2 ^ (54 + u - v - j) * Z.abs a) * c)
    with (2 * (Z.pos m * 2 ^ j * (b * 2 ^ v)) - (2 ^ (54 + u - v - j) * c) * Z.abs a)
    by (subst c; ring).
  rewrite Hpow, <- Emy.
  replace (2 * 2 ^ 53 * 2 ^ u * Z.abs a) with (2 * N) by (subst N; rewrite Emx; ring).
  replace (b * c) with (2 ^ j * Z.pos my) by (subst c; rewrite Emy; ring).
  done.
Qed.

(** The power of two of a quotient's exponent is large when the dividend
    is small. *)
Lemma div_ofZ_scale a b m t : 0 < a -> 0 < b -> 2 ^ 52 <= m -> 0 <= t ->
  Z.abs (2 * m * b - 2 ^ t * a) <= b -> (2 ^ 53 - 1) * b <= 2 ^ t * a.
Proof.
  intros Ha Hb Hm Ht Hbound.
  assert (2 ^ 53 * b <= 2 * m * b).
  { change (2 ^ 53) with (2 * 2 ^ 52). rewrite <- !Z.mul_assoc.
    apply Z.mul_le_mono_nonneg_l; [lia|]. apply Z.mul_le_mono_nonneg_r; lia. }
  lia.
Qed.

(** [(a / b).toFixed(f)] shows an integer [n] of units [10^-f] that is
    nearest to [a / b]: either of the two when [a / b] lies in the middle
    between them. *)
Lemma toFixed_div (f : nat) a b :
  0 < a -> 0 < b < 2 ^ 53 -> 2 * 10 ^ Z.of_nat f * a < 2 ^ 53 - 1 ->
  exists n, toFixed f (div (ofZ a) (ofZ b)) = fixedDigits f n
    /\ 0 <= n /\ Z.abs (2 * n * b - 2 * 10 ^ Z.of_nat f * a) <= b.
Proof.
  intros Ha Hb Hsmall.
  set (P := 10 ^ Z.of_nat f) in *.
  assert (0 < P) as HP0 by (subst P; apply Z.pow_pos_nonneg; lia).
  assert (a < 2 ^ 53) as Ha53 by nia.
  destruct (div_ofZ a b ltac:(lia) ltac:(lia) Hb) as (m & t & -> & Hm & Ht & Hbound).
  replace (Z.abs a) with a in Hbound by lia.
  replace (a <? 0) with false by lia.
  pose proof (div_ofZ_scale a b (Z.pos m) t Ha ltac:(lia) ltac:(lia) ltac:(lia) Hbound)
    as Hscale.
  set (T := 2 ^ t) in *.
  assert (0 < T) as HT by (subst T; apply Z.pow_pos_nonneg; lia).
  assert (2 * P * b < T) as Hbig.
  { apply (Z.mul_lt_mono_pos_r a); [lia|].
    apply Z.le_lt_trans with ((2 ^ 53 - 1) * b - b); [|lia].
    replace (2 * P * b * a) with ((2 * P * a) * b) by ring.
    assert ((2 * P * a) * b <= (2 ^ 53 - 2) * b) by (apply Z.mul_le_mono_nonneg_r; lia).
    lia. }
  assert (2 <= t) as Ht2.
  { destruct (Z_le_gt_dec 2 t); [done|].
    assert (T <= 2) by (subst T; assert (t = 0 \/ t = 1) as [-> | ->] by lia; simpl; lia).
    nia. }
  unfold toFixed. simpl append.
  exists (nearestFixed f m (1 - t)). split; [done|].
  unfold nearestFixed.
  replace (Z.max (1 - t) 0) with 0 by lia. replace (Z.max (- (1 - t)) 0) with (t - 1) by lia.
  fold P. rewrite Z.pow_0_r, Z.mul_1_r.
  assert (2 * 2 ^ (t - 1) = T) as HT2.
  { subst T. replace t with (Z.succ (t - 1)) at 2 by lia. rewrite Z.pow_succ_r by lia. done. }
  rewrite HT2.
  set (H := 2 ^ (t - 1)) in *.
  set (n := (2 * (Z.pos m * P) + H) / T).
  pose proof (Z.div_mod (2 * (Z.pos m * P) + H) T ltac:(lia)) as Hdm.
  pose proof (Z.mod_pos_bound (2 * (Z.pos m * P) + H) T HT) as Hr.
  fold n in Hdm. set (r := (2 * (Z.pos m * P) + H) mod T) in *.
  set (M := Z.pos m) in *.
  assert (0 < H) by lia.
  split.
  { subst n. apply Z.div_pos; [|lia].
    assert (0 <= M * P) by (apply Z.mul_nonneg_nonneg; lia). lia. }
  clear Hscale Hm Hsmall Ha53 Ht Ht2.
  assert (T * (2 * n * b - 2 * P * a - b) <= 2 * P * b) as Hup.
  { replace (T * (2 * n * b - 2 * P * a - b))
      with (2 * b * (T * n) - 2 * P * (T * a) - T * b) by ring.
    assert (T * n <= 2 * (M * P) + H) by lia.
    assert (2 * b * (T * n) <= 2 * b * (2 * (M * P) + H))
      by (apply Z.mul_le_mono_nonneg_l; lia).
    assert (2 * P * (2 * M * b - b) <= 2 * P * (T * a))
      by (apply Z.mul_le_mono_nonneg_l; lia).
    replace (2 * b * (2 * (M * P) + H)) with (2 * P * (2 * M * b) + T * b) in *
      by (rewrite <- HT2; ring).
    lia. }
  assert (- (2 * P * b) < T * (2 * n * b - 2 * P * a + b)) as Hlow.
  { replace (T * (2 * n * b - 2 * P * a + b))
      with (2 * b * (T * n + T) - 2 * P * (T * a) - T * b) by ring.
    assert (2 * (M * P) + H < T * n + T) by lia.
    assert (2 * b * (2 * (M * P) + H) < 2 * b * (T * n + T))
      by (apply Z.mul_lt_mono_pos_l; lia).
    assert (2 * P * (T * a) <= 2 * P * (2 * M * b + b))
      by (apply Z.mul_le_mono_nonneg_l; lia).
    replace (2 * b * (2 * (M * P) + H)) with (2 * P * (2 * M * b) + T * b) in *
      by (rewrite <- HT2; ring).
    lia. }
  clearbody n. clear Hdm Hr Hbound HT2.
  assert (2 * n * b - 2 * P * a - b <= 0) by nia.
  assert (0 <= 2 * n * b - 2 * P * a + b) by nia.
  lia.
Qed.

Lemma SFleb_pos m1 e1 m2 e2 :
  SFleb (S754_finite false m1 e1) (S754_finite false m2 e2)
  = (e1 <? e2) || ((e1 =? e2) && (Z.pos m1 <=? Z.pos m2)).
Proof.
  unfold SFleb, SFcompare.
  destruct (Z.compare_spec e1 e2) as [-> | Hlt | Hgt].
  - rewrite Z.ltb_irrefl, Z.eqb_refl. simpl. unfold Z.leb.
    change (Z.pos m1 ?= Z.pos m2) with (Pos.compare_cont Eq m1 m2).
    destruct (Pos.compare_cont Eq m1 m2); done.
  - apply Z.ltb_lt in Hlt as ->. done.
  - assert ((e1 <? e2) = false) as -> by lia.
    assert ((e1 =? e2) = false) as -> by lia. done.
Qed.

(** A quotient [2 * m / T] within half a unit of [a / b], against the
    double [2 * mc / Tc = p / q]: the three ways their exponents compare. *)
Lemma threshold_arith B m mc T Tc a b p q :
  0 < B -> B <= m < 2 * B -> B <= mc <= 2 * B - 2 ->
  0 < a -> 0 < b -> 0 < p -> 0 < q -> 0 < T -> 0 < Tc ->
  Z.abs (2 * m * b - T * a) <= b -> Tc * p = 2 * mc * q -> b * q < Tc ->
  (2 * Tc <= T -> a * q <= p * b)
  /\ (T = Tc -> (m <= mc <-> a * q <= p * b))
  /\ (2 * T <= Tc -> p * b < a * q).
Proof.
  intros HB Hm Hmc Ha Hb Hp Hq HT HTc Hbound Hc Hbq.
  assert (0 < b * q) as Hbq0 by (apply Z.mul_pos_pos; lia).
  apply Z.abs_le in Hbound as [Hlo Hhi].
  split; [|split].
  - intros HTT. destruct (Z_le_gt_dec (a * q) (p * b)) as [|Hgt]; [done|exfalso].
    assert (T * (p * b + 1) <= T * (a * q)) by (apply Z.mul_le_mono_nonneg_l; lia).
    assert (2 * (Tc * p) * b <= T * p * b).
    { apply Z.mul_le_mono_nonneg_r; [lia|].
      replace (2 * (Tc * p)) with (2 * Tc * p) by ring.
      apply Z.mul_le_mono_nonneg_r; lia. }
    assert (T * a * q <= (2 * m * b + b) * q) by (apply Z.mul_le_mono_nonneg_r; lia).
    rewrite Hc in *.
    assert ((2 * m + 1) * (b * q) <= (4 * B - 1) * (b * q))
      by (apply Z.mul_le_mono_nonneg_r; lia).
    assert (4 * B * (b * q) <= 4 * mc * (b * q)) by (apply Z.mul_le_mono_nonneg_r; lia).
    lia.
  - intros ->. split.
    + intros Hle. destruct (Z_le_gt_dec (a * q) (p * b)) as [|Hgt]; [done|exfalso].
      assert (Tc * (p * b + 1) <= Tc * (a * q)) by (apply Z.mul_le_mono_nonneg_l; lia).
      assert (Tc * a * q <= (2 * m * b + b) * q) by (apply Z.mul_le_mono_nonneg_r; lia).
      assert (2 * m * (b * q) <= 2 * mc * (b * q)) by (apply Z.mul_le_mono_nonneg_r; lia).
      assert (Tc * p * b = 2 * mc * (b * q)) by (rewrite Hc; ring).
      lia.
    + intros Hle. destruct (Z_le_gt_dec m mc) as [|Hgt]; [done|exfalso].
      assert (Tc * (a * q) <= Tc * (p * b)) by (apply Z.mul_le_mono_nonneg_l; lia).
      assert ((2 * m * b - b) * q <= Tc * a * q) by (apply Z.mul_le_mono_nonneg_r; lia).
      assert (2 * (mc + 1) * (b * q) <= 2 * m * (b * q))
        by (apply Z.mul_le_mono_nonneg_r; lia).
      assert (Tc * p * b = 2 * mc * (b * q)) by (rewrite Hc; ring).
      lia.
  - intros HTT. destruct (Z_lt_le_dec (p * b) (a * q)) as [|Hle]; [done|exfalso].
    assert (T * (a * q) <= T * (p * b)) by (apply Z.mul_le_mono_nonneg_l; lia).
    assert (2 * T * p * b <= Tc * p * b).
    { apply Z.mul_le_mono_nonneg_r; [lia|]. apply Z.mul_le_mono_nonneg_r; lia. }
    assert (Tc * p * b = 2 * mc * (b * q)) by (rewrite Hc; ring).
    assert ((2 * m * b - b) * q <= T * a * q) by (apply Z.mul_le_mono_nonneg_r; lia).
    assert (2 * B * (b * q) <= 2 * m * (b * q)) by (apply Z.mul_le_mono_nonneg_r; lia).
    assert (mc * (b * q) <= (2 * B - 2) * (b * q)) by (apply Z.mul_le_mono_nonneg_r; lia).
    lia.
Qed.

Lemma pow2_lt_double t tc : 0 <= t < tc -> 2 * 2 ^ t <= 2 ^ tc.
Proof.
  intros H. rewrite <- Z.pow_succ_r by lia. apply Z.pow_le_mono_r; lia.
Qed.

(** Comparing the quotient of two integers with a double that is the
    fraction [p / q] decides [a / b <= p / q] exactly, as long as [b * q]
    stays below the double's power of two. *)
Lemma leb_div_threshold a b mc tc p q :
  0 < a < 2 ^ 53 -> 0 < b < 2 ^ 53 -> 0 < p -> 0 < q ->
  2 ^ 52 <= Z.pos mc <= 2 ^ 53 - 2 -> 0 <= tc ->
  2 ^ tc * p = 2 * Z.pos mc * q -> b * q < 2 ^ tc ->
  leb (div (ofZ a) (ofZ b)) (S754_finite false mc (1 - tc)) = (a * q <=? p * b).
Proof.
  intros Ha Hb Hp Hq Hmc Htc Hc Hbq.
  destruct (div_ofZ a b ltac:(lia) ltac:(lia) Hb) as (m & t & -> & Hm & Ht & Hbound).
  replace (Z.abs a) with a in Hbound by lia.
  replace (a <? 0) with false by lia.
  unfold leb. rewrite SFleb_pos.
  assert (0 < 2 ^ t) by (apply Z.pow_pos_nonneg; lia).
  assert (0 < 2 ^ tc) by (apply Z.pow_pos_nonneg; lia).
  destruct (threshold_arith (2 ^ 52) (Z.pos m) (Z.pos mc) (2 ^ t) (2 ^ tc) a b p q)
    as (H1 & H2 & H3); try lia.
  destruct (Z.lt_trichotomy t tc) as [Hlt | [-> | Hgt]].
  - pose proof (pow2_lt_double t tc ltac:(lia)).
    assert ((1 - t <? 1 - tc) = false) as -> by lia.
    assert ((1 - t =? 1 - tc) = false) as -> by lia. simpl.
    symmetry. apply Z.leb_gt. apply H3. lia.
  - assert ((1 - tc <? 1 - tc) = false) as -> by lia.
    rewrite Z.eqb_refl. simpl.
    destruct (Z.leb_spec (Z.pos m) (Z.pos mc)) as [Hle|Hgt]; symmetry.
    + apply Z.leb_le. apply H2; done.
    + apply Z.leb_gt. destruct (Z_le_gt_dec (a * q) (p * b)) as [Hx|]; [|lia].
      apply H2 in Hx; [lia|done].
  - pose proof (pow2_lt_double tc t ltac:(lia)).
    assert ((1 - t <? 1 - tc) = true) as -> by lia. simpl.
    symmetry. apply Z.leb_le. apply H1. lia.
Qed.

Lemma floor_arith (m H a b k : Z) :
  0 < b -> 0 < H -> b < 2 * H ->
  Z.abs (2 * m * b - 2 * H * a) <= b ->
  k * H <= m < (k + 1) * H -> k * b <= a < (k + 1) * b.
Proof.
  intros Hb HH HbH Hbound Hk.
  apply Z.abs_le in Hbound as [Hlo Hhi].
  split.
  - destruct (Z_le_gt_dec (k * b) a) as [|Hgt]; [done|exfalso].
    assert (2 * H * a <= 2 * H * (k * b - 1)) by (apply Z.mul_le_mono_nonneg_l; lia).
    assert (k * H * (2 * b) <= m * (2 * b)) by (apply Z.mul_le_mono_nonneg_r; lia).
    lia.
  - destruct (Z_lt_le_dec a ((k + 1) * b)) as [|Hge]; [done|exfalso].
    assert (2 * H * ((k + 1) * b) <= 2 * H * a) by (apply Z.mul_le_mono_nonneg_l; lia).
    assert ((m + 1) * (2 * b) <= (k + 1) * H * (2 * b))
      by (apply Z.mul_le_mono_nonneg_r; lia).
    lia.
Qed.

(** [Math.floor(a / b)] is the integer quotient rounded down: the
    rounding of the division never reaches the next integer. *)
Lemma Math_floor_div a b : Z.abs a < 2 ^ 52 -> 0 < b < 2 ^ 53 ->
  Math_floor (div (ofZ a) (ofZ b)) = Some (a / b).
Proof.
  intros Ha Hb.
  destruct (decide (a = 0)) as [-> | Hne].
  { destruct (ofZ_nonzero b ltac:(lia) ltac:(lia)) as (my & v & -> & _). done. }
  destruct (div_ofZ a b Hne ltac:(lia) Hb) as (m & t & -> & Hm & Ht & Hbound).
  pose proof (div_ofZ_scale (Z.abs a) b (Z.pos m) t ltac:(lia) ltac:(lia) ltac:(lia)
                ltac:(lia) Hbound) as Hscale.
  assert (0 < 2 ^ t) as HT by (apply Z.pow_pos_nonneg; lia).
  assert (2 <= t) as Ht2.
  { destruct (Z_le_gt_dec 2 t); [done|].
    assert (2 ^ t <= 2) by (assert (t = 0 \/ t = 1) as [-> | ->] by lia; simpl; lia).
    assert (2 ^ t * Z.abs a <= 2 * Z.abs a) by (apply Z.mul_le_mono_nonneg_r; lia).
    lia. }
  assert (b < 2 ^ t) as HbT.
  { apply (Z.mul_lt_mono_pos_r (Z.abs a)); [lia|].
    assert (b * Z.abs a <= b * (2 ^ 52 - 1)) by (apply Z.mul_le_mono_nonneg_l; lia).
    lia. }
  assert (2 * 2 ^ (t - 1) = 2 ^ t) as HT2.
  { replace t with (Z.succ (t - 1)) at 2 by lia. rewrite Z.pow_succ_r by lia. done. }
  unfold Math_floor. f_equal.
  replace (Z.max (1 - t) 0) with 0 by lia. replace (Z.max (- (1 - t)) 0) with (t - 1) by lia.
  rewrite Z.pow_0_r, Z.mul_1_r.
  set (H := 2 ^ (t - 1)) in *. rewrite <- HT2 in *.
  assert (0 < H) by lia.
  set (s := if a <? 0 then Z.neg m else Z.pos m).
  assert (Z.abs (2 * s * b - 2 * H * a) <= b) as Hs.
  { subst s. destruct (Z.ltb_spec a 0).
    - replace (2 * Z.neg m * b - 2 * H * a)
        with (- (2 * Z.pos m * b - 2 * H * Z.abs a)) by lia.
      rewrite Z.abs_opp. done.
    - replace (Z.abs a) with a in Hbound by lia. done. }
  clearbody s. clear Hbound Hscale.
  pose proof (Z.div_mod s H ltac:(lia)) as Hdm.
  pose proof (Z.mod_pos_bound s H ltac:(lia)) as Hr.
  apply (Z.div_unique a b (s / H) (a - b * (s / H))); [|lia].
  left.
  destruct (floor_arith s H a b (s / H)) as [? ?]; [lia|lia|lia|done|lia|lia].
Qed.

(** ** Properties: integers as text *)

Example parseInt_unit : parseInt " 42px" = Some 42.
Proof. reflexivity. Qed.

Example parseInt_hexadecimal : parseInt "0x1F" = Some 31.
Proof. reflexivity. Qed.

Example parseInt_no_digits : parseInt "abc" = None.
Proof. reflexivity. Qed.

Example parseInt_fraction : parseInt "-7.5" = Some (-7).
Proof. reflexivity. Qed.

Ltac digit_cases d H :=
  let Hc := fresh "Hc" in
  assert (d = 0 \/ d = 1 \/ d = 2 \/ d = 3 \/ d = 4 \/ d = 5 \/ d = 6 \/ d = 7
          \/ d = 8 \/ d = 9) as Hc by lia;
  clear H;
  repeat (destruct Hc as [-> | Hc]); [..|subst d].

Lemma digitValue_pretty d : 0 <= d < 10 -> digitValue (pretty_N_char (Z.to_N d)) = Some d.
Proof. intros Hd. digit_cases d Hd; reflexivity. Qed.

Lemma mod10_digit (x : N) : isDigit (pretty_N_char (x `mod` 10)%N).
Proof.
  exists (Z.of_N (x `mod` 10)%N).
  pose proof (N.mod_lt x 10 ltac:(lia)) as Hm.
  set (y := (x `mod` 10)%N) in *. split; [lia|]. by rewrite N2Z.id.
Qed.

Lemma pretty_N_go_digits (x : N) : forall s, allDigits s -> allDigits (pretty_N_go x s).
Proof.
  induction (N.lt_wf_0 x) as [x _ IH]; intros s Hs.
  destruct (N.eq_0_gt_0_cases x) as [-> | Hx]; [by rewrite pretty_N_go_0|].
  rewrite pretty_N_go_step by done. apply IH; [by apply N.div_lt|].
  split; [apply mod10_digit|done].
Qed.

Lemma pretty_N_go_nonempty (x : N) : forall s, (0 < x)%N -> pretty_N_go x s <> EmptyString.
Proof.
  induction (N.lt_wf_0 x) as [x _ IH]; intros s Hx.
  rewrite pretty_N_go_step by done.
  destruct (N.eq_0_gt_0_cases (x `div` 10)) as [-> | Hq].
  - by rewrite pretty_N_go_0.
  - apply IH; [by apply N.div_lt|done].
Qed.

(** Reading back what [pretty_N_go] writes before [s]. *)
Lemma pretty_N_go_parse (x : N) : forall s acc, (0 < x)%N ->
  exists k, 0 <= k /\
    parseDigits 10 acc (pretty_N_go x s)
    = parseDigits 10 (Some (default 0 acc * 10 ^ k + Z.of_N x)) s.
Proof.
  induction (N.lt_wf_0 x) as [x _ IH]; intros s acc Hx.
  rewrite pretty_N_go_step by done.
  pose proof (N.mod_lt x 10 ltac:(lia)) as Hm.
  pose proof (N.div_mod x 10 ltac:(lia)) as Hdm.
  pose proof (N.div_lt x 10 Hx ltac:(lia)) as Hlt.
  set (q := (x `div` 10)%N) in *. set (r := (x `mod` 10)%N) in *.
  assert (digitValue (pretty_N_char r) = Some (Z.of_N r)) as Hdv.
  { rewrite <- (N2Z.id r) at 1. apply digitValue_pretty. lia. }
  destruct (N.eq_0_gt_0_cases q) as [Hq | Hq].
  - rewrite Hq, pretty_N_go_0. exists 1. split; [lia|]. cbn [parseDigits].
    rewrite Hdv. assert ((Z.of_N r <? 10) = true) as -> by lia.
    do 2 f_equal. lia.
  - destruct (IH q Hlt (String (pretty_N_char r) s) acc Hq) as (k & Hk & ->).
    exists (k + 1). split; [lia|]. cbn [parseDigits].
    rewrite Hdv. assert ((Z.of_N r <? 10) = true) as -> by lia.
    do 2 f_equal. simpl default. rewrite Z.pow_add_r by lia. lia.
Qed.

Lemma parseUnsigned_digits s : allDigits s -> parseUnsigned s = parseDigits 10 None s.
Proof.
  destruct s as [|c rest]; [done|]. intros [(d & Hd & ->) Hrest].
  digit_cases d Hd; try reflexivity.
  destruct rest as [|c2 r]; [done|]. destruct Hrest as [(d2 & Hd2 & ->) _].
  digit_cases d2 Hd2; reflexivity.
Qed.

Lemma parseInt_digits s : s <> EmptyString -> allDigits s ->
  parseInt s = parseDigits 10 None s
  /\ parseInt ("-" +:+ s) = Z.opp <$> parseDigits 10 None s.
Proof.
  intros Hne Hs. rewrite <- (parseUnsigned_digits s Hs). split; [|done].
  destruct s as [|c rest]; [done|]. destruct Hs as [(d & Hd & ->) Hrest].
  digit_cases d Hd; reflexivity.
Qed.

(** [parseInt(String(n))] is [n], for every integer below 2^53 in
    magnitude (where [String(n)] is all the digits of [n]). *)
Lemma parseInt_toString (n : Z) : Z.abs n < 2 ^ 53 -> parseInt (toString n) = Some n.
Proof.
  intros _.
  unfold toString, pretty, pretty_Z. destruct n as [|p|p]; [done| |].
  - unfold pretty, pretty_positive, pretty, pretty_N. rewrite decide_False by done.
    destruct (parseInt_digits (pretty_N_go (N.pos p) "")) as [-> _];
      [by apply pretty_N_go_nonempty|by apply pretty_N_go_digits|].
    destruct (pretty_N_go_parse (N.pos p) "" None) as (k & _ & ->); [done|].
    simpl. done.
  - unfold pretty at 1, pretty_positive, pretty, pretty_N. rewrite decide_False by done.
    destruct (parseInt_digits (pretty_N_go (N.pos p) "")) as [_ ->];
      [by apply pretty_N_go_nonempty|by apply pretty_N_go_digits|].
    destruct (pretty_N_go_parse (N.pos p) "" None) as (k & _ & ->); [done|].
    simpl. done.
Qed.

Lemma iter_pos_nat {A} (f : A -> A) (p : positive) (x : A) :
  SpecFloat.iter_pos f p x = Nat.iter (Pos.to_nat p) f x.
Proof.
  revert x. induction p as [p IH|p IH|]; intros x; cbn [SpecFloat.iter_pos].
  - rewrite !IH, Pos2Nat.inj_xI, <- Nat.iter_add, Nat.iter_succ_r.
    f_equal. lia.
  - rewrite !IH, Pos2Nat.inj_xO, <- Nat.iter_add. f_equal. lia.
  - done.
Qed.

(** [n] shifts to the right of a number [N] carrying no remainder yet:
    the quotient by [2^n], with the place of the remainder. *)
Lemma shr_iter (n : nat) (N : Z) : 0 <= N -> (0 < n)%nat ->
  let D := 2 ^ Z.of_nat n in
  exists r s,
    Nat.iter n shr_1 (Build_shr_record N false false) = Build_shr_record (N / D) r s
    /\ loc_of_shr_record (Build_shr_record (N / D) r s)
       = if N mod D =? 0 then loc_Exact else loc_Inexact (2 * (N mod D) ?= D).
Proof.
  intros HN Hn.
  induction n as [|n IH]; [lia|]. clear Hn.
  destruct n as [|n].
  { exists (Z.odd N), false.
    change (Nat.iter 1 shr_1 ?x) with (shr_1 x). rewrite shr_1_nonneg by done.
    split; [done|]. change (2 ^ Z.of_nat 1) with 2.
    rewrite Zmod_odd. destruct (Z.odd N); done. }
  destruct (IH ltac:(lia)) as (r & s & Hit & Hloc). clear IH.
  set (D := 2 ^ Z.of_nat (S n)) in *.
  assert (0 < D) as HD by (apply Z.pow_pos_nonneg; lia).
  assert (2 ^ Z.of_nat (S (S n)) = 2 * D) as HD2.
  { subst D. rewrite (Nat2Z.inj_succ (S n)), Z.pow_succ_r by lia. done. }
  cbv zeta. rewrite HD2.
  exists (Z.odd (N / D)), (r || s).
  change (Nat.iter (S (S n)) shr_1 ?x) with (shr_1 (Nat.iter (S n) shr_1 x)).
  rewrite Hit.
  assert (0 <= N / D) as Hq by (apply Z.div_pos; lia).
  rewrite shr_1_nonneg by done.
  assert (N / (2 * D) = N / D / 2) as Hdiv by (rewrite Z.mul_comm, Z.div_div by lia; done).
  split; [by rewrite Hdiv|].
  (* the remainder modulo 2 * D *)
  pose proof (Z.div_mod N D ltac:(lia)) as Hdm.
  pose proof (Z.mod_pos_bound N D HD) as Hr.
  pose proof (Z.div_mod (N / D) 2 ltac:(lia)) as Hdm2.
  rewrite Zmod_odd in Hdm2.
  set (q := N / D) in *. set (R := N mod D) in *. set (h := q / 2) in *.
  assert (N mod (2 * D) = (if Z.odd q then D else 0) + R) as ->.
  { symmetry. apply (Z.mod_unique_pos _ _ h); [destruct (Z.odd q); lia|].
    destruct (Z.odd q); lia. }
  assert ((r || s) = negb (R =? 0)) as ->.
  { destruct r, s, (Z.eqb_spec R 0); simpl in Hloc; try done;
      destruct (2 * R ?= D); done. }
  clearbody q R h.
  destruct (Z.eqb_spec R 0) as [HR0|HR]; destruct (Z.odd q); simpl.
  - rewrite HR0, Z.add_0_r. assert ((D =? 0) = false) as -> by lia.
    by rewrite Z.compare_refl.
  - by rewrite HR0.
  - assert ((D + R =? 0) = false) as -> by lia.
    assert ((2 * (D + R) ?= 2 * D) = Gt) as -> by (apply Z.compare_gt_iff; lia). done.
  - assert ((0 + R =? 0) = false) as -> by lia.
    assert ((2 * (0 + R) ?= 2 * D) = Lt) as -> by (apply Z.compare_lt_iff; lia). done.
Qed.

(** Rounding a number of [53 + k] bits to 53 bits. *)
Lemma round_wide (s : bool) N e k :
  1 <= k -> 2 ^ (52 + k) <= N < 2 ^ (53 + k) -> -1074 <= e -> e + k <= 900 ->
  exists m i,
    binary_round_aux prec emax s N e loc_Exact = S754_finite s m (e + k + i)
    /\ 2 ^ 52 <= Z.pos m < 2 ^ 53 /\ 0 <= i <= 1
    /\ Z.abs (2 * (Z.pos m * 2 ^ i * 2 ^ k) - 2 * N) <= 2 ^ i * 2 ^ k.
Proof.
  intros Hk HN He Hek.
  assert (0 < N) as HN0.
  { assert (0 < 2 ^ (52 + k)) by (apply Z.pow_pos_nonneg; lia). lia. }
  unfold binary_round_aux. unfold shr_fexp at 1.
  rewrite (Zdigits2_unique N (53 + k)) by (replace (53 + k - 1) with (52 + k) by lia; lia).
  rewrite fexp_normal by lia.
  replace (53 + k + e - 53 - e) with k by lia.
  destruct k as [|pk|pk]; try lia. cbn [shr_record_of_loc shr].
  rewrite iter_pos_nat.
  destruct (shr_iter (Pos.to_nat pk) N ltac:(lia) ltac:(lia)) as (r & st & -> & Hloc).
  rewrite positive_nat_Z in *. cbv beta iota.
  set (D := 2 ^ Z.pos pk) in *.
  assert (0 < D) as HD by (apply Z.pow_pos_nonneg; lia).
  assert (2 ^ (52 + Z.pos pk) = 2 ^ 52 * D) as E52 by (rewrite Z.pow_add_r by lia; done).
  assert (2 ^ (53 + Z.pos pk) = 2 ^ 53 * D) as E53 by (rewrite Z.pow_add_r by lia; done).
  rewrite E52, E53 in HN.
  pose proof (Z.div_mod N D ltac:(lia)) as Hdm.
  pose proof (Z.mod_pos_bound N D HD) as Hr.
  assert (2 ^ 52 <= N / D < 2 ^ 53) as Hq.
  { split; [apply Z.div_le_lower_bound; lia | apply Z.div_lt_upper_bound; lia]. }
  set (q := N / D) in *. set (R := N mod D) in *.
  cbn [shr_m]. rewrite Hloc.
  set (m1 := round_nearest_even _ _).
  assert ((m1 = q /\ 2 * R <= D) \/ (m1 = q + 1 /\ D <= 2 * R)) as Hm1.
  { subst m1. destruct (Z.eqb_spec R 0) as [HR0|HR0]; simpl; [left; lia|].
    destruct (Z.compare_spec (2 * R) D); simpl.
    - destruct (Z.even q); [left|right]; lia.
    - left; lia.
    - right; lia. }
  clearbody m1.
  destruct (finish_53 s m1 (e + Z.pos pk)) as (m & i & -> & Hm & Hi & Hmi); [lia|lia|].
  exists m, i. split; [done|]. split; [done|]. split; [lia|].
  rewrite Hmi. clear Hmi Hm Hq HN E52 E53.
  assert (2 ^ i = 1 \/ 2 ^ i = 2) as [-> | ->]
    by (assert (i = 0 \/ i = 1) as [-> | ->] by lia; [left|right]; done).
  all: destruct Hm1 as [[-> ?] | [-> ?]]; lia.
Qed.

(** The product of two doubles of 53 bits: within half a unit in the
    last place of the exact product. *)
Lemma mul_finite (sx sy : bool) mx ex my ey :
  2 ^ 52 <= Z.pos mx < 2 ^ 53 -> 2 ^ 52 <= Z.pos my < 2 ^ 53 ->
  -500 <= ex <= 400 -> -500 <= ey <= 400 ->
  exists m j,
    mul (S754_finite sx mx ex) (S754_finite sy my ey)
      = S754_finite (xorb sx sy) m (ex + ey + j)
    /\ 2 ^ 52 <= Z.pos m < 2 ^ 53 /\ 52 <= j <= 54
    /\ Z.abs (2 * (Z.pos m * 2 ^ j) - 2 * (Z.pos mx * Z.pos my)) <= 2 ^ j.
Proof.
  intros Hmx Hmy Hex Hey. unfold mul, SFmul.
  rewrite Pos2Z.inj_mul.
  set (N := Z.pos mx * Z.pos my).
  assert (2 ^ 104 <= N < 2 ^ 106) as HN.
  { subst N. split.
    - change (2 ^ 104) with (2 ^ 52 * 2 ^ 52). apply Z.mul_le_mono_nonneg; lia.
    - change (2 ^ 106) with (2 ^ 53 * 2 ^ 53). apply Z.mul_lt_mono_nonneg; lia. }
  destruct (Z_lt_le_dec N (2 ^ 105)) as [Hlt|Hge].
  - destruct (round_wide (xorb sx sy) N (ex + ey) 52) as (m & i & -> & Hm & Hi & Hb);
      [lia|simpl; lia|lia|lia|].
    exists m, (52 + i). split; [f_equal; lia|]. split; [done|]. split; [lia|].
    rewrite Z.pow_add_r by lia.
    replace (Z.pos m * (2 ^ 52 * 2 ^ i)) with (Z.pos m * 2 ^ i * 2 ^ 52) by ring.
    by rewrite (Z.mul_comm (2 ^ 52)).
  - destruct (round_wide (xorb sx sy) N (ex + ey) 53) as (m & i & -> & Hm & Hi & Hb);
      [lia|simpl; lia|lia|lia|].
    exists m, (53 + i). split; [f_equal; lia|]. split; [done|]. split; [lia|].
    rewrite Z.pow_add_r by lia.
    replace (Z.pos m * (2 ^ 53 * 2 ^ i)) with (Z.pos m * 2 ^ i * 2 ^ 53) by ring.
    by rewrite (Z.mul_comm (2 ^ 53)).
Qed.

Example ofString_examples :
  ofString "94.9" = div (ofZ 949) (ofZ 10) /\ ofString "" = S754_zero false
  /\ ofString "." = S754_nan /\ ofString "12" = ofZ 12 /\ ofString "1.2.3" = S754_nan
  /\ ofString "5." = ofZ 5 /\ ofString ".5" = div (ofZ 5) (ofZ 10).
Proof. repeat split; reflexivity. Qed.

Lemma threshold_arith_ge B m mc T Tc a b p q :
  0 < B -> B <= m < 2 * B -> B <= mc ->
  0 < a -> 0 < b -> 0 < p -> 0 < q -> 0 < T -> 0 < Tc ->
  Z.abs (2 * m * b - T * a) <= b -> Tc * p = 2 * mc * q -> b * q < Tc ->
  (2 * Tc <= T -> a * q < p * b)
  /\ (T = Tc -> (mc <= m <-> p * b <= a * q)).
Proof.
  intros HB Hm Hmc Ha Hb Hp Hq HT HTc Hbound Hc Hbq.
  assert (0 < b * q) as Hbq0 by (apply Z.mul_pos_pos; lia).
  apply Z.abs_le in Hbound as [Hlo Hhi].
  split.
  - intros HTT. destruct (Z_lt_le_dec (a * q) (p * b)) as [|Hge]; [done|exfalso].
    assert (T * (p * b) <= T * (a * q)) by (apply Z.mul_le_mono_nonneg_l; lia).
    assert (2 * (Tc * p) * b <= T * p * b).
    { apply Z.mul_le_mono_nonneg_r; [lia|].
      replace (2 * (Tc * p)) with (2 * Tc * p) by ring.
      apply Z.mul_le_mono_nonneg_r; lia. }
    assert (T * a * q <= (2 * m * b + b) * q) by (apply Z.mul_le_mono_nonneg_r; lia).
    rewrite Hc in *.
    assert ((2 * m + 1) * (b * q) <= (4 * B - 1) * (b * q))
      by (apply Z.mul_le_mono_nonneg_r; lia).
    assert (4 * B * (b * q) <= 4 * mc * (b * q)) by (apply Z.mul_le_mono_nonneg_r; lia).
    lia.
  - intros ->. split.
    + intros Hle. destruct (Z_le_gt_dec (p * b) (a * q)) as [|Hgt]; [done|exfalso].
      assert (Tc * (a * q + 1) <= Tc * (p * b)) by (apply Z.mul_le_mono_nonneg_l; lia).
      assert ((2 * m * b - b) * q <= Tc * a * q) by (apply Z.mul_le_mono_nonneg_r; lia).
      assert (2 * mc * (b * q) <= 2 * m * (b * q)) by (apply Z.mul_le_mono_nonneg_r; lia).
      assert (Tc * p * b = 2 * mc * (b * q)) by (rewrite Hc; ring).
      lia.
    + intros Hle. destruct (Z_le_gt_dec mc m) as [|Hgt]; [done|exfalso].
      assert (Tc * (p * b) <= Tc * (a * q)) by (apply Z.mul_le_mono_nonneg_l; lia).
      assert (Tc * a * q <= (2 * m * b + b) * q) by (apply Z.mul_le_mono_nonneg_r; lia).
      assert (2 * (m + 1) * (b * q) <= 2 * mc * (b * q))
        by (apply Z.mul_le_mono_nonneg_r; lia).
      assert (Tc * p * b = 2 * mc * (b * q)) by (rewrite Hc; ring).
      lia.
Qed.

(** Comparing a double that is the fraction [p / q] with the quotient of
    two integers decides [p / q <= a / b] exactly. *)
Lemma geb_div_threshold a b mc tc p q :
  0 < a < 2 ^ 53 -> 0 < b < 2 ^ 53 -> 0 < p -> 0 < q ->
  2 ^ 52 <= Z.pos mc <= 2 ^ 53 - 2 -> 0 <= tc ->
  2 ^ tc * p = 2 * Z.pos mc * q -> b * q < 2 ^ tc ->
  geb (div (ofZ a) (ofZ b)) (S754_finite false mc (1 - tc)) = (p * b <=? a * q).
Proof.
  intros Ha Hb Hp Hq Hmc Htc Hc Hbq.
  destruct (div_ofZ a b ltac:(lia) ltac:(lia) Hb) as (m & t & -> & Hm & Ht & Hbound).
  replace (Z.abs a) with a in Hbound by lia.
  replace (a <? 0) with false by lia.
  unfold geb. rewrite SFleb_pos.
  assert (0 < 2 ^ t) by (apply Z.pow_pos_nonneg; lia).
  assert (0 < 2 ^ tc) by (apply Z.pow_pos_nonneg; lia).
  destruct (threshold_arith (2 ^ 52) (Z.pos m) (Z.pos mc) (2 ^ t) (2 ^ tc) a b p q)
    as (_ & _ & H3); try lia.
  destruct (threshold_arith_ge (2 ^ 52) (Z.pos m) (Z.pos mc) (2 ^ t) (2 ^ tc) a b p q)
    as (H1 & H2); try lia.
  destruct (Z.lt_trichotomy t tc) as [Hlt | [-> | Hgt]].
  - pose proof (pow2_lt_double t tc ltac:(lia)).
    assert ((1 - tc <? 1 - t) = true) as -> by lia. simpl.
    symmetry. apply Z.leb_le. apply Z.lt_le_incl, H3. lia.
  - assert ((1 - tc <? 1 - tc) = false) as -> by lia.
    rewrite Z.eqb_refl. simpl.
    destruct (Z.leb_spec (Z.pos mc) (Z.pos m)) as [Hle|Hgt]; symmetry.
    + apply Z.leb_le. apply H2; done.
    + apply Z.leb_gt. destruct (Z_lt_le_dec (a * q) (p * b)) as [|Hx]; [done|].
      apply H2 in Hx; [lia|done].
  - pose proof (pow2_lt_double tc t ltac:(lia)).
    assert ((1 - tc <? 1 - t) = false) as -> by lia.
    assert ((1 - tc =? 1 - t) = false) as -> by lia. simpl.
    symmetry. apply Z.leb_gt. apply H1. lia.
Qed.

Lemma pretty_N_go_app (x : N) : forall s rest,
  pretty_N_go x s +:+ rest = pretty_N_go x (s +:+ rest).
Proof.
  induction (N.lt_wf_0 x) as [x _ IH]; intros s rest.
  destruct (N.eq_0_gt_0_cases x) as [-> | Hx]; [by rewrite !pretty_N_go_0|].
  rewrite (pretty_N_go_step x s), (pretty_N_go_step x (s +:+ rest)) by done.
  rewrite IH by (by apply N.div_lt). reflexivity.
Qed.

Lemma readDigits_pretty_N_go (x : N) : forall s acc count, (0 < x)%N ->
  exists k, (0 < k)%nat /\
    readDigits acc count (pretty_N_go x s)
    = readDigits (acc * 10 ^ Z.of_nat k + Z.of_N x) (count + k) s.
Proof.
  induction (N.lt_wf_0 x) as [x _ IH]; intros s acc count Hx.
  rewrite pretty_N_go_step by done.
  pose proof (N.mod_lt x 10 ltac:(lia)) as Hm.
  pose proof (N.div_mod x 10 ltac:(lia)) as Hdm.
  pose proof (N.div_lt x 10 Hx ltac:(lia)) as Hlt.
  set (q := (x `div` 10)%N) in *. set (r := (x `mod` 10)%N) in *.
  assert (digitValue (pretty_N_char r) = Some (Z.of_N r)) as Hdv.
  { rewrite <- (N2Z.id r) at 1. apply digitValue_pretty. lia. }
  destruct (N.eq_0_gt_0_cases q) as [Hq0 | Hq].
  - rewrite Hq0, pretty_N_go_0. exists 1%nat. split; [lia|].
    cbn [readDigits]. rewrite Hdv.
    assert ((Z.of_N r <? 10) = true) as -> by lia.
    f_equal; [|lia]. change (10 ^ Z.of_nat 1) with 10. lia.
  - destruct (IH q Hlt (String (pretty_N_char r) s) acc count Hq) as (k & Hk & ->).
    exists (S k). split; [lia|].
    cbn [readDigits]. rewrite Hdv.
    assert ((Z.of_N r <? 10) = true) as -> by lia.
    f_equal; [|lia]. rewrite Nat2Z.inj_succ, Z.pow_succ_r by lia. lia.
Qed.

Lemma readDigits_pretty (n : Z) (rest : string) acc count : 0 <= n ->
  exists k, (0 < k)%nat /\
    readDigits acc count (pretty n +:+ rest)
    = readDigits (acc * 10 ^ Z.of_nat k + n) (count + k) rest.
Proof.
  intros Hn. destruct n as [|p|p]; [| |lia].
  - exists 1%nat. split; [lia|]. change (pretty 0 +:+ rest) with (String "0" rest).
    cbn [readDigits]. change (digitValue "0") with (Some 0). cbn [Z.ltb Z.compare].
    change (10 ^ Z.of_nat 1) with 10. f_equal; lia.
  - unfold pretty, pretty_Z, pretty, pretty_positive, pretty, pretty_N.
    rewrite decide_False by done. rewrite pretty_N_go_app.
    change ("" +:+ rest) with rest.
    destruct (readDigits_pretty_N_go (N.pos p) rest acc count) as (k & Hk & ->); [done|].
    by exists k.
Qed.

(** Reading back what [toFixed(1)] writes. *)
Lemma ofString_fixedDigits (n : Z) : 0 <= n ->
  ofString (fixedDigits 1 n) = div (ofZ n) (ofZ 10).
Proof.
  intros Hn. unfold fixedDigits, ofString.
  change (10 ^ Z.of_nat 1) with 10.
  pose proof (Z.div_mod n 10 ltac:(lia)) as Hdm.
  pose proof (Z.mod_pos_bound n 10 ltac:(lia)) as Hr.
  assert (0 <= n / 10) as Hq by (apply Z.div_pos; lia).
  set (q := n / 10) in *. set (d := n `mod` 10) in *.
  destruct (readDigits_pretty q ("." +:+ fractionDigits 1 d) 0 0 Hq) as (k & Hk & ->).
  change ("." +:+ fractionDigits 1 d) with (String "." (fractionDigits 1 d)).
  cbn [readDigits]. change (digitValue ".") with (@None Z). cbv beta iota.
  assert (readDigits (0 * 10 ^ Z.of_nat k + q) 0 (fractionDigits 1 d)
          = (n, 1%nat, EmptyString)) as ->.
  { clearbody q d. subst n. clear Hn Hq. digit_cases d Hr; vm_compute (fractionDigits 1 _); cbn [readDigits];
      vm_compute (digitValue _); cbv beta iota; vm_compute (_ <? 10); cbv iota;
      f_equal; f_equal; lia. }
  replace (0 + k + 1)%nat with (S k) by lia. done.
Qed.

(** The three roundings of [(s / r * 100).toFixed(1)] together: the
    quotient [2 * mx / T], its product with 100 [my * J / (W * J)] and the
    nearest tenth [n] of that. *)
Lemma rate_arith (mx my n r s T J W U : Z) :
  0 < r -> 0 <= s -> 0 < T -> 0 < J -> 0 < W -> 0 < U ->
  2 * W * J = T * U ->
  Z.abs (2 * mx * r - T * s) <= r ->
  Z.abs (2 * (my * J) - 2 * (mx * (100 * U))) <= J ->
  2 * W * n - W <= 20 * my < 2 * W * n + W ->
  (10 * J + 1000 * U) * r < W * J ->
  Z.abs (2 * n * r - 2000 * s) <= r.
Proof.
  intros Hr Hs HT HJ HW HU HWJ H1 H2 H3 H4.
  apply Z.abs_le in H1 as [H1l H1u]. apply Z.abs_le in H2 as [H2l H2u].
  destruct H3 as [H3l H3u].
  assert (0 < J * r) as Hjr by (apply Z.mul_pos_pos; lia).
  assert ((2 * W * n - W) * (J * r) <= 20 * my * (J * r))
    by (apply Z.mul_le_mono_nonneg_r; lia).
  assert (20 * my * (J * r) <= (2 * W * n + W) * (J * r))
    by (apply Z.mul_le_mono_nonneg_r; lia).
  assert (10 * r * (2 * (my * J) - 2 * (mx * (100 * U))) <= 10 * r * J)
    by (apply Z.mul_le_mono_nonneg_l; lia).
  assert (10 * r * (- J) <= 10 * r * (2 * (my * J) - 2 * (mx * (100 * U))))
    by (apply Z.mul_le_mono_nonneg_l; lia).
  assert (1000 * U * (2 * mx * r - T * s) <= 1000 * U * r)
    by (apply Z.mul_le_mono_nonneg_l; lia).
  assert (1000 * U * (- r) <= 1000 * U * (2 * mx * r - T * s))
    by (apply Z.mul_le_mono_nonneg_l; lia).
  assert (W * J * (2 * n * r - 2000 * s)
          = 2 * W * n * (J * r) - 1000 * (T * U) * s) as HX by (rewrite <- HWJ; ring).
  assert (0 < W * J) as Hwj by (apply Z.mul_pos_pos; lia).
  set (X := 2 * n * r - 2000 * s) in *.
  assert (W * J * X < W * J * (r + 1)) as Hup by lia.
  assert (W * J * (- (r + 1)) < W * J * X) as Hlo by lia.
  apply Z.mul_lt_mono_pos_l in Hup; [|done].
  apply Z.mul_lt_mono_pos_l in Hlo; [|done].
  apply Z.abs_le. lia.
Qed.

(** [(s / r * 100).toFixed(1)] shows a tenth of a percent nearest to the
    exact rate. *)
Lemma toFixed_rate s r : 0 < s <= r -> r < 2 ^ 40 ->
  exists n, toFixed 1 (mul (div (ofZ s) (ofZ r)) (ofZ 100)) = fixedDigits 1 n
    /\ 0 <= n /\ Z.abs (2 * n * r - 2000 * s) <= r.
Proof.
  intros Hs Hr.
  destruct (div_ofZ s r ltac:(lia) ltac:(lia) ltac:(lia)) as (mx & t & -> & Hmx & Ht & Hbound).
  replace (Z.abs s) with s in Hbound by lia.
  replace (s <? 0) with false by lia.
  pose proof (div_ofZ_scale s r (Z.pos mx) t ltac:(lia) ltac:(lia) ltac:(lia) ltac:(lia) Hbound)
    as Hscale.
  assert (53 <= t) as Ht53.
  { destruct (Z_le_gt_dec 53 t); [done|exfalso].
    assert (2 ^ t <= 2 ^ 52) by (apply Z.pow_le_mono_r; lia).
    assert (2 ^ t * s <= 2 ^ 52 * s) by (apply Z.mul_le_mono_nonneg_r; lia).
    lia. }
  change (ofZ 100) with (S754_finite false 7036874417766400 (-46)).
  destruct (mul_finite false false mx (1 - t) 7036874417766400 (-46))
    as (my & j & -> & Hmy & Hj & Hprod); [done|lia|lia|lia|].
  unfold toFixed. cbn [xorb]. change ("" +:+ ?x) with x.
  exists (nearestFixed 1 my (1 - t + -46 + j)). split; [done|].
  unfold nearestFixed.
  replace (Z.max (1 - t + -46 + j) 0) with 0 by lia.
  replace (Z.max (- (1 - t + -46 + j)) 0) with (t + 45 - j) by lia.
  change (10 ^ Z.of_nat 1) with 10. rewrite Z.pow_0_r, Z.mul_1_r.
  set (W := 2 ^ (t + 45 - j)).
  assert (0 < W) as HW by (subst W; apply Z.pow_pos_nonneg; lia).
  set (n := (2 * (Z.pos my * 10) + W) / (2 * W)).
  pose proof (Z.div_mod (2 * (Z.pos my * 10) + W) (2 * W) ltac:(lia)) as Hdm.
  pose proof (Z.mod_pos_bound (2 * (Z.pos my * 10) + W) (2 * W) ltac:(lia)) as Hrem.
  fold n in Hdm.
  split; [subst n; apply Z.div_pos; lia|].
  assert (0 < 2 ^ t) as HT by (apply Z.pow_pos_nonneg; lia).
  assert (0 < 2 ^ j) as HJ by (apply Z.pow_pos_nonneg; lia).
  assert (2 ^ j <= 2 ^ 54) as HJ54 by (apply Z.pow_le_mono_r; lia).
  assert (W * 2 ^ j = 2 ^ t * 2 ^ 45) as HWJ.
  { subst W. rewrite <- !Z.pow_add_r by lia. f_equal. lia. }
  assert (2 ^ 53 <= 2 ^ t) as HT53 by (apply Z.pow_le_mono_r; lia).
  apply (rate_arith (Z.pos mx) (Z.pos my) n r s (2 ^ t) (2 ^ j) W (2 ^ 46));
    try done; try lia.
  rewrite HWJ.
  assert ((10 * 2 ^ j + 1000 * 2 ^ 46) * r <= (10 * 2 ^ 54 + 1000 * 2 ^ 46) * r)
    by (apply Z.mul_le_mono_nonneg_r; lia).
  assert (2 ^ 53 * 2 ^ 45 <= 2 ^ t * 2 ^ 45) by (apply Z.mul_le_mono_nonneg_r; lia).
  lia.
Qed.

(** The quotient of two counts in the ratio [c / 2000], for the two
    ratios at which the rate lies in the middle between two tenths of a
    percent at a threshold. *)
Lemma div_tie c m0 k :
  (c = 1899 /\ m0 = 8552335692376572%positive)
  \/ (c = 1599 /\ m0 = 7201255804165423%positive) ->
  0 < k -> 2000 * k < 2 ^ 53 ->
  div (ofZ (c * k)) (ofZ (2000 * k)) = S754_finite false m0 (-53).
Proof.
  intros Hc Hk Hk53.
  assert (0 < c * k < 2 ^ 53) as Hck by (destruct Hc as [[-> _] | [-> _]]; lia).
  destruct (div_ofZ (c * k) (2000 * k) ltac:(lia) ltac:(lia) ltac:(lia))
    as (m & t & -> & Hm & Ht & Hbound).
  replace (Z.abs (c * k)) with (c * k) in Hbound by lia.
  replace (c * k <? 0) with false by lia.
  assert (Z.abs (4000 * Z.pos m - 2 ^ t * c) <= 2000) as Hb.
  { apply Z.abs_le in Hbound as [Hl Hu]. apply Z.abs_le.
    replace (2 * Z.pos m * (2000 * k) - 2 ^ t * (c * k))
      with (k * (4000 * Z.pos m - 2 ^ t * c)) in * by ring.
    replace (- (2000 * k)) with (k * (- 2000)) in Hl by ring.
    replace (2000 * k) with (k * 2000) in Hu by ring.
    apply Z.mul_le_mono_pos_l in Hl, Hu; done. }
  clear Hbound. apply Z.abs_le in Hb.
  assert (t = 54) as ->.
  { destruct (Z_le_gt_dec t 53); [|destruct (Z_le_gt_dec 55 t)]; [exfalso|exfalso|lia].
    - assert (2 ^ t <= 2 ^ 53) by (apply Z.pow_le_mono_r; lia).
      destruct Hc as [[-> _] | [-> _]]; lia.
    - assert (2 ^ 55 <= 2 ^ t) by (apply Z.pow_le_mono_r; lia).
      destruct Hc as [[-> _] | [-> _]]; lia. }
  f_equal. destruct Hc as [[-> ->] | [-> ->]]; lia.
Qed.

(** Counts in a ratio in lowest terms are multiples of it. *)
Lemma ratio_multiple c s r : Z.gcd 2000 c = 1 -> 2000 * s = c * r ->
  exists k, r = 2000 * k /\ s = c * k.
Proof.
  intros Hg Heq.
  assert ((2000 | r)) as [k Hk].
  { apply (Z.gauss 2000 c r); [exists s; lia|done]. }
  exists k. split; [lia|]. subst r.
  apply (Z.mul_reg_l _ _ 2000); lia.
Qed.

End Number.

(* ===================================================================== *)
(** * Pagination (src/components/ui/Pagination.tsx)                       *)
(* ===================================================================== *)

Module Pagination.

(** An entry of [(number | string)[]]: a page number or a text (the
    ellipsis). *)
Inductive PageItem : Type :=
| PageNum (n : Z)
| PageText (s : string).

(** The props the logic reads. [pageSize] is optional and defaults to 20. *)
Record Props : Type := mkProps {
  current : Z;
  total : Z;
  pageSize : option Z;
}.

Definition DEFAULT_PAGE_SIZE : Z := 20.

Definition pageSizeOf (p : Props) : Z := default DEFAULT_PAGE_SIZE (pageSize p).

(** [Math.ceil(total / pageSize)] on integers, [pageSize <> 0]: [Z]'s
    division rounds down, so the ceiling is minus the floor of the negated
    quotient.  ([pageSize = 0] gives a non-finite number in JavaScript and
    is outside the model.) *)
Definition totalPages (total pageSize : Z) : Z := - ((- total) / pageSize).

(** [for (let i = lo; ...; i++) pages.push(i)], run [n] times. *)
Fixpoint pushPages (n : nat) (i : Z) (pages : list PageItem) : list PageItem :=
  match n with
  | O => pages
  | S n' => pushPages n' (i + 1) (pages ++ [PageNum i])
  end.

(** [for (let i = lo; i <= hi; i++) pages.push(i)]. *)
Definition pushRange (lo hi : Z) (pages : list PageItem) : list PageItem :=
  pushPages (Z.to_nat (hi - lo + 1)) lo pages.

Definition ELLIPSIS : string := "...".

Definition getPageNumbers (current totalPages : Z) : list PageItem :=
  let pages : list PageItem := [] in
  if totalPages <=? 7 then
    pushRange 1 totalPages pages
  else if current <=? 3 then
    let pages := pushRange 1 5 pages in
    let pages := pages ++ [PageText ELLIPSIS] in
    pages ++ [PageNum totalPages]
  else if current >=? totalPages - 2 then
    let pages := pages ++ [PageNum 1] in
    let pages := pages ++ [PageText ELLIPSIS] in
    pushRange (totalPages - 4) totalPages pages
  else
    let pages := pages ++ [PageNum 1] in
    let pages := pages ++ [PageText ELLIPSIS] in
    let pages := pushRange (current - 1) (current + 1) pages in
    let pages := pages ++ [PageText ELLIPSIS] in
    pages ++ [PageNum totalPages].

(** [handlePageChange]: the effect is the call of [onPageChange]; [calls]
    is the log of the arguments it has been called with so far. *)
Definition handlePageChange (current totalPages page : Z) (calls : list Z) : list Z :=
  if (page <? 1) || (page >? totalPages) || (page =? current) then calls
  else calls ++ [page].

(** What the component renders (the parts computed from the props). *)
Record View : Type := mkView {
  rangeStart : Z;
  rangeEnd : Z;
  pageButtons : list PageItem;
  prevDisabled : bool;
  nextDisabled : bool;
}.

(** The component: [None] is React's [null] (nothing rendered). *)
Definition render (p : Props) : option View :=
  let pageSize := pageSizeOf p in
  let totalPages := totalPages (total p) pageSize in
  let start := if total p =? 0 then 0 else (current p - 1) * pageSize + 1 in
  let end_ := Z.min (current p * pageSize) (total p) in
  if total p =? 0 then None
  else Some {| rangeStart := start;
               rangeEnd := end_;
               pageButtons := getPageNumbers (current p) totalPages;
               prevDisabled := current p =? 1;
               nextDisabled := current p =? totalPages |}.

(** The buttons of the page controls. *)
Inductive Button : Type :=
| FirstButton
| PrevButton
| PageButton (page : Z)
| NextButton
| LastButton.

(** The page a button's [onClick] passes to [handlePageChange]. *)
Definition target (current totalPages : Z) (b : Button) : Z :=
  match b with
  | FirstButton => 1
  | PrevButton => current - 1
  | PageButton page => page
  | NextButton => current + 1
  | LastButton => totalPages
  end.

Definition onClick (current totalPages : Z) (b : Button) (calls : list Z) : list Z :=
  handlePageChange current totalPages (target current totalPages b) calls.

(** The [disabled] attribute of a button. *)
Definition disabled (v : View) (b : Button) : bool :=
  match b with
  | FirstButton | PrevButton => prevDisabled v
  | PageButton _ => false
  | NextButton | LastButton => nextDisabled v
  end.

(** [a !== b] for a parsed number [a] (NaN is [None]) and a number [b]. *)
Definition strict_ne (a : option Z) (b : Z) : bool :=
  match a with
  | Some x => negb (x =? b)
  | None => true
  end.

(** [handlePageSizeChange]: [calls] is the log of the arguments
    [onPageSizeChange] has been called with (NaN is [None]);
    [hasCallback] says whether the optional prop is there. *)
Definition handlePageSizeChange (pageSize : Z) (hasCallback : bool) (value : string)
  (calls : list (option Z)) : list (option Z) :=
  let newSize := Number.parseInt value in
  if strict_ne newSize pageSize && hasCallback then calls ++ [newSize] else calls.

(** The [value]s of the options of the page-size selector:
    [String(size)] for the sizes of [pageSizeOptions] (sizes below 2^53 in
    magnitude, see [Number.toString]). *)
Definition sizeOptions (pageSizeOptions : list Z) : list string :=
  Number.toString <$> pageSizeOptions.

(** ** Properties *)
Example getPageNumbers_single : getPageNumbers 1 1 = [PageNum 1].
Proof. reflexivity. Qed.

Example getPageNumbers_middle :
  getPageNumbers 4 8 =
    [PageNum 1; PageText "..."; PageNum 3; PageNum 4; PageNum 5; PageText "..."; PageNum 8].
Proof. reflexivity. Qed.

Example getPageNumbers_near_end :
  getPageNumbers 8 10 =
    [PageNum 1; PageText "..."; PageNum 6; PageNum 7; PageNum 8; PageNum 9; PageNum 10].
Proof. reflexivity. Qed.

Example totalPages_rounds_up : totalPages 101 20 = 6.
Proof. reflexivity. Qed.

Example handlePageChange_out_of_range : handlePageChange 3 6 7 [] = [].
Proof. reflexivity. Qed.

Example handlePageChange_next : handlePageChange 3 6 4 [] = [4].
Proof. reflexivity. Qed.


Lemma totalPages_ceil total pageSize :
  0 < pageSize ->
  (totalPages total pageSize - 1) * pageSize < total <= totalPages total pageSize * pageSize.
Proof.
  intros Hp. unfold totalPages.
  pose proof (Z.div_mod (- total) pageSize ltac:(lia)) as Hdm.
  pose proof (Z.mod_pos_bound (- total) pageSize Hp) as Hb.
  nia.
Qed.

Lemma totalPages_pos total pageSize :
  0 < total -> 0 < pageSize -> 1 <= totalPages total pageSize.
Proof.
  intros Ht Hp. pose proof (totalPages_ceil total pageSize Hp). nia.
Qed.

Lemma pushPages_seqZ n i pages :
  pushPages n i pages = pages ++ (PageNum <$> seqZ i (Z.of_nat n)).
Proof.
  revert i pages. induction n as [|n IH]; intros i pages.
  - simpl. by rewrite app_nil_r.
  - cbn [pushPages]. rewrite IH.
    replace (Z.of_nat (S n)) with (Z.succ (Z.of_nat n)) by lia.
    rewrite (seqZ_cons i) by lia. rewrite fmap_cons, <- app_assoc. simpl.
    rewrite Z.pred_succ. by replace (Z.succ i) with (i + 1) by lia.
Qed.

Lemma pushRange_seqZ lo hi pages :
  pushRange lo hi pages = pages ++ (PageNum <$> seqZ lo (hi - lo + 1)).
Proof.
  unfold pushRange. rewrite pushPages_seqZ.
  destruct (Z_le_gt_dec 0 (hi - lo + 1)) as [Hle|Hgt].
  - by rewrite Z2Nat.id.
  - rewrite Z2Nat.nonpos by lia.
    rewrite (seqZ_nil lo (hi - lo + 1)) by lia. done.
Qed.

Lemma seqZ_3 m : seqZ m 3 = [m; m + 1; m + 2].
Proof.
  rewrite !seqZ_cons by lia. cbn. rewrite seqZ_nil by lia.
  by replace (Z.succ (Z.succ m)) with (m + 2) by lia.
Qed.

Lemma seqZ_5 m : seqZ m 5 = [m; m + 1; m + 2; m + 3; m + 4].
Proof.
  rewrite !seqZ_cons by lia. cbn. rewrite seqZ_nil by lia.
  replace (Z.succ (Z.succ (Z.succ (Z.succ m)))) with (m + 4) by lia.
  replace (Z.succ (Z.succ (Z.succ m))) with (m + 3) by lia.
  by replace (Z.succ (Z.succ m)) with (m + 2) by lia.
Qed.

(** Membership in a list given by its elements. *)
Ltac in_window := rewrite !elem_of_cons; auto 10.

Lemma getPageNumbers_unfold current tp :
  getPageNumbers current tp =
    if tp <=? 7 then PageNum <$> seqZ 1 tp
    else if current <=? 3 then
      [PageNum 1; PageNum 2; PageNum 3; PageNum 4; PageNum 5;
       PageText ELLIPSIS; PageNum tp]
    else if current >=? tp - 2 then
      [PageNum 1; PageText ELLIPSIS; PageNum (tp - 4); PageNum (tp - 3);
       PageNum (tp - 2); PageNum (tp - 1); PageNum tp]
    else
      [PageNum 1; PageText ELLIPSIS; PageNum (current - 1); PageNum current;
       PageNum (current + 1); PageText ELLIPSIS; PageNum tp].
Proof.
  unfold getPageNumbers.
  destruct (tp <=? 7) eqn:H7.
  { rewrite pushRange_seqZ. by replace (tp - 1 + 1) with tp by lia. }
  destruct (current <=? 3) eqn:H3.
  { rewrite pushRange_seqZ. reflexivity. }
  destruct (current >=? tp - 2) eqn:Hend.
  - rewrite pushRange_seqZ.
    replace (tp - (tp - 4) + 1) with 5 by lia.
    rewrite seqZ_5. cbn.
    replace (tp - 4 + 1) with (tp - 3) by lia.
    replace (tp - 4 + 2) with (tp - 2) by lia.
    replace (tp - 4 + 3) with (tp - 1) by lia.
    by replace (tp - 4 + 4) with tp by lia.
  - rewrite pushRange_seqZ.
    replace (current + 1 - (current - 1) + 1) with 3 by lia.
    rewrite seqZ_3. cbn.
    replace (current - 1 + 1) with current by lia.
    by replace (current - 1 + 2) with (current + 1) by lia.
Qed.

(** C2: for [total > 0], [pageSize > 0] and [1 <= current <= totalPages],
    where [totalPages] is the ceiling of [total / pageSize], the page window
    is [1..totalPages] when [totalPages <= 7], else [1,2,3,4,5,...,last]
    when [current <= 3], else [1,...,last-4..last] when
    [current >= last - 2], else [1,...,current-1,current,current+1,...,last];
    in every case it contains page 1, the current page and the last page. *)
Theorem getPageNumbers_window (total pageSize current : Z) :
  0 < total -> 0 < pageSize ->
  1 <= current <= totalPages total pageSize ->
  let tp := totalPages total pageSize in
  let window := getPageNumbers current tp in
  ((tp - 1) * pageSize < total <= tp * pageSize) /\
  (tp <= 7 -> window = PageNum <$> seqZ 1 tp) /\
  (7 < tp -> current <= 3 ->
     window = [PageNum 1; PageNum 2; PageNum 3; PageNum 4; PageNum 5;
               PageText "..."; PageNum tp]) /\
  (7 < tp -> 3 < current -> tp - 2 <= current ->
     window = [PageNum 1; PageText "..."; PageNum (tp - 4); PageNum (tp - 3);
               PageNum (tp - 2); PageNum (tp - 1); PageNum tp]) /\
  (7 < tp -> 3 < current -> current < tp - 2 ->
     window = [PageNum 1; PageText "..."; PageNum (current - 1);
               PageNum current; PageNum (current + 1); PageText "...";
               PageNum tp]) /\
  PageNum current ∈ window /\ PageNum 1 ∈ window /\ PageNum tp ∈ window.
Proof.
  intros Ht Hp Hc tp window.
  assert (Hceil := totalPages_ceil total pageSize Hp). fold tp in Hceil, Hc.
  assert (Hw := getPageNumbers_unfold current tp). fold window in Hw.
  split; [exact Hceil|].
  assert (Hmem : ∀ k, 1 <= k <= tp -> PageNum k ∈ (PageNum <$> seqZ 1 tp)).
  { intros k Hk. apply list_elem_of_fmap. exists k. split; [done|].
    apply elem_of_seqZ. lia. }
  destruct (tp <=? 7) eqn:H7; [apply Z.leb_le in H7 | apply Z.leb_gt in H7].
  { repeat split; try (intros; lia); try done; rewrite Hw; apply Hmem; lia. }
  destruct (current <=? 3) eqn:H3; [apply Z.leb_le in H3 | apply Z.leb_gt in H3].
  { rewrite Hw. repeat split; try (intros; lia); try done.
    - assert (current = 1 \/ current = 2 \/ current = 3) as [-> | [-> | ->]] by lia;
        in_window.
    - in_window.
    - in_window. }
  destruct (current >=? tp - 2) eqn:Hend;
    [apply Z.geb_le in Hend | rewrite Z.geb_leb in Hend; apply Z.leb_gt in Hend].
  - rewrite Hw. repeat split; try (intros; lia); try done.
    + assert (current = tp - 2 \/ current = tp - 1 \/ current = tp)
        as [-> | [-> | ->]] by lia; in_window.
    + in_window.
    + in_window.
  - rewrite Hw. repeat split; try (intros; lia); try done; in_window.
Qed.

(** A run of C2 in its middle case: 200 records, 10 per page, page 9 of 20. *)
Lemma getPageNumbers_window_witness :
  getPageNumbers 9 (totalPages 200 10) =
    [PageNum 1; PageText "..."; PageNum 8; PageNum 9; PageNum 10;
     PageText "..."; PageNum 20]
  /\ PageNum 9 ∈ getPageNumbers 9 (totalPages 200 10).
Proof.
  destruct (getPageNumbers_window 200 10 9) as (_ & _ & _ & _ & Hmid & Hcur & _);
    [lia | lia | vm_compute; split; discriminate | ].
  split; [apply Hmid; vm_compute; reflexivity | exact Hcur].
Defined.

(** C8: [handlePageChange page] calls [onPageChange page] (once) exactly
    when [1 <= page <= totalPages] and [page <> current]; otherwise it calls
    nothing; and with [total = 0] the component renders nothing. *)
Theorem handlePageChange_guard (current tp page : Z) (calls : list Z) :
  (handlePageChange current tp page calls =
     if bool_decide (1 <= page <= tp /\ page ≠ current)
     then calls ++ [page] else calls) /\
  (∀ cur pageSize, render (mkProps cur 0 pageSize) = None).
Proof.
  split; [|reflexivity].
  unfold handlePageChange.
  case_bool_decide as Hd.
  - destruct Hd as [[H1 H2] H3].
    replace (page <? 1) with false by (symmetry; apply Z.ltb_ge; lia).
    replace (page >? tp) with false
      by (symmetry; rewrite Z.gtb_ltb; apply Z.ltb_ge; lia).
    replace (page =? current) with false by (symmetry; apply Z.eqb_neq; lia).
    reflexivity.
  - destruct (page <? 1) eqn:E1; [reflexivity|].
    destruct (page >? tp) eqn:E2; [reflexivity|].
    destruct (page =? current) eqn:E3; [reflexivity|].
    exfalso. apply Hd. apply Z.ltb_ge in E1. rewrite Z.gtb_ltb in E2.
    apply Z.ltb_ge in E2. apply Z.eqb_neq in E3. lia.
Qed.

(** ** Properties: record range, buttons, page size *)

Example render_second_page :
  render (mkProps 2 35 None) = Some (mkView 21 35 [PageNum 1; PageNum 2] false true).
Proof. reflexivity. Qed.

Example render_beyond_last_page :
  render (mkProps 3 35 None) = Some (mkView 41 35 [PageNum 1; PageNum 2] false false).
Proof. reflexivity. Qed.

Example handlePageSizeChange_not_a_number :
  handlePageSizeChange 20 true "all" [] = [None].
Proof. reflexivity. Qed.

(** X9: the range "start-end" shown for page [current >= 1] holds exactly
    the records whose number [i] (from 1 to [total]) lies on that page,
    [current = ceil(i / pageSize)]: every record is in the range of one
    page.  The range is not empty exactly up to the last page; beyond it
    the component shows a start above the end. *)
Theorem record_range (p : Props) :
  0 < total p -> 0 < pageSizeOf p -> 1 <= current p ->
  exists v, render p = Some v
    /\ (forall i, rangeStart v <= i <= rangeEnd v
          <-> 1 <= i <= total p /\ (i - 1) / pageSizeOf p + 1 = current p)
    /\ (rangeStart v <= rangeEnd v <-> current p <= totalPages (total p) (pageSizeOf p)).
Proof.
  intros Ht Hp Hc. unfold render.
  assert ((total p =? 0) = false) as -> by lia.
  eexists. split; [reflexivity|]. cbn [rangeStart rangeEnd].
  set (ps := pageSizeOf p) in *. set (c := current p) in *. set (t := total p) in *.
  pose proof (totalPages_ceil t ps Hp) as Hceil.
  set (tp := totalPages t ps) in *.
  split.
  - intros i.
    pose proof (Z.div_mod (i - 1) ps ltac:(lia)) as Hdm.
    pose proof (Z.mod_pos_bound (i - 1) ps Hp) as Hr.
    set (q := (i - 1) / ps) in *. set (r := (i - 1) mod ps) in *.
    split.
    + intros [H1 H2]. assert (q = c - 1) by nia. nia.
    + intros [H1 H2]. assert (q = c - 1) as Hq by lia. rewrite Hq in Hdm. nia.
  - split; intros H; nia.
Qed.

Lemma record_range_witness :
  exists v, render (mkProps 2 35 None) = Some v
    /\ (forall i, rangeStart v <= i <= rangeEnd v
          <-> 1 <= i <= 35 /\ (i - 1) / 20 + 1 = 2)
    /\ (rangeStart v <= rangeEnd v <-> 2 <= totalPages 35 20).
Proof. apply (record_range (mkProps 2 35 None)); by vm_compute. Defined.

Lemma elem_of_getPageNumbers current tp n :
  1 <= current <= tp -> PageNum n ∈ getPageNumbers current tp -> 1 <= n <= tp.
Proof.
  intros Hc. rewrite getPageNumbers_unfold.
  destruct (Z.leb_spec tp 7) as [H7|H7].
  { intros Hin. apply list_elem_of_fmap in Hin as (k & [= ->] & Hk).
    apply elem_of_seqZ in Hk. lia. }
  destruct (Z.leb_spec current 3) as [H3|H3];
    [|destruct (Z.geb_spec current (tp - 2)) as [Hend|Hend]];
    rewrite !elem_of_cons, elem_of_nil; intros Hin;
    repeat (destruct Hin as [Hin | Hin]); try done; simplify_eq; lia.
Qed.

Lemma handlePageChange_ignored current tp page calls :
  handlePageChange current tp page calls = calls
  <-> ~ (1 <= page <= tp /\ page <> current).
Proof.
  unfold handlePageChange.
  destruct (page <? 1) eqn:E1; [apply Z.ltb_lt in E1; simpl; split; [lia|done]|].
  destruct (page >? tp) eqn:E2;
    [rewrite Z.gtb_ltb in E2; apply Z.ltb_lt in E2; simpl; split; [lia|done]|].
  destruct (page =? current) eqn:E3;
    [apply Z.eqb_eq in E3; simpl; split; [lia|done]|].
  simpl. apply Z.ltb_ge in E1. rewrite Z.gtb_ltb in E2. apply Z.ltb_ge in E2.
  apply Z.eqb_neq in E3. split; [|lia].
  intros Heq. apply (f_equal length) in Heq. rewrite length_app in Heq.
  simpl in Heq. lia.
Qed.

(** X10: on a page within range, each of the four navigation buttons is
    disabled exactly when [handlePageChange] would ignore its click, and
    every page-number button of the window calls [onPageChange] with its
    own page, except the one of the current page. *)
Theorem buttons_agree_with_guard (p : Props) (calls : list Z) :
  0 < total p -> 0 < pageSizeOf p ->
  1 <= current p <= totalPages (total p) (pageSizeOf p) ->
  exists v, render p = Some v
    /\ (forall b, b ∈ [FirstButton; PrevButton; NextButton; LastButton] ->
          (disabled v b = true
           <-> onClick (current p) (totalPages (total p) (pageSizeOf p)) b calls = calls))
    /\ (forall n, PageNum n ∈ pageButtons v ->
          onClick (current p) (totalPages (total p) (pageSizeOf p)) (PageButton n) calls
          = if bool_decide (n = current p) then calls else calls ++ [n]).
Proof.
  intros Ht Hp Hc. unfold render.
  assert ((total p =? 0) = false) as -> by lia.
  eexists. split; [reflexivity|]. cbn [pageButtons].
  set (tp := totalPages (total p) (pageSizeOf p)) in *.
  split.
  - intros b Hb. unfold onClick. rewrite handlePageChange_ignored.
    rewrite !elem_of_cons, elem_of_nil in Hb.
    destruct Hb as [-> | [-> | [-> | [-> | []]]]];
      cbn [disabled prevDisabled nextDisabled target]; rewrite Z.eqb_eq; lia.
  - intros n Hn. apply elem_of_getPageNumbers in Hn; [|done].
    unfold onClick, target, handlePageChange.
    assert ((n <? 1) = false) as -> by lia.
    assert ((n >? tp) = false) as -> by lia. simpl.
    case_bool_decide as Hd.
    + by apply Z.eqb_eq in Hd as ->.
    + by apply Z.eqb_neq in Hd as ->.
Qed.

Lemma buttons_agree_with_guard_witness :
  exists v, render (mkProps 1 35 None) = Some v
    /\ (disabled v PrevButton = true <-> onClick 1 2 PrevButton [] = [])
    /\ (disabled v NextButton = true <-> onClick 1 2 NextButton [] = []).
Proof.
  destruct (buttons_agree_with_guard (mkProps 1 35 None) [])
    as (v & Hv & Hnav & _); [by vm_compute|by vm_compute|vm_compute; split; discriminate|].
  exists v. split; [done|].
  split; [apply (Hnav PrevButton)|apply (Hnav NextButton)];
    rewrite !elem_of_cons; auto.
Defined.

(** X11: for page sizes below 2^53 in magnitude, choosing an option of the
    page-size selector, whose value is [String(size)], calls
    [onPageSizeChange] with [size] itself, unless [size] is the page size
    in use (then nothing is called). *)
Theorem handlePageSizeChange_option (pageSizeOptions : list Z) (pageSize : Z)
  (calls : list (option Z)) (i : nat) (value : string) :
  Forall (fun size => Z.abs size < 2 ^ 53) pageSizeOptions ->
  sizeOptions pageSizeOptions !! i = Some value ->
  exists size, pageSizeOptions !! i = Some size
    /\ handlePageSizeChange pageSize true value calls
       = if bool_decide (size = pageSize) then calls else calls ++ [Some size].
Proof.
  intros Hbound. unfold sizeOptions. rewrite list_lookup_fmap.
  destruct (pageSizeOptions !! i) as [size|] eqn:Hi; [|done]. intros [= <-].
  exists size. split; [done|].
  assert (Z.abs size < 2 ^ 53) as Hsize
    by (by eapply (proj1 (Forall_lookup _ _) Hbound)).
  unfold handlePageSizeChange. rewrite Number.parseInt_toString by done. cbn [strict_ne].
  rewrite andb_true_r.
  case_bool_decide as Hd.
  - by apply Z.eqb_eq in Hd as ->.
  - by apply Z.eqb_neq in Hd as ->.
Qed.

Lemma handlePageSizeChange_option_witness :
  exists size, [10; 20; 50; 100] !! 2%nat = Some size
    /\ handlePageSizeChange 20 true "50" [] = [Some size].
Proof.
  destruct (handlePageSizeChange_option [10; 20; 50; 100] 20 [] 2 "50")
    as (size & H1 & H2); [repeat constructor; done|reflexivity|].
  exists size. split; [done|]. rewrite H2.
  assert (size = 50) as -> by (simpl in H1; congruence). reflexivity.
Defined.

End Pagination.

(* ===================================================================== *)
(** * Theme store (stores/useThemeStore, src/unnamed/part_007)            *)
(* ===================================================================== *)

Module ThemeStore.

(** Modelled from the spec: the type [Theme] of '@/types' is not among the
    sources; the spec gives the preference as [light | dark | auto], and
    [cycleTheme]'s [order] array lists the same three values. *)
Inductive Theme : Type := Light | Dark | Auto.

(** [type ResolvedTheme = 'light' | 'dark']. *)
Inductive ResolvedTheme : Type := RLight | RDark.

#[global] Instance Theme_eq_dec : EqDecision Theme.
Proof. solve_decision. Defined.

#[global] Instance ResolvedTheme_eq_dec : EqDecision ResolvedTheme.
Proof. solve_decision. Defined.

(** The store's data fields together with what its operations read and
    write around it: the [data-theme] attribute of the document element,
    [window.matchMedia] ([None] when the browser has none, otherwise whether
    the query [(prefers-color-scheme: dark)] matches), and the number of
    [change] listeners [initializeTheme] has registered on that query. *)
Record World : Type := mkWorld {
  theme : Theme;
  resolvedTheme : ResolvedTheme;
  dataTheme : option string;
  matchMedia : option bool;
  listeners : nat;
}.

Definition getSystemTheme (w : World) : ResolvedTheme :=
  match matchMedia w with
  | Some true => RDark
  | _ => RLight
  end.

(** [theme === 'auto' ? getSystemTheme() : theme]. *)
Definition resolve (t : Theme) (w : World) : ResolvedTheme :=
  match t with
  | Auto => getSystemTheme w
  | Light => RLight
  | Dark => RDark
  end.

Definition applyTheme (resolved : ResolvedTheme) (w : World) : World :=
  let currentTheme := dataTheme w in
  let targetTheme := match resolved with RDark => Some "dark"%string | RLight => None end in
  let attr :=
    if bool_decide (targetTheme = Some "dark"%string) then
      if bool_decide (currentTheme ≠ Some "dark"%string) then Some "dark"%string
      else currentTheme
    else
      if bool_decide (currentTheme ≠ None) then None else currentTheme in
  mkWorld (theme w) (resolvedTheme w) attr (matchMedia w) (listeners w).

(** [set({ theme, resolvedTheme })] and [set({ resolvedTheme })]. *)
Definition set_both (t : Theme) (r : ResolvedTheme) (w : World) : World :=
  mkWorld t r (dataTheme w) (matchMedia w) (listeners w).

Definition set_resolved (r : ResolvedTheme) (w : World) : World :=
  mkWorld (theme w) r (dataTheme w) (matchMedia w) (listeners w).

Definition setTheme (t : Theme) (w : World) : World :=
  let resolved := resolve t w in
  set_both t resolved (applyTheme resolved w).

Definition order : list Theme := [Light; Dark; Auto].

(** [Array.prototype.indexOf]: the first index holding [t], or -1. *)
Fixpoint indexOf (t : Theme) (l : list Theme) : Z :=
  match l with
  | [] => -1
  | x :: l' =>
      if bool_decide (x = t) then 0
      else let i := indexOf t l' in if i <? 0 then -1 else i + 1
  end.

Definition cycleTheme (w : World) : World :=
  let currentIndex := indexOf (theme w) order in
  let nextIndex := (currentIndex + 1) `rem` Z.of_nat (length order) in
  (* the index is within [order]: the default is never taken *)
  let nextTheme := default Light (order !! Z.to_nat nextIndex) in
  let resolved := resolve nextTheme w in
  set_both nextTheme resolved (applyTheme resolved w).

(** The [change] listener that [initializeTheme] registers. *)
Definition listener (w : World) : World :=
  if bool_decide (theme w = Auto) then
    let newResolved := getSystemTheme w in
    set_resolved newResolved (applyTheme newResolved w)
  else w.

Definition addListener (w : World) : World :=
  mkWorld (theme w) (resolvedTheme w) (dataTheme w) (matchMedia w) (S (listeners w)).

(** [initializeTheme]: the returned clean-up is [cleanup] below when a
    listener was registered and does nothing otherwise. *)
Definition initializeTheme (w : World) : World :=
  let resolved := resolve (theme w) w in
  let w := set_resolved resolved (applyTheme resolved w) in
  match matchMedia w with
  | None => w
  | Some _ => addListener w
  end.

Definition cleanup (w : World) : World :=
  mkWorld (theme w) (resolvedTheme w) (dataTheme w) (matchMedia w) (pred (listeners w)).

(** The operating system's preference changes: the media query's [matches]
    changes and every registered listener is called. *)
Definition preferenceChange (prefersDark : bool) (w : World) : World :=
  match matchMedia w with
  | None => w
  | Some _ =>
      let w := mkWorld (theme w) (resolvedTheme w) (dataTheme w) (Some prefersDark)
                       (listeners w) in
      Nat.iter (listeners w) listener w
  end.

Inductive Event : Type :=
| EvSetTheme (t : Theme)
| EvCycleTheme
| EvInitializeTheme
| EvCleanup
| EvPreferenceChange (prefersDark : bool).

Definition step (ev : Event) (w : World) : World :=
  match ev with
  | EvSetTheme t => setTheme t w
  | EvCycleTheme => cycleTheme w
  | EvInitializeTheme => initializeTheme w
  | EvCleanup => cleanup w
  | EvPreferenceChange d => preferenceChange d w
  end.

Definition run (evs : list Event) (w : World) : World :=
  foldl (fun w ev => step ev w) w evs.

(** The event runs code of the store: one of the three actions, or a
    preference change that reaches a registered listener. *)
Definition runs_store_code (ev : Event) (w : World) : bool :=
  match ev with
  | EvSetTheme _ | EvCycleTheme | EvInitializeTheme => true
  | EvCleanup => false
  | EvPreferenceChange _ =>
      bool_decide (is_Some (matchMedia w)) && bool_decide (0 < listeners w)%nat
  end.

(** The invariant: [resolvedTheme] is [theme] when that is light or dark and
    the system's preference when it is auto. *)
Definition consistent (w : World) : Prop :=
  match theme w with
  | Light => resolvedTheme w = RLight
  | Dark => resolvedTheme w = RDark
  | Auto => resolvedTheme w = if bool_decide (matchMedia w = Some true) then RDark else RLight
  end.

(** The part of the invariant that does not depend on the system. *)
Definition fixed_consistent (w : World) : Prop :=
  match theme w with
  | Light => resolvedTheme w = RLight
  | Dark => resolvedTheme w = RDark
  | Auto => True
  end.

(** While a listener is registered the system-independent part of the
    invariant holds: registering one goes through [initializeTheme]. *)
Definition listening_ok (w : World) : Prop :=
  (0 < listeners w)%nat -> fixed_consistent w.

(** What the store's code leaves in the document: the [data-theme]
    attribute is ["dark"] when the resolved theme is dark and is absent
    when it is light. *)
Definition attribute_matches (w : World) : Prop :=
  dataTheme w = match resolvedTheme w with RDark => Some "dark" | RLight => None end.

(** The callback [onRehydrateStorage] returns, called by the persist
    middleware once the stored state has been read back into the store;
    [state] is the [theme] of the state it is given, [None] when it is
    given none. *)
Definition onRehydrateStorage (state : option Theme) (w : World) : World :=
  match state with
  | Some t => let resolved := resolve t w in applyTheme resolved w
  | None => w
  end.

(** ** Properties *)

Example cycleTheme_from_auto :
  cycleTheme (mkWorld Auto RDark (Some "dark") (Some true) 0)
    = mkWorld Light RLight None (Some true) 0.
Proof. reflexivity. Qed.

Example initializeTheme_auto_dark :
  initializeTheme (mkWorld Auto RLight None (Some true) 0)
    = mkWorld Auto RDark (Some "dark") (Some true) 1.
Proof. reflexivity. Qed.

Example listener_ignores_fixed_theme :
  listener (mkWorld Light RLight None (Some true) 1) = mkWorld Light RLight None (Some true) 1.
Proof. reflexivity. Qed.

Lemma consistent_fixed w : consistent w -> fixed_consistent w.
Proof. unfold consistent, fixed_consistent. by destruct (theme w). Qed.

Lemma fixed_consistent_ext w w' :
  theme w' = theme w -> resolvedTheme w' = resolvedTheme w ->
  fixed_consistent w -> fixed_consistent w'.
Proof. unfold fixed_consistent. by intros -> ->. Qed.

Lemma setTheme_consistent t w : consistent (setTheme t w).
Proof. by destruct t, w as [? ? ? [[]|] ?]. Qed.

Lemma cycleTheme_theme w :
  theme (cycleTheme w) =
    match theme w with Light => Dark | Dark => Auto | Auto => Light end.
Proof. by destruct w as [[] ? ? ? ?]. Qed.

Lemma cycleTheme_consistent w : consistent (cycleTheme w).
Proof. by destruct w as [[] ? ? [[]|] ?]. Qed.

Lemma initializeTheme_consistent w : consistent (initializeTheme w).
Proof. by destruct w as [[] ? ? [[]|] ?]. Qed.

Lemma listener_consistent w : fixed_consistent w -> consistent (listener w).
Proof.
  destruct w as [[] r a [[]|] n]; unfold fixed_consistent, consistent; simpl; done.
Qed.

Lemma listener_idem w : listener (listener w) = listener w.
Proof.
  destruct w as [[] r a [[]|] n]; try reflexivity;
    unfold listener, set_resolved, applyTheme, getSystemTheme; simpl;
    repeat (case_bool_decide; simpl); simplify_eq; try done; by f_equal.
Qed.

Lemma iter_listener n w :
  (0 < n)%nat -> Nat.iter n listener w = listener w.
Proof.
  induction n as [|n IH]; [lia|]. intros _.
  destruct n as [|n]; [reflexivity|].
  change (Nat.iter (S (S n)) listener w) with (listener (Nat.iter (S n) listener w)).
  rewrite IH by lia. apply listener_idem.
Qed.

Lemma preferenceChange_consistent d w :
  is_Some (matchMedia w) -> (0 < listeners w)%nat -> fixed_consistent w ->
  consistent (preferenceChange d w).
Proof.
  intros [m Hm] Hn Hf. unfold preferenceChange. rewrite Hm. simpl.
  rewrite iter_listener by done.
  apply listener_consistent. by eapply fixed_consistent_ext, Hf.
Qed.

Lemma step_listening_ok ev w : listening_ok w -> listening_ok (step ev w).
Proof.
  intros Hw. destruct ev as [t| | | |d]; simpl.
  - intros _. apply consistent_fixed, setTheme_consistent.
  - intros _. apply consistent_fixed, cycleTheme_consistent.
  - intros _. apply consistent_fixed, initializeTheme_consistent.
  - intros Hn. simpl in Hn.
    eapply fixed_consistent_ext; [| |apply Hw; lia]; reflexivity.
  - unfold preferenceChange. destruct (matchMedia w) as [m|] eqn:Hm; [|done].
    destruct (listeners w) as [|n] eqn:Hn.
    + simpl. intros Hl. simpl in Hl. lia.
    + intros _. apply consistent_fixed. simpl listeners.
      rewrite iter_listener by lia. apply listener_consistent.
      eapply fixed_consistent_ext; [| |apply Hw; lia]; reflexivity.
Qed.

Lemma run_events_snoc evs ev w : run (evs ++ [ev]) w = step ev (run evs w).
Proof. unfold run. by rewrite foldl_app. Qed.

Lemma run_listening_ok evs w :
  listeners w = 0%nat -> listening_ok (run evs w).
Proof.
  intros H0. induction evs as [|ev evs IH] using rev_ind.
  - intros Hl. simpl in Hl. lia.
  - rewrite run_events_snoc. by apply step_listening_ok.
Qed.

(** C5: after every operation of the store ([setTheme], [cycleTheme],
    [initializeTheme], and the preference-change listener once
    [initializeTheme] has installed it), in any history that starts with no
    listener installed, [resolvedTheme] is [theme] when [theme] is light or
    dark and is the system's preference (dark when the media query matches,
    light otherwise) when [theme] is auto. *)
Theorem theme_invariant (w0 : World) (evs : list Event) (ev : Event) :
  listeners w0 = 0%nat ->
  runs_store_code ev (run evs w0) = true ->
  consistent (step ev (run evs w0)).
Proof.
  intros H0 Hop. pose proof (run_listening_ok evs w0 H0) as Hok.
  destruct ev as [t| | | |d]; simpl in *.
  - apply setTheme_consistent.
  - apply cycleTheme_consistent.
  - apply initializeTheme_consistent.
  - discriminate.
  - apply andb_prop in Hop as [Hm Hn].
    apply bool_decide_eq_true_1 in Hm. apply bool_decide_eq_true_1 in Hn.
    apply preferenceChange_consistent; auto.
Qed.

(** A history for C5: a page that starts on the dark preset with a stale
    resolved value, initialises, switches to auto, and then sees the system
    turn dark. *)
Lemma theme_invariant_witness :
  let w0 := mkWorld Dark RLight None (Some false) 0 in
  let w := step (EvPreferenceChange true) (run [EvInitializeTheme; EvSetTheme Auto] w0) in
  consistent w /\ theme w = Auto /\ resolvedTheme w = RDark.
Proof.
  split; [|split; reflexivity].
  apply (theme_invariant (mkWorld Dark RLight None (Some false) 0)
           [EvInitializeTheme; EvSetTheme Auto] (EvPreferenceChange true));
    reflexivity.
Defined.

(** C6: [cycleTheme] moves the preference along light -> dark -> auto ->
    light, so three applications bring [theme] back to where it started. *)
Theorem cycleTheme_three (w : World) :
  theme (cycleTheme w) =
    match theme w with Light => Dark | Dark => Auto | Auto => Light end
  /\ theme (cycleTheme (cycleTheme (cycleTheme w))) = theme w.
Proof.
  split; [apply cycleTheme_theme|].
  rewrite !cycleTheme_theme. by destruct (theme w).
Qed.

Lemma applyTheme_dataTheme r w :
  dataTheme (applyTheme r w) = match r with RDark => Some "dark" | RLight => None end.
Proof.
  destruct r; unfold applyTheme; cbn [dataTheme];
    repeat (case_bool_decide; simplify_eq); try done.
Qed.

(** X2: after [setTheme], [cycleTheme], [initializeTheme] and a run of the
    listener in auto mode, the [data-theme] attribute is ["dark"] exactly
    when [resolvedTheme] is dark, and absent otherwise. *)
Theorem theme_attribute (w : World) (t : Theme) :
  attribute_matches (setTheme t w) /\
  attribute_matches (cycleTheme w) /\
  attribute_matches (initializeTheme w) /\
  (theme w = Auto -> attribute_matches (listener w)).
Proof.
  unfold attribute_matches. repeat split.
  - unfold setTheme, set_both. cbn [dataTheme resolvedTheme]. apply applyTheme_dataTheme.
  - unfold cycleTheme, set_both. cbn [dataTheme resolvedTheme]. apply applyTheme_dataTheme.
  - unfold initializeTheme, set_resolved, addListener. cbn [matchMedia].
    change (matchMedia (applyTheme ?r w)) with (matchMedia w).
    destruct (matchMedia w); cbn [dataTheme resolvedTheme]; apply applyTheme_dataTheme.
  - intros Ha. unfold listener. rewrite bool_decide_eq_true_2 by done.
    unfold set_resolved. cbn [dataTheme resolvedTheme]. apply applyTheme_dataTheme.
Qed.

(** The attribute after the listener ran in auto mode on a system that
    prefers dark. *)
Lemma theme_attribute_witness :
  dataTheme (listener (mkWorld Auto RLight None (Some true) 1)) = Some "dark".
Proof.
  exact (proj2 (proj2 (proj2
    (theme_attribute (mkWorld Auto RLight None (Some true) 1) Light))) eq_refl).
Defined.

Example rehydrate_stale_resolvedTheme :
  let w := onRehydrateStorage (Some Auto) (mkWorld Auto RDark None (Some false) 0) in
  dataTheme w = None /\ resolvedTheme w = RDark.
Proof. split; reflexivity. Qed.

(** X21: rehydration sets the [data-theme] attribute from the stored
    preference and the system as it is now, and writes nothing to the
    store: [resolvedTheme] stays as it was stored, so the attribute agrees
    with it exactly when the stored value is still the right one; a call
    of [initializeTheme] afterwards makes both agree again. *)
Theorem rehydrate_attribute (w : World) :
  let w' := onRehydrateStorage (Some (theme w)) w in
  theme w' = theme w /\ resolvedTheme w' = resolvedTheme w
  /\ dataTheme w' = match resolve (theme w) w with RDark => Some "dark"%string | RLight => None end
  /\ (attribute_matches w' <-> consistent w)
  /\ attribute_matches (initializeTheme w') /\ consistent (initializeTheme w')
  /\ onRehydrateStorage None w = w.
Proof.
  cbv zeta. unfold onRehydrateStorage.
  split; [done|]. split; [done|]. split; [apply applyTheme_dataTheme|].
  split; [|split; [|split; [|done]]].
  - unfold attribute_matches, consistent. rewrite applyTheme_dataTheme.
    change (resolvedTheme (applyTheme ?r w)) with (resolvedTheme w).
    unfold resolve, getSystemTheme.
    destruct (theme w), (resolvedTheme w), (matchMedia w) as [[|]|]; cbn;
      repeat case_bool_decide; naive_solver.
  - set (w' := applyTheme _ w).
    unfold attribute_matches, initializeTheme, set_resolved, addListener. cbn [matchMedia].
    change (matchMedia (applyTheme ?r w')) with (matchMedia w').
    destruct (matchMedia w'); cbn [dataTheme resolvedTheme]; apply applyTheme_dataTheme.
  - apply initializeTheme_consistent.
Qed.

End ThemeStore.

(* ===================================================================== *)
(** * Drawer scroll lock (src/components/ui/Drawer.tsx)                   *)
(* ===================================================================== *)

Module Drawer.

Definition DRAWER_LOCK_CLASS : string := "drawer-open".

(** The two elements whose [classList] the lock touches; each access in the
    source is guarded by [?.], so either may be missing. *)
Record Document : Type := mkDocument {
  body : option (gset string);
  documentElement : option (gset string);
}.

(** The module variable [activeDrawerCount] and the global [document]
    ([None] when [typeof document === 'undefined']). *)
Record Page : Type := mkPage {
  activeDrawerCount : Z;
  document : option Document;
}.

(** [el?.classList.add(c)] and [el?.classList.remove(c)]. *)
Definition classList_add (c : string) (el : option (gset string)) : option (gset string) :=
  (fun cl => cl ∪ {[c]}) <$> el.

Definition classList_remove (c : string) (el : option (gset string)) : option (gset string) :=
  (fun cl => cl ∖ {[c]}) <$> el.

Definition lockScroll (p : Page) : Page :=
  match document p with
  | None => p
  | Some d =>
      let d :=
        if activeDrawerCount p =? 0 then
          mkDocument (classList_add DRAWER_LOCK_CLASS (body d))
                     (classList_add DRAWER_LOCK_CLASS (documentElement d))
        else d in
      mkPage (activeDrawerCount p + 1) (Some d)
  end.

Definition unlockScroll (p : Page) : Page :=
  match document p with
  | None => p
  | Some d =>
      let count := Z.max 0 (activeDrawerCount p - 1) in
      let d :=
        if count =? 0 then
          mkDocument (classList_remove DRAWER_LOCK_CLASS (body d))
                     (classList_remove DRAWER_LOCK_CLASS (documentElement d))
        else d in
      mkPage count (Some d)
  end.

Inductive Call : Type := Lock | Unlock.

Definition call (c : Call) (p : Page) : Page :=
  match c with
  | Lock => lockScroll p
  | Unlock => unlockScroll p
  end.

Definition run (calls : list Call) (p : Page) : Page :=
  foldl (fun p c => call c p) p calls.

(** The lock class is on an element (an element that does not exist carries
    no class). *)
Definition hasLock (el : option (gset string)) : bool :=
  match el with
  | Some cl => bool_decide (DRAWER_LOCK_CLASS ∈ cl)
  | None => false
  end.

(** The elements of the page's document that exist. *)
Definition elements (p : Page) : list (gset string) :=
  match document p with
  | None => []
  | Some d => omap id [body d; documentElement d]
  end.

(** The class is on every existing element exactly when the counter is
    positive, and the counter is not negative. *)
Definition lock_ok (p : Page) : Prop :=
  0 <= activeDrawerCount p /\
  Forall (fun cl => DRAWER_LOCK_CLASS ∈ cl <-> 0 < activeDrawerCount p) (elements p).

(** The page as the module is loaded: no lock taken, the class nowhere. *)
Definition initial (p : Page) : Prop :=
  activeDrawerCount p = 0 /\ Forall (fun cl => DRAWER_LOCK_CLASS ∉ cl) (elements p).

(** What a call did to the class on the [i]-th existing element. *)
Definition added (i : nat) (p p' : Page) : Prop :=
  exists cl cl', elements p !! i = Some cl /\ elements p' !! i = Some cl' /\
    (DRAWER_LOCK_CLASS ∉ cl) /\ (DRAWER_LOCK_CLASS ∈ cl').

Definition removed (i : nat) (p p' : Page) : Prop :=
  exists cl cl', elements p !! i = Some cl /\ elements p' !! i = Some cl' /\
    (DRAWER_LOCK_CLASS ∈ cl) /\ (DRAWER_LOCK_CLASS ∉ cl').

(** Calls in which every unlock releases a lock taken before it, as the
    effect of the component issues them: [held] counts the locks that are
    still to be released. *)
Fixpoint paired (held : nat) (calls : list Call) : bool :=
  match calls with
  | [] => true
  | Lock :: calls' => paired (S held) calls'
  | Unlock :: calls' =>
      match held with
      | O => false
      | S held' => paired held' calls'
      end
  end.

(** Locks taken minus locks released. *)
Definition balance (calls : list Call) : Z :=
  foldl (fun n c => match c with Lock => n + 1 | Unlock => n - 1 end) 0 calls.

(** ** Properties *)

Example nested_drawers_count :
  activeDrawerCount (run [Lock; Lock; Unlock] (mkPage 0 (Some (mkDocument (Some ∅) (Some ∅)))))
    = 1.
Proof. reflexivity. Qed.

Example unlock_without_lock :
  activeDrawerCount (unlockScroll (mkPage 0 (Some (mkDocument (Some ∅) (Some ∅))))) = 0.
Proof. reflexivity. Qed.

Example no_document_no_count : lockScroll (mkPage 0 None) = mkPage 0 None.
Proof. reflexivity. Qed.

Lemma elements_lockScroll p :
  elements (lockScroll p) =
    if activeDrawerCount p =? 0
    then (fun cl => cl ∪ {[DRAWER_LOCK_CLASS]}) <$> elements p
    else elements p.
Proof.
  unfold lockScroll, elements.
  destruct (document p) as [[b e]|] eqn:Hd; simpl.
  - destruct (activeDrawerCount p =? 0); simpl; [|done]. by destruct b, e.
  - rewrite Hd. by destruct (activeDrawerCount p =? 0).
Qed.

Lemma elements_unlockScroll p :
  elements (unlockScroll p) =
    if Z.max 0 (activeDrawerCount p - 1) =? 0
    then (fun cl => cl ∖ {[DRAWER_LOCK_CLASS]}) <$> elements p
    else elements p.
Proof.
  unfold unlockScroll, elements.
  destruct (document p) as [[b e]|] eqn:Hd; simpl.
  - destruct (Z.max 0 (activeDrawerCount p - 1) =? 0); simpl; [|done].
    by destruct b, e.
  - rewrite Hd. by destruct (Z.max 0 (activeDrawerCount p - 1) =? 0).
Qed.

Lemma count_lockScroll p :
  activeDrawerCount (lockScroll p) =
    match document p with
    | Some _ => activeDrawerCount p + 1
    | None => activeDrawerCount p
    end.
Proof. unfold lockScroll. by destruct (document p). Qed.

Lemma count_unlockScroll p :
  activeDrawerCount (unlockScroll p) =
    match document p with
    | Some _ => Z.max 0 (activeDrawerCount p - 1)
    | None => activeDrawerCount p
    end.
Proof. unfold unlockScroll. by destruct (document p). Qed.

Lemma elements_no_document p : document p = None -> elements p = [].
Proof. unfold elements. by intros ->. Qed.

Lemma initial_lock_ok p : initial p -> lock_ok p.
Proof.
  intros [H0 Habs]. split; [lia|].
  eapply Forall_impl; [exact Habs|]. intros cl Hcl. simpl in *. split; [done|lia].
Qed.

Lemma call_lock_ok c p : lock_ok p -> lock_ok (call c p).
Proof.
  intros [Hc Hel]. destruct (document p) as [d|] eqn:Hd.
  2:{ destruct c; simpl; unfold lockScroll, unlockScroll; rewrite Hd; by split. }
  destruct c; simpl; split.
  - rewrite count_lockScroll, Hd. lia.
  - rewrite elements_lockScroll, count_lockScroll, Hd.
    destruct (activeDrawerCount p =? 0) eqn:E.
    + apply Forall_fmap, Forall_true. intros cl. simpl. split; [lia|set_solver].
    + apply Z.eqb_neq in E. eapply Forall_impl; [exact Hel|].
      intros cl Hcl; simpl in *. rewrite Hcl. lia.
  - rewrite count_unlockScroll, Hd. lia.
  - rewrite elements_unlockScroll, count_unlockScroll, Hd.
    destruct (Z.max 0 (activeDrawerCount p - 1) =? 0) eqn:E.
    + apply Z.eqb_eq in E. rewrite E.
      apply Forall_fmap, Forall_true. intros cl. simpl. split; [|lia].
      rewrite elem_of_difference, elem_of_singleton. tauto.
    + apply Z.eqb_neq in E. eapply Forall_impl; [exact Hel|].
      intros cl Hcl; simpl in *. rewrite Hcl. lia.
Qed.

Lemma run_calls_snoc calls c p : run (calls ++ [c]) p = call c (run calls p).
Proof. unfold run. by rewrite foldl_app. Qed.

Lemma run_lock_ok calls p : lock_ok p -> lock_ok (run calls p).
Proof.
  intros Hp. induction calls as [|c calls IH] using rev_ind; [done|].
  rewrite run_calls_snoc. by apply call_lock_ok.
Qed.

Lemma length_elements_call c p : length (elements (call c p)) = length (elements p).
Proof.
  destruct c; simpl.
  - rewrite elements_lockScroll. destruct (_ =? _); by rewrite ?length_fmap.
  - rewrite elements_unlockScroll. destruct (_ =? _); by rewrite ?length_fmap.
Qed.

Lemma lock_ok_lookup p i cl :
  lock_ok p -> elements p !! i = Some cl ->
  DRAWER_LOCK_CLASS ∈ cl <-> 0 < activeDrawerCount p.
Proof.
  intros [_ Hel] Hi. rewrite Forall_lookup in Hel. exact (Hel i cl Hi).
Qed.

Lemma elements_is_Some p i : is_Some (elements p !! i) -> is_Some (document p).
Proof.
  unfold elements. destruct (document p); [by eauto|]. by intros [? ?].
Qed.

Lemma added_iff c p i :
  lock_ok p -> is_Some (elements p !! i) ->
  added i p (call c p) <->
    c = Lock /\ activeDrawerCount p = 0 /\ activeDrawerCount (call c p) = 1.
Proof.
  intros Hp [cl Hcl].
  assert (Hp' := call_lock_ok c p Hp).
  destruct (elements_is_Some p i (ex_intro _ cl Hcl)) as [d Hd].
  assert (is_Some (elements (call c p) !! i)) as [cl' Hcl'].
  { apply lookup_lt_is_Some. rewrite length_elements_call.
    by eapply lookup_lt_Some. }
  pose proof (lock_ok_lookup p i cl Hp Hcl) as H1.
  pose proof (lock_ok_lookup _ i cl' Hp' Hcl') as H2.
  destruct Hp as [Hc _].
  split.
  - intros (x & x' & Hx & Hx' & Hn & Hy). simplify_eq.
    rewrite H1 in Hn. rewrite H2 in Hy.
    pose proof (count_lockScroll p) as El. pose proof (count_unlockScroll p) as Eu.
    rewrite Hd in El, Eu.
    destruct c; simpl in *; [split; [done|lia] | exfalso; lia].
  - intros (-> & H0 & H1'). exists cl, cl'. repeat split; try done.
    + rewrite H1. lia.
    + rewrite H2. simpl in *. lia.
Qed.

Lemma removed_iff c p i :
  lock_ok p -> is_Some (elements p !! i) ->
  removed i p (call c p) <->
    c = Unlock /\ activeDrawerCount p = 1 /\ activeDrawerCount (call c p) = 0.
Proof.
  intros Hp [cl Hcl].
  assert (Hp' := call_lock_ok c p Hp).
  destruct (elements_is_Some p i (ex_intro _ cl Hcl)) as [d Hd].
  assert (is_Some (elements (call c p) !! i)) as [cl' Hcl'].
  { apply lookup_lt_is_Some. rewrite length_elements_call.
    by eapply lookup_lt_Some. }
  pose proof (lock_ok_lookup p i cl Hp Hcl) as H1.
  pose proof (lock_ok_lookup _ i cl' Hp' Hcl') as H2.
  destruct Hp as [Hc _].
  split.
  - intros (x & x' & Hx & Hx' & Hy & Hn). simplify_eq.
    rewrite H1 in Hy. rewrite H2 in Hn.
    pose proof (count_lockScroll p) as El. pose proof (count_unlockScroll p) as Eu.
    rewrite Hd in El, Eu.
    destruct c; simpl in *; [exfalso; lia | split; [done|lia]].
  - intros (-> & H0 & H1'). exists cl, cl'. repeat split; try done.
    + rewrite H1. lia.
    + rewrite H2. simpl in *. lia.
Qed.

Lemma document_call c p : is_Some (document p) -> is_Some (document (call c p)).
Proof.
  intros [d Hd]. destruct c; simpl; unfold lockScroll, unlockScroll; rewrite Hd; by eauto.
Qed.

Lemma balance_cons c calls :
  balance (c :: calls) = match c with Lock => 1 | Unlock => -1 end + balance calls.
Proof.
  unfold balance. simpl.
  assert (H : ∀ a, foldl (fun n c => match c with Lock => n + 1 | Unlock => n - 1 end) a calls
              = a + foldl (fun n c => match c with Lock => n + 1 | Unlock => n - 1 end) 0 calls).
  { induction calls as [|x calls IH]; intros a; simpl; [lia|].
    rewrite (IH (match x with Lock => a + 1 | Unlock => a - 1 end)).
    rewrite (IH (match x with Lock => 0 + 1 | Unlock => 0 - 1 end)).
    destruct x; lia. }
  destruct c; rewrite (H (_ : Z)); lia.
Qed.

Lemma paired_count calls : forall held p,
  is_Some (document p) -> activeDrawerCount p = Z.of_nat held ->
  paired held calls = true ->
  activeDrawerCount (run calls p) = Z.of_nat held + balance calls.
Proof.
  induction calls as [|c calls IH]; intros held p Hd Hc Hp.
  - unfold balance. simpl. lia.
  - rewrite balance_cons. change (run (c :: calls) p) with (run calls (call c p)).
    destruct Hd as [d Hd]. destruct c; simpl in Hp.
    + rewrite (IH (S held)); [lia | apply (document_call Lock); by eauto | | done].
      simpl. rewrite count_lockScroll, Hd. lia.
    + destruct held as [|held]; [done|].
      rewrite (IH held); [lia | apply (document_call Unlock); by eauto | | done].
      simpl. rewrite count_unlockScroll, Hd. lia.
Qed.

(** C10: starting from [activeDrawerCount = 0] with the lock class absent,
    after any sequence of [lockScroll] and [unlockScroll] calls the counter
    is not negative and the class is on the document exactly when the
    counter is positive; a call adds the class exactly when it is a lock
    taking the counter from 0 to 1 and removes it exactly when it is an
    unlock taking it from 1 to 0; and when every unlock releases an earlier
    lock, the counter is the number of locks still held. *)
Theorem scroll_lock_counter (p0 : Page) (calls : list Call) (c : Call) :
  initial p0 ->
  let p := run calls p0 in
  let p' := call c p in
  0 <= activeDrawerCount p' /\
  Forall (fun cl => DRAWER_LOCK_CLASS ∈ cl <-> 0 < activeDrawerCount p') (elements p') /\
  (forall i, is_Some (elements p !! i) ->
     (added i p p' <->
        c = Lock /\ activeDrawerCount p = 0 /\ activeDrawerCount p' = 1) /\
     (removed i p p' <->
        c = Unlock /\ activeDrawerCount p = 1 /\ activeDrawerCount p' = 0)) /\
  (is_Some (document p0) -> paired 0 (calls ++ [c]) = true ->
     activeDrawerCount p' = balance (calls ++ [c])).
Proof.
  intros Hinit p p'.
  assert (Hp : lock_ok p) by (apply run_lock_ok, initial_lock_ok, Hinit).
  destruct (call_lock_ok c p Hp) as [Hc' Hel'].
  split; [exact Hc'|]. split; [exact Hel'|]. split.
  - intros i Hi. split; [by apply added_iff | by apply removed_iff].
  - intros Hd Hpair. subst p' p. rewrite <- run_calls_snoc.
    destruct Hinit as [H0 _].
    rewrite (paired_count (calls ++ [c]) 0 p0 Hd); [lia | by rewrite H0 | done].
Qed.

(** Two nested drawers for C10: the second lock and the first unlock leave
    the class in place; the last unlock removes it. *)
Lemma scroll_lock_counter_witness :
  let p0 := mkPage 0 (Some (mkDocument (Some ∅) (Some {["app"%string]}))) in
  let p := run [Lock; Lock; Unlock] p0 in
  activeDrawerCount p = 1 /\
  Forall (fun cl => DRAWER_LOCK_CLASS ∈ cl) (elements p) /\
  removed 0 p (call Unlock p) /\
  activeDrawerCount (call Unlock p) = 0.
Proof.
  assert (Hinit : initial (mkPage 0 (Some (mkDocument (Some ∅) (Some {["app"%string]}))))).
  { split; [reflexivity|]. repeat constructor; set_solver. }
  destruct (scroll_lock_counter _ [Lock; Lock] Unlock Hinit) as (_ & Hon & _ & _).
  destruct (scroll_lock_counter _ [Lock; Lock; Unlock] Unlock Hinit)
    as (_ & _ & Htr & Hbal).
  split; [reflexivity|]. split.
  - eapply Forall_impl; [exact Hon|]. intros cl Hcl. apply Hcl. reflexivity.
  - split.
    + apply (Htr 0%nat); [by eexists|]. repeat split; reflexivity.
    + rewrite Hbal; [reflexivity | by eexists | reflexivity].
Defined.

End Drawer.

(* ===================================================================== *)
(** * Drawer: opening, closing and the close timeout
      (src/components/ui/Drawer.tsx)                                      *)
(* ===================================================================== *)

Module DrawerClose.

(** The microtask an effect run has queued: [setIsVisible(true);
    setIsClosing(false)] or [startClose(false)]. *)
Inductive Microtask : Type := ShowTask | CloseTask.

(** One drawer: the prop [open] of its last render, its two state
    variables and [closeTimerRef.current], together with what the browser
    holds for it: the pending timeouts (handle and the [notifyParent] of
    the callback), the next handle [window.setTimeout] returns, the queued
    microtask whose [cancelled] flag is not set, whether the [keydown]
    listener is registered, and the calls of the parent's [onClose] so
    far. *)
Record State : Type := mkState {
  open : bool;
  isVisible : bool;
  isClosing : bool;
  closeTimerRef : option nat;
  timeouts : list (nat * bool);
  nextHandle : nat;
  microtask : option Microtask;
  keydownListener : bool;
  onCloseCalls : nat;
  mounted : bool;
}.

(** The drawer as it is mounted with the prop [open]. *)
Definition mount (o : bool) : State :=
  mkState o false false None [] 1 None false 0 true.

Definition startClose (notifyParent : bool) (c : State) : State :=
  match closeTimerRef c with
  | Some _ => c
  | None =>
      let h := nextHandle c in
      mkState (open c) (isVisible c) true (Some h) (timeouts c ++ [(h, notifyParent)])
              (S h) (microtask c) (keydownListener c) (onCloseCalls c) (mounted c)
  end.

(** The callback of the timeout. *)
Definition closeCallback (notifyParent : bool) (c : State) : State :=
  mkState (open c) false false None (timeouts c) (nextHandle c) (microtask c)
          (keydownListener c)
          (if notifyParent then S (onCloseCalls c) else onCloseCalls c) (mounted c).

Definition clearTimeout (h : nat) (c : State) : State :=
  mkState (open c) (isVisible c) (isClosing c) (closeTimerRef c)
          (filter (fun t => t.1 <> h) (timeouts c))
          (nextHandle c) (microtask c) (keydownListener c) (onCloseCalls c) (mounted c).

Definition setRef (r : option nat) (c : State) : State :=
  mkState (open c) (isVisible c) (isClosing c) r (timeouts c)
          (nextHandle c) (microtask c) (keydownListener c) (onCloseCalls c) (mounted c).

Definition queueMicrotask (m : option Microtask) (c : State) : State :=
  mkState (open c) (isVisible c) (isClosing c) (closeTimerRef c) (timeouts c)
          (nextHandle c) m (keydownListener c) (onCloseCalls c) (mounted c).

(** A run of the effect on [open, isVisible, startClose]: the clean-up of
    the run before sets its [cancelled], then the body. *)
Definition visibilityEffect (c : State) : State :=
  let c := queueMicrotask None c in
  if open c then
    let c :=
      match closeTimerRef c with
      | Some h => setRef None (clearTimeout h c)
      | None => c
      end in
    queueMicrotask (Some ShowTask) c
  else if isVisible c then queueMicrotask (Some CloseTask) c
  else c.

Definition runMicrotask (c : State) : State :=
  match microtask c with
  | Some ShowTask =>
      mkState (open c) true false (closeTimerRef c) (timeouts c) (nextHandle c) None
              (keydownListener c) (onCloseCalls c) (mounted c)
  | Some CloseTask => startClose false (queueMicrotask None c)
  | None => c
  end.

Definition handleClose (c : State) : State := startClose true c.

(** A run of the effect that registers the Escape key's listener while
    [open]. *)
Definition keydownEffect (c : State) : State :=
  mkState (open c) (isVisible c) (isClosing c) (closeTimerRef c) (timeouts c)
          (nextHandle c) (microtask c) (open c) (onCloseCalls c) (mounted c).

Definition handleKeyDown (key : string) (c : State) : State :=
  if bool_decide (key = "Escape") then handleClose c else c.

(** The component renders nothing when [!open && !isVisible]. *)
Definition rendered (c : State) : bool := mounted c && (open c || isVisible c).

(** Where a click lands: the overlay, the close button, or the panel,
    which stops the click from reaching the overlay. *)
Inductive Target : Type := Overlay | CloseButton | Panel.

Definition onClick (t : Target) (c : State) : State :=
  match t with
  | Overlay | CloseButton => handleClose c
  | Panel => c
  end.

(** The clean-ups at unmount: the effect's [cancelled], the pending
    timeout, the key listener. *)
Definition unmount (c : State) : State :=
  let c := queueMicrotask None c in
  let c := match closeTimerRef c with Some h => clearTimeout h c | None => c end in
  mkState (open c) (isVisible c) (isClosing c) (closeTimerRef c) (timeouts c)
          (nextHandle c) (microtask c) false (onCloseCalls c) false.

(** What happens to a drawer.  React runs an effect after a render that
    changed one of its dependencies and the browser runs microtasks and
    timeouts when they are due: when that is, is left open here, so that
    every order in which the browser can run them is a list of events. *)
Inductive Event : Type :=
| Render (o : bool)
| VisibilityEffect
| KeydownEffect
| RunMicrotask
| Click (t : Target)
| KeyDown (key : string)
| Timeout (h : nat)
| Unmount.

Definition setOpen (o : bool) (c : State) : State :=
  mkState o (isVisible c) (isClosing c) (closeTimerRef c) (timeouts c)
          (nextHandle c) (microtask c) (keydownListener c) (onCloseCalls c) (mounted c).

Definition step (ev : Event) (c : State) : State :=
  match ev with
  | Render o => if mounted c then setOpen o c else c
  | VisibilityEffect => if mounted c then visibilityEffect c else c
  | KeydownEffect => if mounted c then keydownEffect c else c
  | RunMicrotask => runMicrotask c
  | Click t => if rendered c then onClick t c else c
  | KeyDown key => if keydownListener c then handleKeyDown key c else c
  | Timeout h =>
      match list_find (fun t => t.1 = h) (timeouts c) with
      | Some (_, (_, notifyParent)) => closeCallback notifyParent (clearTimeout h c)
      | None => c
      end
  | Unmount => if mounted c then unmount c else c
  end.

Definition run (evs : list Event) (c : State) : State :=
  foldl (fun c ev => step ev c) c evs.

(** The user asks to close: a click on the overlay or the close button,
    or the Escape key. *)
Definition closeRequest (ev : Event) : bool :=
  match ev with
  | Click Overlay | Click CloseButton => true
  | KeyDown key => bool_decide (key = "Escape")
  | _ => false
  end.

Definition closeRequests (evs : list Event) : nat :=
  length (filter (fun ev => closeRequest ev = true) evs).

(** Pending timeouts that will notify the parent. *)
Definition pendingNotify (c : State) : nat :=
  length (filter (fun t => t.2 = true) (timeouts c)).

(** At most one timeout is pending, and it is the one the ref holds. *)
Definition timer_ok (c : State) : Prop :=
  match closeTimerRef c with
  | None => timeouts c = []
  | Some h => (timeouts c = [] /\ mounted c = false) \/ exists b, timeouts c = [(h, b)]
  end.

(** The invariant of a drawer after [n] requests to close: the timeouts
    are in order, and the calls of [onClose] made and still to come are no
    more than the requests. *)
Definition inv (n : nat) (c : State) : Prop :=
  timer_ok c /\ (onCloseCalls c + pendingNotify c <= n)%nat.

(** Nothing is left to run for an unmounted drawer. *)
Definition gone (c : State) : Prop :=
  mounted c = false -> timeouts c = [] /\ microtask c = None /\ keydownListener c = false.

(** ** Properties *)

Example close_click :
  let c := run [VisibilityEffect; RunMicrotask; Click CloseButton; Timeout 1] (mount true) in
  isVisible c = false /\ onCloseCalls c = 1%nat /\ timeouts c = [].
Proof. repeat split; reflexivity. Qed.

Example parent_closes :
  let c := run [VisibilityEffect; RunMicrotask; Render false; VisibilityEffect;
                RunMicrotask; Click Overlay; Timeout 1] (mount true) in
  isVisible c = false /\ onCloseCalls c = 0%nat /\ timeouts c = [].
Proof. repeat split; reflexivity. Qed.

Lemma inv_cases n c :
  inv n c ->
  (closeTimerRef c = None /\ timeouts c = [] /\ (onCloseCalls c <= n)%nat)
  \/ (exists h, closeTimerRef c = Some h /\ timeouts c = [] /\ mounted c = false
               /\ (onCloseCalls c <= n)%nat)
  \/ (exists h, closeTimerRef c = Some h /\ timeouts c = [(h, true)]
               /\ (S (onCloseCalls c) <= n)%nat)
  \/ (exists h, closeTimerRef c = Some h /\ timeouts c = [(h, false)]
               /\ (onCloseCalls c <= n)%nat).
Proof.
  unfold inv, timer_ok, pendingNotify. intros [Hok Hn].
  destruct (closeTimerRef c) as [h|].
  - right. destruct Hok as [[Ht Hm] | [[|] Ht]]; rewrite Ht in Hn; cbn in Hn.
    + left. exists h. repeat split; try done. lia.
    + right. left. exists h. rewrite decide_True in Hn by done. cbn in Hn.
      repeat split; try done. lia.
    + right. right. exists h. rewrite decide_False in Hn by done. cbn in Hn.
      repeat split; try done. lia.
  - left. rewrite Hok in Hn. cbn in Hn. repeat split; try done. lia.
Qed.

Lemma step_inv ev c n :
  inv n c -> inv (if closeRequest ev then S n else n) (step ev c).
Proof.
  intros Hinv. apply inv_cases in Hinv.
  destruct c as [o v cl ref ts nh mt kl calls m]. cbn in Hinv.
  unfold inv, timer_ok, pendingNotify.
  destruct Hinv as [(-> & -> & Hn) | [(h & -> & -> & -> & Hn) | [(h & -> & -> & Hn)
                   | (h & -> & -> & Hn)]]].
  all: destruct ev as [o'| | | |t|key|h'|];
    unfold step, visibilityEffect, keydownEffect, runMicrotask, onClick, handleKeyDown,
      handleClose, startClose, closeCallback, clearTimeout, setRef, queueMicrotask,
      unmount, setOpen, rendered; cbn.
  all: repeat first [ progress cbn | case_match | case_decide | progress simplify_eq/= ].
  all: try (split; [first [done | by left | by (right; eexists)]|lia]).
Qed.

Lemma run_drawer_snoc evs ev c : run (evs ++ [ev]) c = step ev (run evs c).
Proof. unfold run. by rewrite foldl_app. Qed.

Lemma closeRequests_snoc evs ev :
  closeRequests (evs ++ [ev])
  = (closeRequests evs + if closeRequest ev then 1 else 0)%nat.
Proof.
  unfold closeRequests. rewrite filter_app, length_app. f_equal.
  rewrite filter_cons, filter_nil. destruct (closeRequest ev); by case_decide.
Qed.

Lemma run_inv evs c n : inv n c -> inv (n + closeRequests evs) (run evs c).
Proof.
  intros Hc. induction evs as [|ev evs IH] using rev_ind.
  - by rewrite Nat.add_0_r.
  - rewrite run_drawer_snoc, closeRequests_snoc.
    apply (step_inv ev) in IH.
    destruct (closeRequest ev); [by rewrite Nat.add_1_r, Nat.add_succ_r|].
    by rewrite Nat.add_0_r.
Qed.

Lemma step_gone ev c n : inv n c -> gone c -> gone (step ev c).
Proof.
  intros Hinv Hg. apply inv_cases in Hinv. unfold gone in *.
  destruct c as [o v cl ref ts nh mt kl calls m]. cbn in *.
  destruct m.
  - clear Hg.
    destruct Hinv as [(-> & -> & Hn) | [(h & -> & -> & ? & Hn) | [(h & -> & -> & Hn)
                     | (h & -> & -> & Hn)]]]; [|done| |].
    all: destruct ev as [o'| | | |t|key|h'|];
      unfold step, visibilityEffect, keydownEffect, runMicrotask, onClick, handleKeyDown,
        handleClose, startClose, closeCallback, clearTimeout, setRef, queueMicrotask,
        unmount, setOpen, rendered; cbn;
      repeat first [ progress cbn | case_match | case_decide | progress simplify_eq/= ];
      done.
  - destruct (Hg eq_refl) as (-> & -> & ->).
    destruct ev as [o'| | | |t|key|h'|]; cbn; done.
Qed.

(** An unmounted drawer does not change any more. *)
Lemma step_unmounted ev c : mounted c = false -> gone c -> step ev c = c.
Proof.
  intros Hm Hg. destruct (Hg Hm) as (Ht & Hmt & Hk).
  destruct c as [o v cl ref ts nh mt kl calls m]. cbn in *. subst.
  destruct ev as [o'| | | |t|key|h'|]; cbn; done.
Qed.

Lemma run_unmounted evs c : mounted c = false -> gone c -> run evs c = c.
Proof.
  intros Hm Hg. induction evs as [|ev evs IH] using rev_ind; [done|].
  rewrite run_drawer_snoc, IH. by apply step_unmounted.
Qed.

Lemma run_gone evs c n : inv n c -> gone c -> gone (run evs c).
Proof.
  intros Hinv Hg. induction evs as [|ev evs IH] using rev_ind; [done|].
  rewrite run_drawer_snoc. eapply step_gone; [|done]. by apply run_inv.
Qed.

Lemma mount_inv o : inv 0 (mount o) /\ gone (mount o).
Proof. repeat split; done. Qed.

Lemma step_Unmount_mounted c : mounted (step Unmount c) = false.
Proof. cbn. destruct (mounted c) eqn:Hm; [|done]. unfold unmount. by repeat case_match. Qed.

(** X19: whatever happens to a drawer, and in whatever order the browser
    runs its effects, microtasks and timeouts: the parent's [onClose] is
    called no more often than the user asked to close (so never for a
    drawer that only its parent closes), at most one close timeout is
    pending, and it is the one [closeTimerRef] holds; once the drawer is
    unmounted no timeout, microtask or key listener of it is left, and
    nothing that happens changes it or calls [onClose]. *)
Theorem onClose_only_on_request (o : bool) (evs later : list Event) :
  let c := run evs (mount o) in
  (onCloseCalls c + pendingNotify c <= closeRequests evs)%nat
  /\ timer_ok c /\ (length (timeouts c) <= 1)%nat
  /\ run later (run (evs ++ [Unmount]) (mount o)) = run (evs ++ [Unmount]) (mount o)
  /\ timeouts (run (evs ++ [Unmount]) (mount o)) = []
  /\ microtask (run (evs ++ [Unmount]) (mount o)) = None
  /\ keydownListener (run (evs ++ [Unmount]) (mount o)) = false.
Proof.
  destruct (mount_inv o) as [Hinv Hg].
  pose proof (run_inv evs _ _ Hinv) as [Hok Hn]. cbv zeta.
  split; [done|]. split; [done|]. split.
  { unfold timer_ok in Hok. destruct (closeTimerRef _).
    - destruct Hok as [[-> _] | [b ->]]; cbn; lia.
    - rewrite Hok. cbn; lia. }
  assert (mounted (run (evs ++ [Unmount]) (mount o)) = false) as Hm
    by (rewrite run_drawer_snoc; apply step_Unmount_mounted).
  assert (gone (run (evs ++ [Unmount]) (mount o))) as Hgone by (by eapply run_gone).
  split; [by apply run_unmounted|]. exact (Hgone Hm).
Qed.





End DrawerClose.

(* ===================================================================== *)
(** * Activity heatmap (src/components/analytics/ActivityHeatmap.tsx)     *)
(* ===================================================================== *)

Module ActivityHeatmap.

(** Modelled from the spec: the record [ActivityHeatmapDay] of
    '@/services/api/usageRecords' is not among the sources; these are the
    three fields the component reads and writes ("activity-heatmap day
    records"). *)
Record ActivityHeatmapDay : Type := mkDay {
  date : string;
  requests : Z;
  total_tokens : Z;
}.

#[global] Instance ActivityHeatmapDay_eq_dec : EqDecision ActivityHeatmapDay.
Proof. solve_decision. Defined.

(** ** The platform's [Date], as far as the component uses it

    [new Date(s)] for a date [s = "YYYY-MM-DD"] (and for
    [s + "T00:00:00Z"]) is midnight UTC of that day.  The model reads
    exactly that format and takes anything else, and a day that the month
    does not have, to be an Invalid Date, whose getters return NaN ([None]
    here). *)

Definition digit (c : ascii) : option Z :=
  let n := Z.of_nat (nat_of_ascii c) in
  if (48 <=? n) && (n <=? 57) then Some (n - 48) else None.

Definition isLeapYear (y : Z) : bool :=
  (y mod 4 =? 0) && (negb (y mod 100 =? 0) || (y mod 400 =? 0)).

Definition daysInMonth (y m : Z) : Z :=
  if m =? 2 then (if isLeapYear y then 29 else 28)
  else if (m =? 4) || (m =? 6) || (m =? 9) || (m =? 11) then 30
  else 31.

(** Year, month (1..12) and day of a well-formed date. *)
Definition parseDate (s : string) : option (Z * Z * Z) :=
  match list_ascii_of_string s with
  | [y1; y2; y3; y4; s1; m1; m2; s2; d1; d2] =>
      y1 ← digit y1; y2 ← digit y2; y3 ← digit y3; y4 ← digit y4;
      m1 ← digit m1; m2 ← digit m2; d1 ← digit d1; d2 ← digit d2;
      let y := 1000 * y1 + 100 * y2 + 10 * y3 + y4 in
      let m := 10 * m1 + m2 in
      let d := 10 * d1 + d2 in
      if Ascii.eqb s1 "-" && Ascii.eqb s2 "-"
         && (1 <=? m) && (m <=? 12) && (1 <=? d) && (d <=? daysInMonth y m)
      then Some (y, m, d) else None
  | _ => None
  end.

(** Days from 1970-01-01 to the given day of the proleptic Gregorian
    calendar. *)
Definition daysFromCivil (y m d : Z) : Z :=
  let y := if m <=? 2 then y - 1 else y in
  let era := y / 400 in
  let yoe := y - era * 400 in
  let mp := (m + 9) mod 12 in
  let doy := (153 * mp + 2) / 5 + d - 1 in
  let doe := yoe * 365 + yoe / 4 - yoe / 100 + doy in
  era * 146097 + doe - 719468.

(** The day number of [new Date(s)]: its time value divided by 86400000. *)
Definition epochDay (s : string) : option Z :=
  '(y, m, d) ← parseDate s; Some (daysFromCivil y m d).

(** [getUTCDay()]: 0 is Sunday; 1970-01-01 was a Thursday. *)
Definition getUTCDay (s : string) : option Z :=
  n ← epochDay s; Some ((n + 4) mod 7).

(** [getUTCMonth()]: 0 is January. *)
Definition getUTCMonth (s : string) : option Z :=
  '(y, m, d) ← parseDate s; Some (m - 1).

(** ** The component *)

Definition MONTHS : list string :=
  ["1月"; "2月"; "3月"; "4月"; "5月"; "6月"; "7月"; "8月"; "9月"; "10月"; "11月"; "12月"]%string.

Definition placeholder : ActivityHeatmapDay :=
  {| date := EmptyString; requests := -1; total_tokens := 0 |}.

(** [MONTHS[month]]; [None] is [undefined]. *)
Record MonthLabel : Type := mkLabel {
  month : option string;
  colStart : nat;
}.

(** The variables of the [useMemo] callback.  [currentMonth] is a number
    that may be NaN ([None]). *)
Record Bucketing : Type := mkBucketing {
  weeks : list (list ActivityHeatmapDay);
  monthLabels : list MonthLabel;
  currentWeek : list ActivityHeatmapDay;
  currentMonth : option Z;
}.

(** [a !== b] on numbers: NaN differs from everything, itself included. *)
Definition number_ne (a b : option Z) : bool :=
  match a, b with
  | Some x, Some y => negb (x =? y)
  | _, _ => true
  end.

(** [a === n] for a number [a] and an integer literal [n]. *)
Definition number_is (a : option Z) (n : Z) : bool :=
  match a with
  | Some x => x =? n
  | None => false
  end.

Section Bucket.

(** The two getters the callback calls on [new Date(...)] of a record's
    date: day of the week and month. *)
Variable getDay : string -> option Z.
Variable getMonth : string -> option Z.

(** The body of [data.days.forEach]. *)
Definition forEachDay (st : Bucketing) (day : ActivityHeatmapDay) : Bucketing :=
  let month := getMonth (date day) in
  let dayOfWeek := getDay (date day) in
  let '(currentMonth, monthLabels) :=
    if number_ne month (currentMonth st) then
      (month,
       monthLabels st ++
         [{| month := m ← month; MONTHS !! Z.to_nat m;
             colStart := length (weeks st) |}])
    else (currentMonth st, monthLabels st) in
  let currentWeek := currentWeek st ++ [day] in
  if number_is dayOfWeek 6 then
    mkBucketing (weeks st ++ [currentWeek]) monthLabels [] currentMonth
  else
    mkBucketing (weeks st) monthLabels currentWeek currentMonth.

(** [for (let i = 0; i < startDayOfWeek; i++) currentWeek.push(...)]; the
    loop does not run when [startDayOfWeek] is NaN. *)
Definition padFront (startDayOfWeek : option Z) : list ActivityHeatmapDay :=
  match startDayOfWeek with
  | Some n => replicate (Z.to_nat n) placeholder
  | None => []
  end.

(** [while (currentWeek.length < 7) currentWeek.push(...)]. *)
Definition padBack (currentWeek : list ActivityHeatmapDay) : list ActivityHeatmapDay :=
  currentWeek ++ replicate (7 - length currentWeek) placeholder.

(** The [useMemo] callback on [data.days] (an empty list also stands for a
    missing [data] or [days]). *)
Definition bucket (days : list ActivityHeatmapDay)
  : list (list ActivityHeatmapDay) * list MonthLabel :=
  match days with
  | [] => ([], [])
  | first :: _ =>
      let startDayOfWeek := getDay (date first) in
      let st := mkBucketing [] [] (padFront startDayOfWeek) (Some (-1)) in
      let st := foldl forEachDay st days in
      if bool_decide (0 < length (currentWeek st))%nat
      then (weeks st ++ [padBack (currentWeek st)], monthLabels st)
      else (weeks st, monthLabels st)
  end.

End Bucket.

(** The weeks of src/components/analytics/ActivityHeatmap.tsx, which reads
    the UTC day and month of [date + "T00:00:00Z"]. *)
Definition heatmapWeeks (days : list ActivityHeatmapDay) : list (list ActivityHeatmapDay) :=
  (bucket getUTCDay getUTCMonth days).1.

(** ** The earlier revision (src/unnamed/part_004)

    It differs from the component above in the three [Date] expressions
    only: it builds [new Date(day.date)], which for a date-only text is
    still midnight UTC, and reads [getDay()] and [getMonth()], the weekday
    and month of that instant in the browser's local time.  [tzOffset] is
    [getTimezoneOffset()], the minutes from local time to UTC (positive
    west of Greenwich, within a day either way). *)

(** How many days the local calendar day is away from the UTC one at
    midnight UTC: 0 at and east of Greenwich, -1 west of it. *)
Definition localShift (tzOffset : Z) : Z := (- tzOffset) / 1440.

Definition getDay (tzOffset : Z) (s : string) : option Z :=
  n ← epochDay s; Some ((n + localShift tzOffset + 4) mod 7).

Definition getMonth (tzOffset : Z) (s : string) : option Z :=
  '(y, m, d) ← parseDate s;
  if localShift tzOffset =? 0 then Some (m - 1)
  else if (localShift tzOffset =? -1) && (d =? 1) then Some ((m + 10) mod 12)
  else Some (m - 1).

Definition legacyWeeks (tzOffset : Z) (days : list ActivityHeatmapDay)
  : list (list ActivityHeatmapDay) :=
  (bucket (getDay tzOffset) (getMonth tzOffset) days).1.

(** The records are consecutive calendar days, the first being day [d0]
    after 1970-01-01. *)
Definition consecutive (days : list ActivityHeatmapDay) (d0 : Z) : Prop :=
  forall i day, days !! i = Some day -> epochDay (date day) = Some (d0 + Z.of_nat i).

(** With [n] cells laid out, the finished weeks are full and the open week
    holds the [n mod 7] cells after them. *)
Definition laid_out (n : nat) (st : Bucketing) : Prop :=
  Forall (fun w => length w = 7%nat) (weeks st) /\
  length (currentWeek st) = (n mod 7)%nat.

(** ** Intensity levels, number format and cell size *)

(** [getIntensityLevel]; the thresholds are the doubles 0.25, 0.5 and
    0.75. *)
Definition getIntensityLevel (requests maxRequests : Z) : Z :=
  if requests =? 0 then 0
  else if maxRequests =? 0 then 0
  else
    let ratio := Number.div (Number.ofZ requests) (Number.ofZ maxRequests) in
    if Number.leb ratio (Number.dyadic 1 (-2)) then 1
    else if Number.leb ratio (Number.dyadic 1 (-1)) then 2
    else if Number.leb ratio (Number.dyadic 3 (-2)) then 3
    else 4.

(** [formatNumber] of an integer (a count of requests or of tokens).  The
    same function stands in RequestTimeline.tsx, in ModelStatsTable
    (src/unnamed/part_003) and in ProviderStatsTable (src/unnamed/part_005). *)
Definition formatNumber (num : Z) : string :=
  if 1000000 <=? num then
    Number.toFixed 1 (Number.div (Number.ofZ num) (Number.ofZ 1000000)) +:+ "M"
  else if 1000 <=? num then
    Number.toFixed 1 (Number.div (Number.ofZ num) (Number.ofZ 1000)) +:+ "K"
  else pretty num.

Definition MIN_CELL_SIZE : Z := 6.
Definition DEFAULT_CELL_SIZE : Z := 10.

(** [updateSizing]: what it passes to [setCellGap] and to [setCellSize].
    [width] is [el.clientWidth], [isSmall] whether the media query
    [(max-width: 640px)] matches, [colCount] is [weeks.length]. *)
Definition updateSizing (width : Z) (isSmall : bool) (colCount : Z) : Z * option Z :=
  let gap := if isSmall then 2 else 4 in
  if (colCount =? 0) || (width <=? 0) then (gap, Some DEFAULT_CELL_SIZE)
  else
    let reserved := 24 in
    let available := Z.max (width - reserved) 0 in
    let totalGap := Z.max (colCount - 1) 0 * gap in
    let raw := Number.div (Number.ofZ (available - totalGap)) (Number.ofZ colCount) in
    (gap, Number.Math_max MIN_CELL_SIZE (Number.Math_floor raw)).

(** ** Month labels

    The month of the record at position [i]. *)
Definition monthAt (days : list ActivityHeatmapDay) (i : nat) : option Z :=
  day ← days !! i; getUTCMonth (date day).

(** The positions at which a month begins in the list: the first record,
    and every record whose month is not the month of the record before. *)
Definition monthStarts (days : list ActivityHeatmapDay) : list nat :=
  filter (fun i => i = 0%nat \/ monthAt days (i - 1) <> monthAt days i)
         (seq 0 (length days)).

(** The label of the month that begins at position [i], with [s] cells of
    padding before the first record: it stands on the column of cell
    [s + i]. *)
Definition labelAt (days : list ActivityHeatmapDay) (s i : nat) : MonthLabel :=
  {| month := m ← monthAt days i; MONTHS !! Z.to_nat m;
     colStart := ((s + i) / 7)%nat |}.

(** The [data-level] of a cell of the grid. *)
Definition cellLevel (max_requests : Z) (day : ActivityHeatmapDay) : Z :=
  if requests day >=? 0 then getIntensityLevel (requests day) max_requests else 0.

(** [data.days.filter(d => d.requests > 0).length]. *)
Definition activeDays (days : list ActivityHeatmapDay) : nat :=
  length (filter (fun d => 0 < requests d) days).

(** ** Properties *)

Example epochDay_epoch : epochDay "1970-01-01" = Some 0.
Proof. reflexivity. Qed.

Example epochDay_leap_day : epochDay "2024-02-29" = Some 19782.
Proof. reflexivity. Qed.

Example epochDay_no_such_day : epochDay "2023-02-29" = None.
Proof. reflexivity. Qed.

Example getUTCDay_sunday : getUTCDay "2024-01-07" = Some 0.
Proof. reflexivity. Qed.

(** An Invalid Date takes no padding at the front and never ends a week. *)
Example heatmapWeeks_invalid_date :
  heatmapWeeks [mkDay "bad" 1 1] = [mkDay "bad" 1 1 :: replicate 6 placeholder].
Proof. reflexivity. Qed.

Example monthLabels_change :
  (bucket getUTCDay getUTCMonth [mkDay "2024-02-29" 1 1; mkDay "2024-03-01" 0 0]).2
    = [mkLabel (Some "2月") 0; mkLabel (Some "3月") 0].
Proof. reflexivity. Qed.

Section BucketFacts.

Variable getDay : string -> option Z.
Variable getMonth : string -> option Z.

(** Every record goes to the end of what has been laid out so far. *)
Lemma forEachDay_concat st day :
  concat (weeks (forEachDay getDay getMonth st day)) ++ currentWeek (forEachDay getDay getMonth st day) =
  concat (weeks st) ++ currentWeek st ++ [day].
Proof.
  unfold forEachDay.
  destruct (number_ne _ _); destruct (number_is _ 6); simpl;
    rewrite ?concat_app; simpl; by rewrite ?app_nil_r.
Qed.

Lemma foldl_forEachDay_concat days st :
  concat (weeks (foldl (forEachDay getDay getMonth) st days)) ++ currentWeek (foldl (forEachDay getDay getMonth) st days) =
  concat (weeks st) ++ currentWeek st ++ days.
Proof.
  revert st. induction days as [|day days IH]; intros st; simpl.
  - by rewrite app_nil_r.
  - rewrite IH, app_assoc, forEachDay_concat. by rewrite <- !app_assoc.
Qed.

Lemma mod7_succ (n : nat) :
  ((n mod 7 = 6 -> S n mod 7 = 0) /\ (n mod 7 <> 6 -> S n mod 7 = S (n mod 7)))%nat.
Proof.
  pose proof (Nat.mod_upper_bound n 7 ltac:(lia)) as Hlt.
  pose proof (Nat.div_mod_eq n 7) as Hn.
  pose proof (Nat.div_mod_eq (S n) 7) as HSn.
  pose proof (Nat.mod_upper_bound (S n) 7 ltac:(lia)) as HltS.
  lia.
Qed.

Lemma forEachDay_laid_out n st day :
  laid_out n st ->
  getDay (date day) = Some (Z.of_nat (n mod 7)) ->
  laid_out (S n) (forEachDay getDay getMonth st day).
Proof.
  intros [Hw Hc] Hd. unfold forEachDay, laid_out. rewrite Hd. unfold number_is.
  destruct (mod7_succ n) as [H6 Hn6].
  set (r := (n mod 7)%nat) in *. set (r' := (S n mod 7)%nat) in *.
  destruct (number_ne _ _);
    (destruct (Z.of_nat r =? 6) eqn:E6;
     [apply Z.eqb_eq in E6 | apply Z.eqb_neq in E6]);
    cbn [weeks currentWeek];
    rewrite ?Forall_app, ?Forall_singleton, ?length_app; cbn [length];
    repeat split; try done; lia.
Qed.

Lemma foldl_forEachDay_laid_out days : forall n st,
  laid_out n st ->
  (forall i day, days !! i = Some day ->
     getDay (date day) = Some (Z.of_nat ((n + i) mod 7))) ->
  laid_out (n + length days) (foldl (forEachDay getDay getMonth) st days).
Proof.
  induction days as [|day days IH]; intros n st Hst Hdays; simpl.
  - by rewrite Nat.add_0_r.
  - replace (n + S (length days))%nat with (S n + length days)%nat by lia.
    apply IH.
    + apply forEachDay_laid_out; [done|].
      specialize (Hdays 0%nat day eq_refl). by rewrite Nat.add_0_r in Hdays.
    + intros i d Hi. specialize (Hdays (S i) d Hi).
      by replace (S n + i)%nat with (n + S i)%nat by lia.
Qed.

End BucketFacts.

(** A cell of a grid of full weeks, by its position in the concatenation. *)
Lemma concat_weeks_lookup {A} (ws : list (list A)) (p : nat) :
  Forall (fun w => length w = 7%nat) ws ->
  concat ws !! p = ws !! (p / 7)%nat ≫= (.!! (p mod 7)%nat).
Proof.
  revert p. induction ws as [|w ws IH]; intros p Hall; [done|].
  apply Forall_cons in Hall as [Hw Hws]. rewrite concat_cons.
  destruct (decide (p < 7)%nat) as [Hlt|Hge].
  - rewrite lookup_app_l by lia.
    rewrite Nat.div_small, Nat.mod_small by lia. done.
  - rewrite lookup_app_r by lia. rewrite Hw, (IH _ Hws).
    assert (p / 7 = S ((p - 7) / 7) /\ p mod 7 = (p - 7) mod 7)%nat as [-> ->].
    { replace p with ((p - 7) + 1 * 7)%nat at 1 3 by lia.
      rewrite Nat.div_add, Nat.Div0.mod_add by lia. lia. }
    done.
Qed.

Lemma weekday_offset (d0 : Z) (i : nat) :
  (d0 + Z.of_nat i + 4) mod 7 =
  Z.of_nat ((Z.to_nat ((d0 + 4) mod 7) + i) mod 7).
Proof.
  pose proof (Z.mod_pos_bound (d0 + 4) 7 ltac:(lia)) as Hb.
  rewrite Nat2Z.inj_mod, Nat2Z.inj_add, Z2Nat.id by lia.
  change (Z.of_nat 7) with 7. rewrite Zplus_mod_idemp_l. f_equal. lia.
Qed.

Lemma consecutive_getUTCDay days d0 i day :
  consecutive days d0 -> days !! i = Some day ->
  getUTCDay (date day) = Some (Z.of_nat ((Z.to_nat ((d0 + 4) mod 7) + i) mod 7)).
Proof.
  intros Hc Hi. unfold getUTCDay. rewrite (Hc i day Hi). simpl.
  by rewrite weekday_offset.
Qed.

(** X23: in ActivityHeatmap.tsx, for a non-empty list of records on
    consecutive calendar days, every
    week of the heatmap has exactly 7 cells; the cells in order are
    [startDayOfWeek] placeholders, then the records in their input order,
    then fewer than 7 placeholders; and every record sits in the week
    column of its own weekday (0 is Sunday), so a week ends with each
    Saturday. *)
Theorem heatmapWeeks_calendar (days : list ActivityHeatmapDay) (d0 : Z) :
  days <> [] ->
  consecutive days d0 ->
  let ws := heatmapWeeks days in
  let s := Z.to_nat ((d0 + 4) mod 7) in
  (s < 7)%nat /\
  (getUTCDay <$> (date <$> head days)) = Some (Some (Z.of_nat s)) /\
  Forall (fun w => length w = 7%nat) ws /\
  (exists k, (k < 7)%nat /\
     concat ws = replicate s placeholder ++ days ++ replicate k placeholder) /\
  (forall i day, days !! i = Some day ->
     getUTCDay (date day) = Some (Z.of_nat ((s + i) mod 7)) /\
     ws !! ((s + i) / 7)%nat ≫= (.!! ((s + i) mod 7)%nat) = Some day).
Proof.
  intros Hne Hcons ws s.
  pose proof (Z.mod_pos_bound (d0 + 4) 7 ltac:(lia)) as Hb.
  assert (Hs : (s < 7)%nat) by (subst s; lia).
  destruct days as [|first rest]; [done|]. clear Hne.
  set (days := first :: rest) in *.
  assert (Hfirst : getUTCDay (date first) = Some (Z.of_nat s)).
  { rewrite (consecutive_getUTCDay days d0 0 first Hcons) by done.
    fold s. by rewrite Nat.add_0_r, Nat.mod_small. }
  set (st0 := mkBucketing [] [] (replicate s placeholder) (Some (-1))).
  set (st := foldl (forEachDay getUTCDay getUTCMonth) st0 days).
  assert (Hws : ws = if bool_decide (0 < length (currentWeek st))%nat
                     then weeks st ++ [padBack (currentWeek st)] else weeks st).
  { subst ws st st0. unfold heatmapWeeks, bucket, days at 1.
    rewrite Hfirst. simpl padFront. rewrite Nat2Z.id.
    by case_bool_decide. }
  assert (Hlaid : laid_out (s + length days) st).
  { apply foldl_forEachDay_laid_out.
    - split; [constructor|]. unfold st0. cbn [currentWeek].
      by rewrite length_replicate, Nat.mod_small.
    - intros i day Hi. by apply (consecutive_getUTCDay days d0). }
  destruct Hlaid as [Hfull Hopen].
  assert (Hcat : concat (weeks st) ++ currentWeek st = replicate s placeholder ++ days).
  { subst st. by rewrite foldl_forEachDay_concat. }
  pose proof (Nat.mod_upper_bound (s + length days) 7 ltac:(lia)) as Hr.
  assert (Hall : Forall (fun w => length w = 7%nat) ws).
  { rewrite Hws. case_bool_decide; [|done].
    apply Forall_app. split; [done|]. apply Forall_singleton.
    unfold padBack. rewrite length_app, length_replicate. lia. }
  assert (Hconcat : exists k, (k < 7)%nat /\
            concat ws = replicate s placeholder ++ days ++ replicate k placeholder).
  { rewrite Hws. case_bool_decide as Hlen.
    - exists (7 - length (currentWeek st))%nat. split; [lia|].
      rewrite concat_app. simpl. rewrite app_nil_r. unfold padBack.
      by rewrite app_assoc, Hcat, <- app_assoc.
    - exists 0%nat. split; [lia|].
      destruct (currentWeek st) as [|? ?] eqn:Ecur; [|simpl in Hlen; lia].
      rewrite app_nil_r in Hcat. by rewrite Hcat, app_nil_r. }
  split; [done|]. split; [by simpl; rewrite Hfirst|].
  split; [done|]. split; [done|].
  intros i day Hi. split; [by apply (consecutive_getUTCDay days d0)|].
  rewrite <- concat_weeks_lookup by done.
  destruct Hconcat as (k & _ & ->).
  rewrite lookup_app_r by (rewrite length_replicate; lia).
  rewrite length_replicate. replace (s + i - s)%nat with i by lia.
  by rewrite lookup_app_l by (by eapply lookup_lt_Some).
Qed.

(** X23 on four days from Friday 2024-01-05 (day 19727): five placeholders
    and two days; then two days and five placeholders. *)
Lemma heatmapWeeks_calendar_witness :
  let fri := mkDay "2024-01-05" 3 300 in
  let sat := mkDay "2024-01-06" 0 0 in
  let sun := mkDay "2024-01-07" 8 800 in
  let mon := mkDay "2024-01-08" 1 100 in
  let days := [fri; sat; sun; mon] in
  heatmapWeeks days =
    [ replicate 5 placeholder ++ [fri; sat]; [sun; mon] ++ replicate 5 placeholder ]
  /\ Forall (fun w => length w = 7%nat) (heatmapWeeks days).
Proof.
  intros fri sat sun mon days. split; [reflexivity|].
  refine (proj1 (proj2 (proj2 (heatmapWeeks_calendar days 19727 _ _)))); [done|].
  intros [|[|[|[|i]]]] day Hi; simpl in Hi; simplify_eq; reflexivity.
Defined.

(** *** The earlier revision and the time zone *)

(** The weeks do not depend on how the month is read. *)
Lemma bucket_weeks_ext (getDay1 getDay2 getMonth1 getMonth2 : string -> option Z) days :
  (forall s, getDay1 s = getDay2 s) ->
  (bucket getDay1 getMonth1 days).1 = (bucket getDay2 getMonth2 days).1.
Proof.
  intros Hday. destruct days as [|first rest]; [done|].
  unfold bucket. rewrite (Hday (date first)).
  set (st1 := mkBucketing [] [] _ _). set (days := first :: rest).
  assert (Hsame : forall ds sa sb,
            weeks sa = weeks sb -> currentWeek sa = currentWeek sb ->
            weeks (foldl (forEachDay getDay1 getMonth1) sa ds) =
              weeks (foldl (forEachDay getDay2 getMonth2) sb ds) /\
            currentWeek (foldl (forEachDay getDay1 getMonth1) sa ds) =
              currentWeek (foldl (forEachDay getDay2 getMonth2) sb ds)).
  { induction ds as [|d ds IH]; intros sa sb Hw Hc; [done|]. simpl.
    apply IH; unfold forEachDay; rewrite (Hday (date d)), Hw, Hc;
      destruct (number_ne _ (currentMonth sa)), (number_ne _ (currentMonth sb)),
        (number_is _ 6); done. }
  destruct (Hsame days st1 st1 eq_refl eq_refl) as [-> ->].
  by case_bool_decide.
Qed.

(** X1: at and east of Greenwich the earlier revision lays the days out as
    the current one does; west of it the local day is the day before, and
    Sunday 2024-01-07 lands in Saturday's column. *)
Theorem legacyWeeks_time_zone (tzOffset : Z) (days : list ActivityHeatmapDay) :
  (-1440 < tzOffset <= 0 -> legacyWeeks tzOffset days = heatmapWeeks days) /\
  (let sunday := mkDay "2024-01-07" 3 30 in
   getUTCDay (date sunday) = Some 0 /\
   heatmapWeeks [sunday] = [sunday :: replicate 6 placeholder] /\
   legacyWeeks 300 [sunday] = [replicate 6 placeholder ++ [sunday]]).
Proof.
  split; [|by vm_compute].
  intros Htz. apply bucket_weeks_ext. intros s. unfold getDay, getUTCDay.
  assert (localShift tzOffset = 0) as ->.
  { unfold localShift. apply Z.div_small. lia. }
  destruct (epochDay s) as [n|]; [|done]. simpl. by rewrite Z.add_0_r.
Qed.

(** The earlier revision in China (UTC+8, offset -480). *)
Lemma legacyWeeks_time_zone_witness :
  let fri := mkDay "2024-01-05" 3 300 in
  let sat := mkDay "2024-01-06" 0 0 in
  let sun := mkDay "2024-01-07" 8 800 in
  legacyWeeks (-480) [fri; sat; sun] =
    [replicate 5 placeholder ++ [fri; sat]; sun :: replicate 6 placeholder].
Proof.
  intros fri sat sun.
  rewrite (proj1 (legacyWeeks_time_zone (-480) [fri; sat; sun])) by lia.
  reflexivity.
Defined.

(** C4: the earlier revision (part_004) in a browser five hours west of
    Greenwich, on the consecutive days Sunday 2024-01-07 and Monday
    2024-01-08: it pads six cells and puts the Sunday into the last column
    of the first week, Saturday's, and the Monday opens a second week;
    the claim has the Sunday in column 0 and both days in one week, which
    is what ActivityHeatmap.tsx makes of the same days. *)
Theorem legacyWeeks_sunday_misplaced :
  let sun := mkDay "2024-01-07" 8 800 in
  let mon := mkDay "2024-01-08" 1 100 in
  consecutive [sun; mon] 19729 /\
  getUTCDay (date sun) = Some 0 /\
  legacyWeeks 300 [sun; mon]
    = [replicate 6 placeholder ++ [sun]; mon :: replicate 6 placeholder] /\
  heatmapWeeks [sun; mon] = [[sun; mon] ++ replicate 5 placeholder].
Proof.
  intros sun mon. split; [|by vm_compute].
  intros [|[|i]] day Hi; simpl in Hi; simplify_eq; reflexivity.
Qed.

(** ** Properties: intensity levels, number format and cell size *)

Example getIntensityLevel_quarter : getIntensityLevel 25 100 = 1.
Proof. reflexivity. Qed.

Example getIntensityLevel_above_quarter : getIntensityLevel 26 100 = 2.
Proof. reflexivity. Qed.

Example formatNumber_small : formatNumber 999 = "999"%string.
Proof. reflexivity. Qed.

Example formatNumber_tie_up : formatNumber 1250 = "1.3K"%string.
Proof. reflexivity. Qed.

Example formatNumber_below_tie : formatNumber 1450 = "1.4K"%string.
Proof. reflexivity. Qed.

Example formatNumber_millions : formatNumber 2500000 = "2.5M"%string.
Proof. reflexivity. Qed.

Example updateSizing_desktop : updateSizing 824 false 53 = (4, Some 11).
Proof. reflexivity. Qed.

Example updateSizing_narrow : updateSizing 200 true 53 = (2, Some 6).
Proof. reflexivity. Qed.

(** X4: the intensity level of a cell is 0 exactly when there are no
    requests (or no maximum), and otherwise the quarter of the maximum the
    count lies in, the quarter points belonging to the lower level: the
    rounding of the division never moves a count across a threshold. *)
Theorem getIntensityLevel_quartiles requests maxRequests :
  0 <= requests < 2 ^ 53 -> 0 <= maxRequests < 2 ^ 52 ->
  getIntensityLevel requests maxRequests
  = if (requests =? 0) || (maxRequests =? 0) then 0
    else if 4 * requests <=? maxRequests then 1
    else if 2 * requests <=? maxRequests then 2
    else if 4 * requests <=? 3 * maxRequests then 3
    else 4.
Proof.
  intros Hr Hm. unfold getIntensityLevel.
  destruct (Z.eqb_spec requests 0) as [|Hr0]; [done|].
  destruct (Z.eqb_spec maxRequests 0) as [|Hm0]; [done|].
  cbv zeta. simpl orb. cbv iota.
  change (Number.dyadic 1 (-2)) with (S754_finite false (2 ^ 52) (1 - 55)).
  change (Number.dyadic 1 (-1)) with (S754_finite false (2 ^ 52) (1 - 54)).
  change (Number.dyadic 3 (-2)) with (S754_finite false (3 * 2 ^ 51) (1 - 54)).
  rewrite (Number.leb_div_threshold requests maxRequests (2 ^ 52) 55 1 4);
    [|lia|lia|lia|lia|lia|lia|done|lia].
  rewrite (Number.leb_div_threshold requests maxRequests (2 ^ 52) 54 1 2);
    [|lia|lia|lia|lia|lia|lia|done|lia].
  rewrite (Number.leb_div_threshold requests maxRequests (3 * 2 ^ 51) 54 3 4);
    [|lia|lia|lia|lia|lia|lia|done|lia].
  replace (requests * 4) with (4 * requests) by ring.
  replace (requests * 2) with (2 * requests) by ring.
  replace (1 * maxRequests) with maxRequests by ring.
  done.
Qed.

Lemma getIntensityLevel_quartiles_witness :
  getIntensityLevel 50 200 = 1 /\ getIntensityLevel 151 200 = 4.
Proof.
  split.
  - rewrite (getIntensityLevel_quartiles 50 200) by lia. reflexivity.
  - rewrite (getIntensityLevel_quartiles 151 200) by lia. reflexivity.
Defined.

(** X5: from 1000 on, [formatNumber] shows the count in thousands (below a
    million) or in millions with one decimal, and the number [n / 10] it
    shows is a nearest one: it is off by at most 0.05 units. *)
Theorem formatNumber_nearest num : 1000 <= num < 10 ^ 14 ->
  exists n,
    formatNumber num
      = Number.fixedDigits 1 n +:+ (if num <? 1000000 then "K" else "M")
    /\ let unit := if num <? 1000000 then 1000 else 1000000 in
       Z.abs (10 * num - n * unit) <= unit / 2.
Proof.
  intros Hnum. unfold formatNumber.
  destruct (Z.leb_spec 1000000 num) as [Hge | Hlt].
  - destruct (Number.toFixed_div 1 num 1000000) as (n & -> & Hn & Hb);
      [lia|lia|change (10 ^ Z.of_nat 1) with 10; lia|].
    exists n. assert ((num <? 1000000) = false) as -> by lia.
    split; [done|]. cbv zeta. change (1000000 / 2) with 500000.
    change (10 ^ Z.of_nat 1) with 10 in Hb. lia.
  - assert ((1000 <=? num) = true) as -> by lia.
    destruct (Number.toFixed_div 1 num 1000) as (n & -> & Hn & Hb);
      [lia|lia|change (10 ^ Z.of_nat 1) with 10; lia|].
    exists n. assert ((num <? 1000000) = true) as -> by lia.
    split; [done|]. cbv zeta. change (1000 / 2) with 500.
    change (10 ^ Z.of_nat 1) with 10 in Hb. lia.
Qed.

Lemma formatNumber_nearest_witness :
  exists n, formatNumber 1450 = Number.fixedDigits 1 n +:+ "K"
    /\ Z.abs (10 * 1450 - n * 1000) <= 500.
Proof. apply (formatNumber_nearest 1450). lia. Defined.

(** X6: the switch to millions is made on the count, not on what is
    shown: every count from 999950 to 999999 is shown as "1000.0K". *)
Theorem formatNumber_rolls_over num : 999950 <= num < 1000000 ->
  formatNumber num = "1000.0K"%string.
Proof.
  intros Hnum.
  destruct (decide (num = 999950)) as [-> | Hne]; [vm_compute; reflexivity|].
  destruct (formatNumber_nearest num ltac:(lia)) as (n & -> & Hn).
  assert ((num <? 1000000) = true) as Hlt by lia. rewrite Hlt in *. cbv zeta in Hn.
  change (1000 / 2) with 500 in Hn.
  assert (n = 10000) as -> by lia. vm_compute. reflexivity.
Qed.

Lemma formatNumber_rolls_over_witness : formatNumber 999999 = "1000.0K"%string.
Proof. apply (formatNumber_rolls_over 999999). lia. Defined.

(** X7: with [colCount] columns in a container [width] wide, the cell
    size is never below the minimum; when the columns fit at the minimum
    size (24 pixels being reserved and the gaps counted), the size chosen
    is the largest at which they fit, and otherwise it is the minimum and
    the grid is wider than the container. *)
Theorem updateSizing_fits width (isSmall : bool) colCount :
  0 < width < 2 ^ 31 -> 0 < colCount < 2 ^ 31 ->
  exists gap size,
    updateSizing width isSmall colCount = (gap, Some size)
    /\ gap = (if isSmall then 2 else 4)
    /\ MIN_CELL_SIZE <= size
    /\ let needed s := colCount * s + (colCount - 1) * gap in
       if needed MIN_CELL_SIZE <=? width - 24
       then needed size <= width - 24 < needed (size + 1)
       else size = MIN_CELL_SIZE.
Proof.
  intros Hw Hc. unfold updateSizing.
  assert ((colCount =? 0) = false) as -> by lia.
  assert ((width <=? 0) = false) as -> by lia.
  cbv zeta. simpl orb. cbv iota.
  set (gap := if isSmall then 2 else 4).
  assert (gap = 2 \/ gap = 4) as Hgap by (subst gap; destruct isSmall; auto).
  set (a := Z.max (width - 24) 0 - Z.max (colCount - 1) 0 * gap).
  rewrite Number.Math_floor_div by lia.
  exists gap, (Z.max MIN_CELL_SIZE (a / colCount)).
  split; [done|]. split; [done|]. split; [lia|].
  unfold MIN_CELL_SIZE.
  pose proof (Z.div_mod a colCount ltac:(lia)) as Hdm.
  pose proof (Z.mod_pos_bound a colCount ltac:(lia)) as Hr.
  set (q := a / colCount) in *. set (r := a mod colCount) in *.
  destruct (Z.leb_spec (colCount * 6 + (colCount - 1) * gap) (width - 24)) as [Hfit | Hnot].
  - assert (6 <= q) by (subst a; nia).
    replace (Z.max 6 q) with q by lia. subst a. nia.
  - assert (q < 6) by (subst a; nia). lia.
Qed.

Lemma updateSizing_fits_witness :
  exists gap size,
    updateSizing 824 false 53 = (gap, Some size)
    /\ gap = 4
    /\ MIN_CELL_SIZE <= size
    /\ (53 * size + (53 - 1) * gap <= 824 - 24 < 53 * (size + 1) + (53 - 1) * gap).
Proof.
  destruct (updateSizing_fits 824 false 53) as (gap & size & H1 & H2 & H3 & H4);
    [lia|lia|].
  exists gap, size. subst gap.
  split; [exact H1|]. split; [reflexivity|]. split; [exact H3|].
  cbv zeta in H4.
  change (53 * MIN_CELL_SIZE + (53 - 1) * 4 <=? 824 - 24) with true in H4.
  exact H4.
Defined.

Lemma getIntensityLevel_zero requests maxRequests :
  getIntensityLevel requests maxRequests = 0 <-> requests = 0 \/ maxRequests = 0.
Proof.
  unfold getIntensityLevel.
  destruct (Z.eqb_spec requests 0) as [|Hr]; [tauto|].
  destruct (Z.eqb_spec maxRequests 0) as [|Hm]; [tauto|].
  cbv zeta. repeat destruct (Number.leb _ _); split; (done || lia).
Qed.

Lemma cellLevel_placeholder max_requests : cellLevel max_requests placeholder = 0.
Proof. reflexivity. Qed.

Lemma cellLevel_active max_requests day : max_requests <> 0 ->
  cellLevel max_requests day <> 0 <-> 0 < requests day.
Proof.
  intros Hmax. unfold cellLevel.
  destruct (Z.geb_spec (requests day) 0) as [Hge|Hlt]; [|lia].
  rewrite getIntensityLevel_zero. lia.
Qed.

(** The cells of the grid, in order: the padding, the records, the
    padding. *)
Lemma heatmapWeeks_cells days :
  exists front back : nat,
    concat (heatmapWeeks days)
    = replicate front placeholder ++ days ++ replicate back placeholder.
Proof.
  unfold heatmapWeeks, bucket. destruct days as [|first rest].
  { exists 0%nat, 0%nat. done. }
  set (days := first :: rest).
  set (st0 := mkBucketing [] [] (padFront (getUTCDay (date first))) (Some (-1))).
  pose proof (foldl_forEachDay_concat getUTCDay getUTCMonth days st0) as Hcat.
  set (st := foldl (forEachDay getUTCDay getUTCMonth) st0 days) in *.
  assert (exists front, padFront (getUTCDay (date first)) = replicate front placeholder)
    as [front Hfront].
  { unfold padFront. destruct (getUTCDay (date first)); [by eexists|by exists 0%nat]. }
  simpl in Hcat. rewrite Hfront in Hcat.
  case_bool_decide as Hcw; simpl.
  - exists front, (7 - length (currentWeek st))%nat.
    rewrite concat_app. simpl. rewrite app_nil_r. unfold padBack.
    by rewrite app_assoc, Hcat, <- app_assoc.
  - exists front, 0%nat. simpl. rewrite app_nil_r.
    assert (currentWeek st = []) as Hnil
      by (destruct (currentWeek st); [done|simpl in Hcw; lia]).
    by rewrite Hnil, app_nil_r in Hcat.
Qed.

(** X8: the number shown as active days is the number of coloured cells
    of the grid (cells of a level other than 0), whenever the maximum the
    levels are taken against is not 0. *)
Theorem activeDays_coloured (days : list ActivityHeatmapDay) (max_requests : Z) :
  max_requests <> 0 ->
  activeDays days
  = length (filter (fun c => cellLevel max_requests c <> 0) (concat (heatmapWeeks days))).
Proof.
  intros Hmax. destruct (heatmapWeeks_cells days) as (front & back & ->).
  assert (forall k, filter (fun c => cellLevel max_requests c <> 0)
                      (replicate k placeholder) = []) as Hpad.
  { intros k. induction k as [|k IH]; [done|]. simpl.
    rewrite filter_cons_False; [done|]. rewrite cellLevel_placeholder. tauto. }
  rewrite !filter_app, !Hpad, app_nil_r. simpl. unfold activeDays. f_equal.
  apply list_filter_iff. intros d. symmetry. by apply cellLevel_active.
Qed.

Lemma activeDays_coloured_witness :
  let days := [mkDay "2024-01-05" 3 300; mkDay "2024-01-06" 0 0; mkDay "2024-01-07" 8 800] in
  activeDays days
  = length (filter (fun c => cellLevel 8 c <> 0) (concat (heatmapWeeks days))).
Proof. intros days. apply (activeDays_coloured days 8). lia. Defined.


(** ** Properties: month labels *)

Lemma concat_full_length {A} (ws : list (list A)) :
  Forall (fun w => length w = 7%nat) ws -> length (concat ws) = (7 * length ws)%nat.
Proof.
  induction 1 as [|w ws Hw _ IH]; [done|]. simpl. rewrite length_app, Hw, IH. lia.
Qed.

Lemma filter_ext_in {A} (P Q : A -> Prop) `{!forall x, Decision (P x)}
  `{!forall x, Decision (Q x)} (l : list A) :
  (forall x, x ∈ l -> P x <-> Q x) -> filter P l = filter Q l.
Proof.
  induction l as [|x l IH]; intros Hext; [done|].
  rewrite !filter_cons.
  assert (P x <-> Q x) as Hx by (apply Hext; left).
  rewrite IH by (intros y Hy; apply Hext; by right).
  destruct (decide (P x)), (decide (Q x)); tauto.
Qed.

Lemma monthAt_app_l ds d i : (i < length ds)%nat -> monthAt (ds ++ [d]) i = monthAt ds i.
Proof. intros Hi. unfold monthAt. by rewrite lookup_app_l. Qed.

Lemma monthStarts_snoc ds d :
  monthStarts (ds ++ [d])
  = monthStarts ds ++
    (if decide (length ds = 0%nat \/
                monthAt (ds ++ [d]) (length ds - 1) <> monthAt (ds ++ [d]) (length ds))
     then [length ds] else []).
Proof.
  unfold monthStarts. rewrite length_app. simpl.
  rewrite Nat.add_1_r, seq_S, filter_app. simpl. f_equal.
  apply filter_ext_in. intros i Hi. apply elem_of_seq in Hi.
  rewrite !monthAt_app_l by lia. done.
Qed.

Lemma consecutive_app_l ds d d0 : consecutive (ds ++ [d]) d0 -> consecutive ds d0.
Proof.
  intros H i day Hi. apply H. rewrite lookup_app_l; [done|]. by eapply lookup_lt_Some.
Qed.

Lemma consecutive_month ds d0 i day :
  consecutive ds d0 -> ds !! i = Some day -> is_Some (getUTCMonth (date day)).
Proof.
  intros Hc Hi. specialize (Hc i day Hi). unfold epochDay, getUTCMonth in *.
  destruct (parseDate (date day)) as [[[y m] d]|]; [by eexists|done].
Qed.

Lemma getUTCMonth_range s m : getUTCMonth s = Some m -> 0 <= m < 12.
Proof.
  unfold getUTCMonth, parseDate.
  destruct (list_ascii_of_string s) as [|y1 [|y2 [|y3 [|y4 [|s1 [|m1 [|m2 [|s2 [|d1 [|d2 [|]]]]]]]]]]];
    try done.
  destruct (digit y1), (digit y2), (digit y3), (digit y4), (digit m1), (digit m2),
    (digit d1), (digit d2); simpl; try done.
  case_match eqn:E; [|done]. intros [= <-].
  repeat (apply andb_prop in E as [E ?]). lia.
Qed.

(** The state after the records [ds], laid out after [s] cells of
    padding. *)
Lemma foldl_forEachDay_labels ds d0 :
  consecutive ds d0 ->
  let s := Z.to_nat ((d0 + 4) mod 7) in
  let st := foldl (forEachDay getUTCDay getUTCMonth)
              (mkBucketing [] [] (replicate s placeholder) (Some (-1))) ds in
  monthLabels st = labelAt ds s <$> monthStarts ds
  /\ currentMonth st
     = (if decide (length ds = 0%nat) then Some (-1) else monthAt ds (length ds - 1))
  /\ length (weeks st) = ((s + length ds) / 7)%nat.
Proof.
  intros Hc s.
  pose proof (Z.mod_pos_bound (d0 + 4) 7 ltac:(lia)) as Hb.
  assert (Hs : (s < 7)%nat) by (subst s; lia).
  set (st0 := mkBucketing [] [] (replicate s placeholder) (Some (-1))).
  assert (Hlen : forall ds', consecutive ds' d0 ->
            length (weeks (foldl (forEachDay getUTCDay getUTCMonth) st0 ds'))
            = ((s + length ds') / 7)%nat).
  { intros ds' Hc'.
    destruct (foldl_forEachDay_laid_out getUTCDay getUTCMonth ds' s st0) as [Hfull Hopen].
    - split; [constructor|]. unfold st0. cbn [currentWeek].
      by rewrite length_replicate, Nat.mod_small.
    - intros i day Hi. by apply (consecutive_getUTCDay ds' d0).
    - pose proof (foldl_forEachDay_concat getUTCDay getUTCMonth ds' st0) as Hcat.
      set (st := foldl (forEachDay getUTCDay getUTCMonth) st0 ds') in *.
      apply (f_equal length) in Hcat.
      change (concat (weeks st0)) with (@nil ActivityHeatmapDay) in Hcat.
      change (currentWeek st0) with (replicate s placeholder) in Hcat.
      rewrite !length_app, concat_full_length, Hopen, length_replicate in Hcat by done.
      pose proof (Nat.div_mod_eq (s + length ds') 7). cbn [length] in Hcat. lia. }
  induction ds as [|d ds IH] using rev_ind.
  { split; [done|]. split; [done|]. by apply Hlen. }
  pose proof (consecutive_app_l ds d d0 Hc) as Hc'.
  destruct (IH Hc') as (Hl & Hm & Hw). clear IH.
  split; [|split]; [| |by apply Hlen].
  - rewrite foldl_app. cbn [foldl]. fold st0 in Hl, Hm, Hw |- *.
    set (st := foldl (forEachDay getUTCDay getUTCMonth) st0 ds) in *.
    rewrite monthStarts_snoc, fmap_app.
    assert (monthAt (ds ++ [d]) (length ds) = getUTCMonth (date d)) as Hd.
    { unfold monthAt. by rewrite lookup_app_r, Nat.sub_diag by lia. }
    destruct (consecutive_month (ds ++ [d]) d0 (length ds) d Hc) as [m Hmd].
    { by rewrite lookup_app_r, Nat.sub_diag by lia. }
    pose proof (getUTCMonth_range _ _ Hmd) as Hm0.
    assert (labelAt ds s <$> monthStarts ds = labelAt (ds ++ [d]) s <$> monthStarts ds) as Hext.
    { apply list_fmap_ext. intros k i Hi.
      apply list_elem_of_lookup_2, list_elem_of_filter in Hi as [_ Hi].
      apply elem_of_seq in Hi. unfold labelAt. by rewrite monthAt_app_l by lia. }
    rewrite <- Hext, <- Hl.
    unfold forEachDay. rewrite Hm, Hmd.
    assert (number_ne (Some m)
              (if decide (length ds = 0%nat) then Some (-1) else monthAt ds (length ds - 1))
            = bool_decide (length ds = 0%nat \/
                monthAt (ds ++ [d]) (length ds - 1) <> monthAt (ds ++ [d]) (length ds)))
      as ->.
    { rewrite Hd, Hmd. destruct (decide (length ds = 0%nat)) as [H0|H0].
      - rewrite bool_decide_eq_true_2 by auto. simpl.
        destruct (Z.eqb_spec m (-1)); [lia|done].
      - rewrite monthAt_app_l by lia.
        destruct (monthAt ds (length ds - 1)) as [m'|] eqn:Em'; simpl.
        + destruct (Z.eqb_spec m m') as [->|Hne].
          * rewrite bool_decide_eq_false_2; [done|]. intros [?|?]; done.
          * rewrite bool_decide_eq_true_2; [done|]. right. congruence.
        + rewrite bool_decide_eq_true_2; [done|]. by right. }
    destruct (decide (length ds = 0%nat \/
                monthAt (ds ++ [d]) (length ds - 1) <> monthAt (ds ++ [d]) (length ds)))
      as [Hstart|Hstart].
    + rewrite bool_decide_eq_true_2 by done.
      destruct (number_is _ 6); cbn [monthLabels fmap list_fmap];
        unfold labelAt; rewrite Hd, Hmd, Hw; done.
    + rewrite bool_decide_eq_false_2 by done.
      destruct (number_is _ 6); cbn [monthLabels fmap list_fmap];
        by rewrite app_nil_r.
  - rewrite foldl_app. cbn [foldl]. fold st0 in Hl, Hm, Hw |- *.
    set (st := foldl (forEachDay getUTCDay getUTCMonth) st0 ds) in *.
    rewrite length_app. simpl. rewrite decide_False by lia.
    replace (length ds + 1 - 1)%nat with (length ds) by lia.
    assert (monthAt (ds ++ [d]) (length ds) = getUTCMonth (date d)) as ->.
    { unfold monthAt. by rewrite lookup_app_r, Nat.sub_diag by lia. }
    unfold forEachDay.
    destruct (number_ne (getUTCMonth (date d)) (currentMonth st)) eqn:Ene;
      destruct (number_is _ 6); cbn [currentMonth]; try done.
    all: unfold number_ne in Ene;
      destruct (getUTCMonth (date d)) as [m|], (currentMonth st) as [m'|]; try done;
      apply negb_false_iff, Z.eqb_eq in Ene; by subst.
Qed.

(** X12: for records on consecutive days, the month labels are, in order,
    one for the first record and one for every record whose month differs
    from the month of the record before it; each carries the name of that
    record's month and stands on the week column in which the record is
    laid out. *)
Theorem monthLabels_columns (days : list ActivityHeatmapDay) (d0 : Z) :
  days <> [] ->
  consecutive days d0 ->
  let s := Z.to_nat ((d0 + 4) mod 7) in
  let labels := (bucket getUTCDay getUTCMonth days).2 in
  labels = labelAt days s <$> monthStarts days
  /\ Forall (fun l => is_Some (month l)) labels.
Proof.
  intros Hne Hcons s labels.
  pose proof (Z.mod_pos_bound (d0 + 4) 7 ltac:(lia)) as Hb.
  assert (labels = labelAt days s <$> monthStarts days) as Hl.
  { destruct (foldl_forEachDay_labels days d0 Hcons) as (Hl & _ & _).
    subst labels. unfold bucket. destruct days as [|first rest]; [done|].
    rewrite (consecutive_getUTCDay (first :: rest) d0 0 first Hcons) by done.
    fold s. rewrite Nat.add_0_r, Nat.mod_small by (subst s; lia).
    simpl padFront. rewrite Nat2Z.id. by case_bool_decide. }
  split; [done|]. rewrite Hl. apply Forall_fmap, Forall_forall. intros i Hi.
  apply list_elem_of_filter in Hi as [_ Hi]. apply elem_of_seq in Hi.
  destruct (lookup_lt_is_Some_2 days i ltac:(lia)) as [day Hday].
  destruct (consecutive_month days d0 i day Hcons Hday) as [m Hm].
  pose proof (getUTCMonth_range _ _ Hm).
  unfold compose, labelAt, monthAt. cbn [month]. rewrite Hday. simpl. rewrite Hm. simpl.
  apply lookup_lt_is_Some. simpl. lia.
Qed.

Lemma monthLabels_columns_witness :
  let days := [mkDay "2024-01-30" 3 300; mkDay "2024-01-31" 0 0; mkDay "2024-02-01" 8 800;
               mkDay "2024-02-02" 1 1; mkDay "2024-02-03" 1 1; mkDay "2024-02-04" 1 1] in
  (bucket getUTCDay getUTCMonth days).2
  = [mkLabel (Some "1月") 0; mkLabel (Some "2月") 0].
Proof.
  intros days.
  destruct (monthLabels_columns days 19752) as [-> _]; [done| |reflexivity].
  intros i day Hi.
  do 6 (destruct i as [|i]; [simpl in Hi; injection Hi as <-; reflexivity|]).
  done.
Defined.

End ActivityHeatmap.

(* ===================================================================== *)
(** * Display states of the statistics cards
      (ModelStatsTable: src/unnamed/part_003, ProviderStatsTable:
      src/unnamed/part_005, RequestTimeline and ActivityHeatmap:
      src/components/analytics)                                           *)
(* ===================================================================== *)

Module StatsCards.

(** What a card shows below its title.  [C] is what the data view is drawn
    from. *)
Inductive CardView (C : Type) : Type :=
| Loading
| LoadError
| EmptyState (message : string)
| DataView (content : C).

Arguments Loading {C}.
Arguments LoadError {C}.
Arguments EmptyState {C} message.
Arguments DataView {C} content.

(** An optional boolean prop ([isLoading?: boolean]) used as a condition;
    a missing prop is [undefined], which is falsy. *)
Definition truthy (flag : option bool) : bool := default false flag.

Section Tables.

(** The row records ([ModelStats], [ProviderStats]) come from
    '@/services/api/usageRecords', which is not among the sources; the
    display state does not look inside them. *)
Context {ModelStats ProviderStats : Type}.

Definition ModelStatsTable (data : list ModelStats) (isLoading hasError : option bool)
  : CardView (list ModelStats) :=
  if truthy isLoading then Loading
  else if truthy hasError then LoadError
  else if (length data =? 0)%nat then EmptyState "暂无模型统计数据"
  else DataView data.

Definition ProviderStatsTable (data : list ProviderStats) (isLoading hasError : option bool)
  : CardView (list ProviderStats) :=
  if truthy isLoading then Loading
  else if truthy hasError then LoadError
  else if (length data =? 0)%nat then EmptyState "暂无提供商统计数据"
  else DataView data.

End Tables.

Section Charts.

(** A point of the timeline (its fields are not read by the display
    state). *)
Context {TimelinePoint : Type}.

(** [RequestTimelineData | null] with its [points], and
    [ActivityHeatmapData | null] with its [days]: the source guards both
    the object and the array ([data && data.points && ...]), so each may be
    missing. *)
Record RequestTimelineData : Type := mkTimeline {
  points : option (list TimelinePoint);
}.

Record ActivityHeatmapData : Type := mkHeatmap {
  days : option (list ActivityHeatmap.ActivityHeatmapDay);
  max_requests : Z;
}.

(** [data && data.points && data.points.length > 0], with the points when
    it holds. *)
Definition timelineHasData (data : option RequestTimelineData)
  : option (list TimelinePoint) :=
  match data with
  | None => None
  | Some d =>
      match points d with
      | None => None
      | Some ps => if (0 <? length ps)%nat then Some ps else None
      end
  end.

Definition RequestTimeline (data : option RequestTimelineData)
  (isLoading hasError : option bool) : CardView (list TimelinePoint) :=
  let hasData := timelineHasData data in
  if truthy isLoading then Loading
  else if truthy hasError then LoadError
  else match hasData with
       | None => EmptyState "暂无请求数据"
       | Some ps => DataView ps
       end.

Definition heatmapHasData (data : option ActivityHeatmapData)
  : option (list ActivityHeatmap.ActivityHeatmapDay) :=
  match data with
  | None => None
  | Some d =>
      match days d with
      | None => None
      | Some ds => if (0 <? length ds)%nat then Some ds else None
      end
  end.

(** The component [ActivityHeatmap] (named [ActivityHeatmapCard] here, next
    to the module of its bucketing); its data view is the grid of weeks. *)
Definition ActivityHeatmapCard (data : option ActivityHeatmapData)
  (isLoading hasError : option bool)
  : CardView (list (list ActivityHeatmap.ActivityHeatmapDay)) :=
  let weeks := ActivityHeatmap.heatmapWeeks (default [] (data ≫= days)) in
  let hasData := heatmapHasData data in
  if truthy isLoading then Loading
  else if truthy hasError then LoadError
  else match hasData with
       | None => EmptyState "暂无活跃数据"
       | Some _ => DataView weeks
       end.

End Charts.

(** The order of the display states as the specification words it: loading
    first, then error, then the empty message, and the data view only with
    data and neither flag. *)
Definition display_states {C} (view : CardView C) (loading error : bool)
  (message : string) (data : option C) : Prop :=
  (loading = true -> view = Loading) /\
  (loading = false -> error = true -> view = LoadError) /\
  (loading = false -> error = false -> data = None -> view = EmptyState message) /\
  (forall content, loading = false -> error = false -> data = Some content ->
     view = DataView content).

(** A list prop as data: [None] when it is empty. *)
Definition nonempty {A} (l : list A) : option (list A) :=
  match l with
  | [] => None
  | _ => Some l
  end.

(** ** Properties *)

(** C7: each of the four cards shows its loading state when [isLoading] is
    true; otherwise its error state when [hasError] is true; otherwise its
    empty message when the data is missing or empty; and the data view only
    for non-empty data with neither flag true (a flag that is missing or
    false is not true). *)
Theorem cards_display_states {ModelStats ProviderStats TimelinePoint : Type}
  (models : list ModelStats) (providers : list ProviderStats)
  (timeline : option (@RequestTimelineData TimelinePoint))
  (heatmap : option ActivityHeatmapData)
  (isLoading hasError : option bool) :
  let loading := bool_decide (isLoading = Some true) in
  let error := bool_decide (hasError = Some true) in
  display_states (ModelStatsTable models isLoading hasError)
    loading error "暂无模型统计数据" (nonempty models) /\
  display_states (ProviderStatsTable providers isLoading hasError)
    loading error "暂无提供商统计数据" (nonempty providers) /\
  display_states (RequestTimeline timeline isLoading hasError)
    loading error "暂无请求数据"
    (nonempty (default [] (timeline ≫= points))) /\
  display_states (ActivityHeatmapCard heatmap isLoading hasError)
    loading error "暂无活跃数据"
    (ActivityHeatmap.heatmapWeeks <$> nonempty (default [] (heatmap ≫= days))).
Proof.
  cbv zeta.
  unfold display_states, ModelStatsTable, ProviderStatsTable, RequestTimeline,
    ActivityHeatmapCard.
  destruct isLoading as [[|]|], hasError as [[|]|]; simpl;
    repeat split; try done; intros.
  all: first [ by destruct models; simplify_eq/=
             | by destruct providers; simplify_eq/=
             | by destruct timeline as [[[[|? ?]|]]|]; simplify_eq/=
             | by destruct heatmap as [[[[|? ?]|] ?]|]; simplify_eq/= ].
Qed.

(** C7 on concrete props: a table that is loading although it has an
    error and rows; a table with an error; a table without rows; and a
    timeline with one point and the error flag false. *)
Lemma cards_display_states_witness :
  @ModelStatsTable nat [1%nat] (Some true) (Some true) = Loading /\
  @ModelStatsTable nat [1%nat] (Some false) (Some true) = LoadError /\
  @ProviderStatsTable nat [] None None = EmptyState "暂无提供商统计数据" /\
  @RequestTimeline nat (Some (mkTimeline (Some [7%nat]))) None (Some false)
    = DataView [7%nat].
Proof.
  split; [|split; [|split]].
  - destruct (@cards_display_states nat nat nat [1%nat] [] None None (Some true) (Some true))
      as ((H & _) & _). by apply H.
  - destruct (@cards_display_states nat nat nat [1%nat] [] None None (Some false) (Some true))
      as ((_ & H & _) & _). by apply H.
  - destruct (@cards_display_states nat nat nat [1%nat] [] None None None None)
      as (_ & (_ & _ & H & _) & _). by apply H.
  - destruct (@cards_display_states nat nat nat [] [] (Some (mkTimeline (Some [7%nat]))) None
                None (Some false)) as (_ & _ & (_ & _ & _ & H) & _). by apply H.
Defined.

End StatsCards.

(* ===================================================================== *)
(** * Request timeline (src/components/analytics/RequestTimeline.tsx)      *)
(* ===================================================================== *)

Module Timeline.

(** Modelled from the spec: the type [RequestTimeline] of
    '@/services/api/usageRecords' is not among the sources; a point has the
    two fields the component reads, the hour as text ("request timeline")
    and the number of requests in it. *)
Record TimelinePoint : Type := mkPoint {
  hour : string;
  requests : Z;
}.

(** [s.split(sep)] for a separator of one character: the pieces between
    the separators, empty ones included. *)
Fixpoint split (sep : ascii) (s : string) : list string :=
  match s with
  | EmptyString => [EmptyString]
  | String c s' =>
      if Ascii.eqb c sep then EmptyString :: split sep s'
      else match split sep s' with
           | piece :: rest => String c piece :: rest
           | [] => [String c EmptyString]
           end
  end.

(** [hour.split(' ')[1] || hour]: the second piece, unless there is none
    or it is empty. *)
Definition timePart (hour : string) : string :=
  match split " " hour !! 1%nat with
  | Some t => if bool_decide (t = EmptyString) then hour else t
  | None => hour
  end.

(** The labels of the chart. *)
Definition labels (points : list TimelinePoint) : list string :=
  (fun p => timePart (hour p)) <$> points.

(** [points.reduce((sum, p) => sum + p.requests, 0)]. *)
Definition totalRequests (points : list TimelinePoint) : Z :=
  foldl (fun sum p => sum + requests p) 0 points.

(** [points.reduce((max, p) => p.requests > max.requests ? p : max,
    { hour: '', requests: 0 })]. *)
Definition peakHour (points : list TimelinePoint) : TimelinePoint :=
  foldl (fun max p => if requests p >? requests max then p else max)
        (mkPoint "" 0) points.

(** The peak shown beside the total: [None] when
    [peakHour.requests > 0] fails. *)
Definition peakLabel (points : list TimelinePoint) : option string :=
  let peak := peakHour points in
  if requests peak >? 0 then Some (timePart (hour peak)) else None.

(** No space in the text. *)
Fixpoint noSpace (s : string) : Prop :=
  match s with
  | EmptyString => True
  | String c s' => c <> " "%char /\ noSpace s'
  end.

Example split_date_time : split " " "2024-01-07 13:00" = ["2024-01-07"; "13:00"]%string.
Proof. reflexivity. Qed.
Example split_trailing_space : split " " "a " = ["a"; ""]%string.
Proof. reflexivity. Qed.
Example timePart_two_spaces : timePart "2024-01-07  13:00" = "2024-01-07  13:00"%string.
Proof. reflexivity. Qed.
Example peakHour_first_of_equals :
  peakHour [mkPoint "a 01:00" 2; mkPoint "a 02:00" 5; mkPoint "a 03:00" 5]
  = mkPoint "a 02:00" 5.
Proof. reflexivity. Qed.

Lemma append_empty_r (s : string) : s +:+ "" = s.
Proof.
  induction s as [|c s IH]; [done|].
  change (String c s +:+ "") with (String c (s +:+ "")). by rewrite IH.
Qed.

Lemma split_nonempty sep s : split sep s <> [].
Proof.
  destruct s as [|c s]; [done|]. simpl.
  destruct (Ascii.eqb c sep); [done|]. by destruct (split sep s).
Qed.

Lemma split_noSpace d : noSpace d -> split " " d = [d].
Proof.
  induction d as [|c d IH]; [done|]. intros [Hc Hd]. simpl.
  destruct (Ascii.eqb_spec c " ") as [->|_]; [done|]. by rewrite IH.
Qed.

Lemma split_field d rest : noSpace d ->
  split " " (d +:+ String " " rest) = d :: split " " rest.
Proof.
  induction d as [|c d IH]; [done|]. intros [Hc Hd].
  change (String c d +:+ String " " rest) with (String c (d +:+ String " " rest)).
  cbn [split]. destruct (Ascii.eqb_spec c " ") as [->|_]; [done|]. by rewrite IH.
Qed.

(** X15: the label of an hour is its second space-separated field: for
    "date time" (and for "date time more") it is the time; a text without
    a space, or with nothing between its first two spaces, is shown as it
    is. *)
Theorem timePart_second_field (d t tail : string) :
  noSpace d -> noSpace t -> tail = EmptyString \/ (exists r, tail = String " " r) ->
  timePart d = d
  /\ timePart (d +:+ String " " (t +:+ tail))
     = if bool_decide (t = EmptyString) then d +:+ String " " (t +:+ tail) else t.
Proof.
  intros Hd Ht Htail. split.
  - unfold timePart. by rewrite split_noSpace.
  - unfold timePart. rewrite split_field by done.
    assert (exists rest, split " " (t +:+ tail) = t :: rest) as [rest ->]; [|done].
    destruct Htail as [-> | [r ->]].
    + exists []. rewrite append_empty_r. by apply split_noSpace.
    + eexists. by apply split_field.
Qed.

Lemma timePart_second_field_witness :
  timePart "2024-01-07 13:00" = "13:00"%string.
Proof.
  destruct (timePart_second_field "2024-01-07" "13:00" "") as [_ H];
    [by repeat split|by repeat split|by left|].
  exact H.
Defined.

Lemma peakHour_snoc points p :
  peakHour (points ++ [p])
  = if requests p >? requests (peakHour points) then p else peakHour points.
Proof. unfold peakHour. by rewrite foldl_app. Qed.

(** X16: the peak is the first of the points with the largest number of
    requests, when that number is positive; when no point has a request,
    it is the empty starting value and no peak is shown. *)
Theorem peakHour_first_maximum (points : list TimelinePoint) :
  let peak := peakHour points in
  (forall p, p ∈ points -> requests p <= requests peak)
  /\ (0 < requests peak ->
        exists i, points !! i = Some peak
          /\ forall j p, (j < i)%nat -> points !! j = Some p -> requests p < requests peak)
  /\ (requests peak <= 0 ->
        peak = mkPoint "" 0 /\ peakLabel points = None
        /\ forall p, p ∈ points -> requests p <= 0)
  /\ (0 < requests peak -> peakLabel points = Some (timePart (hour peak))).
Proof.
  induction points as [|p points IH] using rev_ind.
  { simpl. split; [intros p Hp; by apply elem_of_nil in Hp|].
    split; [simpl; lia|]. split; [|simpl; lia].
    intros _. split; [done|]. split; [done|]. intros p Hp. by apply elem_of_nil in Hp. }
  assert (forall pts, peakLabel pts
            = if requests (peakHour pts) >? 0 then Some (timePart (hour (peakHour pts)))
              else None) as Hlabel by done.
  cbv zeta in *. rewrite !Hlabel, peakHour_snoc in *.
  destruct IH as (Hmax & Hpos & Hzero & _).
  set (pk := peakHour points) in *.
  destruct (Z.gtb_spec (requests p) (requests pk)) as [Hgt|Hle].
  - split; [|split; [|split]].
    + intros q Hq. apply elem_of_app in Hq as [Hq|Hq]; [specialize (Hmax q Hq); lia|].
      apply list_elem_of_singleton in Hq as ->. lia.
    + intros Hp. exists (length points). split.
      * by rewrite lookup_app_r, Nat.sub_diag by lia.
      * intros j q Hj Hq. rewrite lookup_app_l in Hq by lia.
        apply list_elem_of_lookup_2 in Hq. specialize (Hmax q Hq). lia.
    + intros Hp. assert (requests pk <= 0) as Hpk by lia.
      destruct (Hzero Hpk) as (Hinit & _ & _). rewrite Hinit in Hgt. simpl in Hgt. lia.
    + intros Hp. destruct (Z.gtb_spec (requests p) 0); [done|lia].
  - split; [|split; [|split]].
    + intros q Hq. apply elem_of_app in Hq as [Hq|Hq]; [by apply Hmax|].
      apply list_elem_of_singleton in Hq as ->. lia.
    + intros Hp. destruct (Hpos Hp) as (i & Hi & Hbefore). exists i. split.
      * rewrite lookup_app_l; [done|]. by eapply lookup_lt_Some.
      * intros j q Hj Hq. apply lookup_lt_Some in Hi.
        rewrite lookup_app_l in Hq by lia. by eapply Hbefore.
    + intros Hp. destruct (Hzero Hp) as (Hinit & _ & Hall). split; [done|].
      split; [destruct (Z.gtb_spec (requests pk) 0); [lia|done]|].
      intros q Hq. apply elem_of_app in Hq as [Hq|Hq]; [by apply Hall|].
      apply list_elem_of_singleton in Hq as ->. lia.
    + intros Hp. destruct (Z.gtb_spec (requests pk) 0); [done|lia].
Qed.

End Timeline.

(* ===================================================================== *)
(** * Rows of the statistics tables
      (ModelStatsTable: src/unnamed/part_003, ProviderStatsTable:
      src/unnamed/part_005)                                               *)
(* ===================================================================== *)

Module StatsTable.
Import Number.

(** [request_count > 0
      ? (success_count / request_count * 100).toFixed(1) : '0.0'], for the
    counts of a row, which are integers. *)
Definition successRate (success_count request_count : Z) : string :=
  if request_count >? 0
  then toFixed 1 (mul (div (ofZ success_count) (ofZ request_count)) (ofZ 100))
  else "0.0".

(** The class of the rate's [span]:
    [Number(successRate) >= 95 ? 'success'
       : Number(successRate) >= 80 ? 'warning' : 'error']. *)
Definition rateClass (successRate : string) : string :=
  if geb (ofString successRate) (ofZ 95) then "success"
  else if geb (ofString successRate) (ofZ 80) then "warning"
  else "error".

(** A JavaScript string as [length] and [slice] see it: the sequence of
    its UTF-16 code units (a character outside the basic plane is two of
    them). *)
Definition CodeUnits : Type := list N.

(** The code units of ASCII text: the codes of its characters. *)
Definition units (s : string) : CodeUnits := N_of_ascii <$> list_ascii_of_string s.

(** [model.length <= 25 ? model : model.slice(0, 22) + '...']. *)
Definition shortenModelName (model : CodeUnits) : CodeUnits :=
  if (length model <=? 25)%nat then model
  else take 22 model ++ units "...".

(** ** Properties *)

Example successRate_two_thirds :
  successRate 2 3 = "66.7"%string /\ rateClass (successRate 2 3) = "error"%string.
Proof. split; reflexivity. Qed.

Example successRate_rounds_into_class :
  successRate 1899 2000 = "95.0"%string
  /\ rateClass (successRate 1899 2000) = "success"%string.
Proof. split; reflexivity. Qed.

(** The class of a shown rate of [n] tenths of a percent. *)
Lemma rateClass_fixedDigits (n : Z) : 0 <= n < 2 ^ 53 ->
  rateClass (fixedDigits 1 n)
  = if 950 <=? n then "success" else if 800 <=? n then "warning" else "error".
Proof.
  intros Hn. unfold rateClass. rewrite ofString_fixedDigits by lia.
  destruct (Z.eq_dec n 0) as [-> | Hn0]; [reflexivity|].
  change (ofZ 95) with (S754_finite false 6685030696878080 (1 - 47)).
  change (ofZ 80) with (S754_finite false 5629499534213120 (1 - 47)).
  rewrite (geb_div_threshold n 10 _ 47 95 1), (geb_div_threshold n 10 _ 47 80 1)
    by (done || lia).
  replace (95 * 10) with 950 by done. replace (80 * 10) with 800 by done.
  by rewrite Z.mul_1_r.
Qed.

Example shortenModelName_long :
  shortenModelName (units "gemini-2.5-flash-preview-05-20")
  = units "gemini-2.5-flash-previ...".
Proof. reflexivity. Qed.

(** Thirteen accented letters (U+00E9) repeated twice are 26 code units
    and are cut; thirteen are kept, whatever their length in bytes. *)
Example shortenModelName_accented :
  shortenModelName (replicate 26 233%N) = replicate 22 233%N ++ units "..."
  /\ shortenModelName (replicate 13 233%N) = replicate 13 233%N.
Proof. split; reflexivity. Qed.

(** X17: a row's success rate is shown as a tenth of a percent nearest to
    the exact rate, and its colour class follows what is shown: success
    from exactly 94.95 % on (shown as 95.0), warning from exactly 79.95 %
    on (shown as 80.0), error below.  Without a request nothing is
    divided: the rate is shown as 0.0 and classed as an error. *)
Theorem successRate_class (success_count request_count : Z) :
  (request_count <= 0 ->
     successRate success_count request_count = "0.0"%string
     /\ rateClass (successRate success_count request_count) = "error"%string)
  /\ (0 <= success_count <= request_count -> 0 < request_count < 2 ^ 40 ->
      exists n,
        successRate success_count request_count = fixedDigits 1 n
        /\ 0 <= n <= 1000
        /\ Z.abs (2 * n * request_count - 2000 * success_count) <= request_count
        /\ rateClass (successRate success_count request_count)
           = if 1899 * request_count <=? 2000 * success_count then "success"
             else if 1599 * request_count <=? 2000 * success_count then "warning"
             else "error").
Proof.
  split.
  { intros Hr. unfold successRate. assert ((request_count >? 0) = false) as -> by lia.
    split; reflexivity. }
  intros Hs Hr. set (s := success_count) in *. set (r := request_count) in *.
  unfold successRate. assert ((r >? 0) = true) as -> by lia.
  destruct (Z.eq_dec (2000 * s) (1899 * r)) as [Ht1 | Hn1];
    [|destruct (Z.eq_dec (2000 * s) (1599 * r)) as [Ht2 | Hn2]].
  - destruct (ratio_multiple 1899 s r eq_refl Ht1) as (k & Hk & Hks).
    rewrite Hks, Hk, (div_tie 1899 8552335692376572 k) by (lia || (left; done)).
    exists 950. split; [reflexivity|]. split; [lia|]. split; [lia|].
    assert ((1899 * (2000 * k) <=? 2000 * (1899 * k)) = true) as -> by lia.
    reflexivity.
  - destruct (ratio_multiple 1599 s r eq_refl Ht2) as (k & Hk & Hks).
    rewrite Hks, Hk, (div_tie 1599 7201255804165423 k) by (lia || (right; done)).
    exists 800. split; [reflexivity|]. split; [lia|]. split; [lia|].
    assert ((1899 * (2000 * k) <=? 2000 * (1599 * k)) = false) as -> by lia.
    assert ((1599 * (2000 * k) <=? 2000 * (1599 * k)) = true) as -> by lia.
    reflexivity.
  - assert (exists n, toFixed 1 (mul (div (ofZ s) (ofZ r)) (ofZ 100)) = fixedDigits 1 n
              /\ 0 <= n /\ Z.abs (2 * n * r - 2000 * s) <= r) as (n & -> & Hn0 & Hb).
    { destruct (Z.eq_dec s 0) as [Hs0 | Hs0].
      - exists 0. rewrite Hs0.
        destruct (ofZ_nonzero r ltac:(lia) ltac:(lia)) as (m & u & -> & _).
        split; [reflexivity|]. lia.
      - apply toFixed_rate; lia. }
    pose proof Hb as Hb'. apply Z.abs_le in Hb' as [Hl Hu].
    assert (n <= 1000) as Hn1000.
    { destruct (Z_le_gt_dec n 1000); [done|exfalso].
      assert (1001 * r <= n * r) by (apply Z.mul_le_mono_nonneg_r; lia). lia. }
    exists n. split; [done|]. split; [lia|]. split; [done|].
    rewrite rateClass_fixedDigits by lia.
    destruct (Z.leb_spec 950 n) as [H950 | H950].
    { assert (950 * r <= n * r) by (apply Z.mul_le_mono_nonneg_r; lia).
      assert ((1899 * r <=? 2000 * s) = true) as -> by lia. done. }
    assert (n * r <= 949 * r) by (apply Z.mul_le_mono_nonneg_r; lia).
    assert ((1899 * r <=? 2000 * s) = false) as -> by lia.
    destruct (Z.leb_spec 800 n) as [H800 | H800].
    { assert (800 * r <= n * r) by (apply Z.mul_le_mono_nonneg_r; lia).
      assert ((1599 * r <=? 2000 * s) = true) as -> by lia. done. }
    assert (n * r <= 799 * r) by (apply Z.mul_le_mono_nonneg_r; lia).
    assert ((1599 * r <=? 2000 * s) = false) as -> by lia. done.
Qed.

Lemma successRate_class_witness :
  successRate 1899 2000 = "95.0"%string
  /\ rateClass (successRate 1899 2000) = "success"%string.
Proof.
  destruct (successRate_class 1899 2000) as [_ H].
  destruct H as (n & Hn & _ & _ & Hc); [lia|lia|].
  split; [reflexivity|exact Hc].
Defined.

(** X18: a shortened model name has at most 25 code units: a name of up to
    25 is returned as it is (and only such a name is), a longer one as its
    first 22 code units and three dots, 25 in all; shortening twice changes
    nothing more. *)
Theorem shortenModelName_length (model : CodeUnits) :
  length (shortenModelName model) = Nat.min 25 (length model)
  /\ take 22 (shortenModelName model) = take 22 model
  /\ (shortenModelName model = model <-> (length model <= 25)%nat)
  /\ ((25 < length model)%nat -> drop 22 (shortenModelName model) = units "...")
  /\ shortenModelName (shortenModelName model) = shortenModelName model.
Proof.
  assert (Hlen : length (shortenModelName model) = Nat.min 25 (length model)).
  { unfold shortenModelName. destruct (Nat.leb_spec (length model) 25) as [Hle|Hgt].
    - lia.
    - rewrite length_app, length_take. change (length (units "...")) with 3%nat. lia. }
  split; [done|]. split; [|split; [|split]].
  - unfold shortenModelName. destruct (Nat.leb_spec (length model) 25) as [Hle|Hgt]; [done|].
    rewrite take_app_le by (rewrite length_take; lia).
    rewrite take_take. by rewrite Nat.min_id.
  - split.
    + intros Heq. rewrite Heq in Hlen. lia.
    + intros Hle. unfold shortenModelName. by apply Nat.leb_le in Hle as ->.
  - intros Hgt. unfold shortenModelName.
    destruct (Nat.leb_spec (length model) 25) as [Hle|_]; [lia|].
    rewrite drop_app_length'; [done|]. rewrite length_take. lia.
  - unfold shortenModelName at 1.
    assert ((length (shortenModelName model) <=? 25)%nat = true) as ->; [|done].
    apply Nat.leb_le. lia.
Qed.

End StatsTable.

(* ===================================================================== *)
(** * JSON tree viewer (src/components/ui/JsonViewer.tsx)                 *)
(* ===================================================================== *)

Module JsonViewer.

(** ** Values

    A JavaScript value as [parseJsonToLines] distinguishes them.  A number
    is carried by its [String(value)] text, the only thing the viewer takes
    from it; an object by its own enumerable keys in [Object.keys] order,
    each with its value; [JOther] is a value of any remaining type
    ([undefined], a function, a symbol, a bigint, which only an object
    passed in directly can hold), again by its [String(value)] text. *)
#[warnings="-register-all"]
Inductive JsonValue : Type :=
| JNull
| JBool (b : bool)
| JNumber (text : string)
| JString (s : string)
| JArray (items : list JsonValue)
| JObject (entries : list (string * JsonValue))
| JOther (text : string).

(** Induction that reaches the items of arrays and the values of objects. *)
Section JsonValue_induction.

Variable P : JsonValue -> Prop.
Hypothesis HNull : P JNull.
Hypothesis HBool : forall b, P (JBool b).
Hypothesis HNumber : forall text, P (JNumber text).
Hypothesis HString : forall s, P (JString s).
Hypothesis HArray : forall items, Forall P items -> P (JArray items).
Hypothesis HObject : forall entries, Forall (fun kv => P kv.2) entries -> P (JObject entries).
Hypothesis HOther : forall text, P (JOther text).

Fixpoint JsonValue_nested_ind (v : JsonValue) : P v :=
  match v with
  | JNull => HNull
  | JBool b => HBool b
  | JNumber text => HNumber text
  | JString s => HString s
  | JArray items =>
      HArray items
        ((fix all (l : list JsonValue) : Forall P l :=
            match l with
            | [] => @List.Forall_nil _ P
            | x :: l' => @List.Forall_cons _ P x l' (JsonValue_nested_ind x) (all l')
            end) items)
  | JObject entries =>
      HObject entries
        ((fix all (l : list (string * JsonValue)) : Forall (fun kv => P kv.2) l :=
            match l with
            | [] => @List.Forall_nil _ (fun kv => P kv.2)
            | kv :: l' =>
                @List.Forall_cons _ (fun kv => P kv.2) kv l'
                  (JsonValue_nested_ind kv.2) (all l')
            end) entries)
  | JOther text => HOther text
  end.

End JsonValue_induction.

(** ** Tokens and escaping *)

(** A string that is one double quote. *)
Definition DQ : string := String dquote EmptyString.

(** [s.replace(/c/g, by)] for a single character [c]. *)
Fixpoint replaceAll (c : ascii) (by_ : string) (s : string) : string :=
  match s with
  | EmptyString => EmptyString
  | String a rest =>
      if Ascii.eqb a c then by_ +:+ replaceAll c by_ rest
      else String a (replaceAll c by_ rest)
  end.

Definition escapeHtml (value : string) : string :=
  replaceAll dquote "&quot;"
    (replaceAll ">" "&gt;"
       (replaceAll "<" "&lt;"
          (replaceAll "&" "&amp;" value))).

Inductive TokenType : Type :=
| TKey | TString | TNumber | TBoolean | TNull | TBracket | TPunctuation | TEllipsis.

Definition classMap (type : TokenType) : string :=
  match type with
  | TKey => "token-key"
  | TString => "token-string"
  | TNumber => "token-number"
  | TBoolean => "token-boolean"
  | TNull => "token-null"
  | TBracket => "token-bracket"
  | TPunctuation => "token-punctuation"
  | TEllipsis => "token-ellipsis"
  end.

Definition SPAN_OPEN : string := "<span class=" +:+ DQ.
Definition SPAN_CLOSE : string := "</span>".

Definition getTokenHtml (value : string) (type : TokenType) : string :=
  SPAN_OPEN +:+ classMap type +:+ DQ +:+ ">" +:+ escapeHtml value +:+ SPAN_CLOSE.

(** ** Lines *)

Record JsonLine : Type := mkLine {
  id : nat;
  lineNumber : nat;
  indent : nat;
  html : string;
  canFold : bool;
  blockId : string;
  blockEnd : option nat;
  collapsedInfo : option string;
  closingBracket : option string;
  trailingComma : option string;
}.

(** The variables of [parseJsonToLines] that [processValue] updates:
    [result], [lineNumber] (named [lineNumberVar] here, next to the field
    of the same name) and [blockIdCounter]. *)
Record ParseState : Type := mkState {
  result : list JsonLine;
  lineNumberVar : nat;
  blockIdCounter : nat;
}.

(** [`block-${blockIdCounter++}`]. *)
Definition blockName (n : nat) : string := "block-" +:+ pretty n.

Definition getBlockId (st : ParseState) : string * ParseState :=
  (blockName (blockIdCounter st),
   mkState (result st) (lineNumberVar st) (S (blockIdCounter st))).

(** [result.push] of a line that cannot fold. *)
Definition pushLine (indent : nat) (html : string) (st : ParseState) : ParseState :=
  mkState
    (result st ++
       [{| id := length (result st); lineNumber := lineNumberVar st;
           indent := indent; html := html; canFold := false; blockId := "";
           blockEnd := None; collapsedInfo := None; closingBracket := None;
           trailingComma := None |}])
    (S (lineNumberVar st)) (blockIdCounter st).

(** [result.push] of the first line of a block. *)
Definition pushFold (indent : nat) (html blockId collapsedInfo closingBracket
                     trailingComma : string) (st : ParseState) : ParseState :=
  mkState
    (result st ++
       [{| id := length (result st); lineNumber := lineNumberVar st;
           indent := indent; html := html; canFold := true; blockId := blockId;
           blockEnd := None; collapsedInfo := Some collapsedInfo;
           closingBracket := Some closingBracket;
           trailingComma := Some trailingComma |}])
    (S (lineNumberVar st)) (blockIdCounter st).

Definition withBlockEnd (e : nat) (l : JsonLine) : JsonLine :=
  {| id := id l; lineNumber := lineNumber l; indent := indent l; html := html l;
     canFold := canFold l; blockId := blockId l; blockEnd := Some e;
     collapsedInfo := collapsedInfo l; closingBracket := closingBracket l;
     trailingComma := trailingComma l |}.

(** [result[startLine].blockEnd = result.length - 1]. *)
Definition setBlockEnd (startLine : nat) (st : ParseState) : ParseState :=
  mkState (alter (withBlockEnd (length (result st) - 1)) startLine (result st))
          (lineNumberVar st) (blockIdCounter st).

(** [array.forEach((item, idx) => ...)] for a callback that updates a
    state. *)
Section ForEach.

Context {A St : Type}.
Variable callback : A -> nat -> St -> St.

Fixpoint forEachFrom (idx : nat) (l : list A) (st : St) : St :=
  match l with
  | [] => st
  | item :: rest => forEachFrom (S idx) rest (callback item idx st)
  end.

Definition forEach (l : list A) (st : St) : St := forEachFrom 0 l st.

End ForEach.

Fixpoint processValue (value : JsonValue) (indent : nat) (isLast : bool)
  (keyPrefix : string) (st : ParseState) {struct value} : ParseState :=
  let comma := if isLast then "" else "," in
  match value with
  | JNull =>
      pushLine indent (keyPrefix +:+ getTokenHtml "null" TNull +:+ comma) st
  | JBool b =>
      pushLine indent
        (keyPrefix +:+ getTokenHtml (if b then "true" else "false") TBoolean +:+ comma) st
  | JNumber text =>
      pushLine indent (keyPrefix +:+ getTokenHtml text TNumber +:+ comma) st
  | JString s =>
      pushLine indent (keyPrefix +:+ getTokenHtml (DQ +:+ s +:+ DQ) TString +:+ comma) st
  | JArray items =>
      if (length items =? 0)%nat then
        pushLine indent (keyPrefix +:+ getTokenHtml "[]" TBracket +:+ comma) st
      else
        let '(blockId, st) := getBlockId st in
        let startLine := length (result st) in
        let st := pushFold indent (keyPrefix +:+ getTokenHtml "[" TBracket) blockId
                    (pretty (length items) +:+ " items") "]" comma st in
        let st := forEach
                    (fun item idx st =>
                       processValue item (S indent) (idx =? length items - 1)%nat "" st)
                    items st in
        let st := pushLine indent (getTokenHtml "]" TBracket +:+ comma) st in
        setBlockEnd startLine st
  | JObject entries =>
      if (length entries =? 0)%nat then
        pushLine indent (keyPrefix +:+ getTokenHtml "{}" TBracket +:+ comma) st
      else
        let '(blockId, st) := getBlockId st in
        let startLine := length (result st) in
        let st := pushFold indent (keyPrefix +:+ getTokenHtml "{" TBracket) blockId
                    (pretty (length entries) +:+ " keys") "}" comma st in
        let st := forEach
                    (fun (entry : string * JsonValue) idx st =>
                       let prefix := getTokenHtml (DQ +:+ entry.1 +:+ DQ) TKey
                                     +:+ getTokenHtml ": " TPunctuation in
                       processValue entry.2 (S indent) (idx =? length entries - 1)%nat
                         prefix st)
                    entries st in
        let st := pushLine indent (getTokenHtml "}" TBracket +:+ comma) st in
        setBlockEnd startLine st
  | JOther text =>
      pushLine indent (keyPrefix +:+ getTokenHtml text TString +:+ comma) st
  end.

Definition parseJsonToLines (data : JsonValue) : list JsonLine :=
  result (processValue data 0 true "" (mkState [] 1 0)).

(** [isPlainObject]: a non-null object whose class tag is [Object].  The
    objects of the model are the plain ones ([JSON.parse] makes no others,
    and the prop's type [Record<string, unknown>] asks for them). *)
Definition isPlainObject (value : JsonValue) : bool :=
  match value with
  | JObject _ => true
  | _ => false
  end.

(** [Object.keys(value)] of an object. *)
Definition keys (value : JsonValue) : list string :=
  match value with
  | JObject entries => entries.*1
  | _ => []
  end.

(** ** Folding *)

(** [for (let idx = start; ...; idx++) hiddenLineIds.add(idx)], run [n]
    times. *)
Fixpoint addIds (n : nat) (idx : nat) (hiddenLineIds : gset nat) : gset nat :=
  match n with
  | O => hiddenLineIds
  | S n' => addIds n' (S idx) (hiddenLineIds ∪ {[idx]})
  end.

(** The body of [effectiveCollapsedBlocks.forEach]. *)
Definition hideBlock (lines : list JsonLine) (blockId_ : string)
  (hiddenLineIds : gset nat) : gset nat :=
  match List.find (fun l => canFold l && bool_decide (blockId l = blockId_)) lines with
  | None => hiddenLineIds
  | Some foldStart =>
      match blockEnd foldStart with
      | None => hiddenLineIds
      | Some stop => addIds (stop - (id foldStart + 1)) (id foldStart + 1) hiddenLineIds
      end
  end.

(** The set [hiddenLineIds] after the [forEach] over the collapsed blocks.
    (A JavaScript [Set] is visited in insertion order; [hideBlock] only adds
    elements, so the order does not show in the result.) *)
Definition hiddenLineIds (lines : list JsonLine) (collapsed : gset string) : gset nat :=
  set_fold (hideBlock lines) ∅ collapsed.

(** [toggleFold], as the function it passes to [setCollapsedBlocks]. *)
Definition toggleFold (blockId_ : string) (prev : gset string) : gset string :=
  if bool_decide (blockId_ = "") then prev
  else if bool_decide (blockId_ ∈ prev) then prev ∖ {[blockId_]}
  else prev ∪ {[blockId_]}.

(** ** The component *)

(** The platform functions the component calls: [String.prototype.trim]
    and [JSON.parse] ([None] when it throws). *)
Class Runtime : Type := mkRuntime {
  trim : string -> string;
  JSON_parse : string -> option JsonValue;
}.

(** The prop [data: string | Record<string, unknown> | null | undefined]. *)
Inductive Data : Type :=
| DNull
| DUndefined
| DString (s : string)
| DObject (value : JsonValue).

Inductive Normalized : Type :=
| NEmpty
| NText (value : string)
| NJson (value : JsonValue).

(** A rendered line of the tree. *)
Record Row : Type := mkRow {
  line : JsonLine;
  isCollapsed : bool;
  displayHtml : string;
}.

(** What the component returns: the empty placeholder, the raw text with
    the warning banner above it when there is a message, or the tree. *)
Inductive View : Type :=
| VEmpty (emptyText : string)
| VRaw (warning : option string) (text : string)
| VTree (rows : list Row).

Definition DEFAULT_EMPTY_TEXT : string := "无数据".

Section Component.

Context `{Runtime}.

Definition normalized (data : Data) : Normalized :=
  match data with
  | DNull | DUndefined => NEmpty
  | DString s =>
      let trimmed := trim s in
      if bool_decide (trimmed = "") then NEmpty
      else match JSON_parse trimmed with
           | Some parsed => NJson parsed
           | None => NText s
           end
  | DObject value => NJson value
  end.

Definition parseErrorMessage (data : Data) : option string :=
  match data with
  | DString s =>
      let trimmed := trim s in
      if bool_decide (trimmed = "") then None
      else match JSON_parse trimmed with
           | Some _ => None
           | None => Some "invalid JSON"
           end
  | _ => None
  end.

Definition lines (n : Normalized) : list JsonLine :=
  match n with
  | NJson value => parseJsonToLines value
  | _ => []
  end.

Definition effectiveCollapsedBlocks (n : Normalized) (collapsedBlocks : gset string)
  : gset string :=
  match n with
  | NJson _ => collapsedBlocks
  | _ => ∅
  end.

Definition visibleLines (n : Normalized) (collapsedBlocks : gset string) : list JsonLine :=
  match n with
  | NJson _ =>
      let hidden := hiddenLineIds (lines n) (effectiveCollapsedBlocks n collapsedBlocks) in
      filter (fun l => id l ∉ hidden) (lines n)
  | _ => []
  end.

(** The body of [visibleLines.map]. *)
Definition renderLine (collapsed : gset string) (l : JsonLine) : Row :=
  let isCollapsed := canFold l && bool_decide (blockId l ∈ collapsed) in
  let displayHtml :=
    if isCollapsed then
      html l +:+ getTokenHtml " … " TEllipsis
        +:+ getTokenHtml (default "" (closingBracket l)) TBracket
        +:+ default "" (trailingComma l)
    else html l in
  mkRow l isCollapsed displayHtml.

(** The component, given the [collapsedBlocks] state. *)
Definition JsonViewer (data : Data) (emptyText : option string)
  (collapsedBlocks : gset string) : View :=
  let emptyText := default DEFAULT_EMPTY_TEXT emptyText in
  let n := normalized data in
  match n with
  | NEmpty => VEmpty emptyText
  | NText value =>
      VRaw (match parseErrorMessage data with
            | Some m => if bool_decide (m = "") then None else Some m
            | None => None
            end) value
  | NJson value =>
      let contentIsEmptyObject := isPlainObject value && (length (keys value) =? 0)%nat in
      if contentIsEmptyObject then VEmpty emptyText
      else VTree (renderLine (effectiveCollapsedBlocks n collapsedBlocks)
                    <$> visibleLines n collapsedBlocks)
  end.

End Component.

Local Open Scope nat_scope.

(** ** The earlier plain viewer (src/unnamed/part_001)

    The viewer before the tree: it formats the value with
    [JSON.stringify] and decorates the text line by line. *)

(** The longest prefix of characters that satisfy [p], and the rest. *)
Fixpoint takeWhile (p : ascii -> bool) (s : string) : string * string :=
  match s with
  | String c s' =>
      if p c then let '(taken, rest) := takeWhile p s' in (String c taken, rest)
      else (EmptyString, s)
  | EmptyString => (EmptyString, EmptyString)
  end.

(** [s.replace(re, ...)] for a global regular expression that matches no
    empty text: the text is read from the left; where the expression
    matches, [matchAt] gives the replacement and the length of the match,
    and reading goes on behind the match; elsewhere the character is
    kept.  [skip] counts the characters of a match still to pass over. *)
Fixpoint replaceRegex (matchAt : string -> option (string * nat)) (skip : nat)
  (s : string) {struct s} : string :=
  match s with
  | EmptyString => EmptyString
  | String c s' =>
      match skip with
      | S skip' => replaceRegex matchAt skip' s'
      | O =>
          match matchAt s with
          | Some (replacement, len) => replacement +:+ replaceRegex matchAt (pred len) s'
          | None => String c (replaceRegex matchAt 0 s')
          end
      end
  end.

Definition notQuote (c : ascii) : bool := negb (Ascii.eqb c dquote).

(** [\d]. *)
Definition isDecimalDigit (c : ascii) : bool :=
  let n := nat_of_ascii c in (48 <=? n)%nat && (n <=? 57)%nat.

Definition span (className text : string) : string :=
  SPAN_OPEN +:+ className +:+ DQ +:+ ">" +:+ text +:+ SPAN_CLOSE.

(** The key pattern (line 15) at the start of [s]: a quote, one or more
    characters that are no quote, a quote and a colon; the replacement puts
    the quoted key into a span of class json-key and keeps the colon. *)
Definition matchKey (s : string) : option (string * nat) :=
  match s with
  | String q s1 =>
      if Ascii.eqb q dquote then
        let '(key, rest) := takeWhile notQuote s1 in
        match key, rest with
        | String _ _, String _ (String ":" _) =>
            Some (span "json-key" (DQ +:+ key +:+ DQ) +:+ ":", String.length key + 3)
        | _, _ => None
        end
      else None
  | EmptyString => None
  end.

(** The string pattern (line 20): a colon, a space, a quote, any number
    of characters that are no quote, and a quote; the quoted text goes
    into a span of class json-string. *)
Definition matchStringValue (s : string) : option (string * nat) :=
  match s with
  | String ":" (String " " (String q s1)) =>
      if Ascii.eqb q dquote then
        let '(text, rest) := takeWhile notQuote s1 in
        match rest with
        | String _ _ =>
            Some (": " +:+ span "json-string" (DQ +:+ text +:+ DQ), String.length text + 4)
        | EmptyString => None
        end
      else None
  | _ => None
  end.

(** The number pattern (line 25): a colon, a space, then an optional
    minus sign, one or more digits, an optional point and any number of
    digits, which go into a span of class json-number. *)
Definition matchNumber (s : string) : option (string * nat) :=
  match s with
  | String ":" (String " " s1) =>
      let '(sign, s2) :=
        match s1 with
        | String "-" s2 => ("-"%string, s2)
        | _ => (EmptyString, s1)
        end in
      let '(whole, s3) := takeWhile isDecimalDigit s2 in
      match whole with
      | EmptyString => None
      | _ =>
          let '(point, s4) :=
            match s3 with
            | String "." s4 => ("."%string, s4)
            | _ => (EmptyString, s3)
            end in
          let '(fraction, _) := takeWhile isDecimalDigit s4 in
          let number := sign +:+ whole +:+ point +:+ fraction in
          Some (": " +:+ span "json-number" number, String.length number + 2)
      end
  | _ => None
  end.

(** A pattern that is [: ] and one of the [words], tried in order. *)
Fixpoint matchWord (className : string) (words : list string) (s : string)
  : option (string * nat) :=
  match words with
  | [] => None
  | word :: words' =>
      if String.prefix (": " +:+ word) s
      then Some (": " +:+ span className word, String.length word + 2)
      else matchWord className words' s
  end.

(** The five replacements of a line, in the order of the source. *)
Definition highlightLine (line : string) : string :=
  let highlighted := replaceRegex matchKey 0 line in
  let highlighted := replaceRegex matchStringValue 0 highlighted in
  let highlighted := replaceRegex matchNumber 0 highlighted in
  let highlighted := replaceRegex (matchWord "json-boolean" ["true"; "false"]) 0 highlighted in
  let highlighted := replaceRegex (matchWord "json-null" ["null"]) 0 highlighted in
  highlighted.

(** [highlightJson]: the markup of each line, which goes into a
    [div.json-line] through [dangerouslySetInnerHTML]. *)
Definition highlightJson (jsonStr : string) : list string :=
  highlightLine <$> Timeline.split "010" jsonStr.

(** The elements a component returns: an element with its class and
    children, an element filled through [dangerouslySetInnerHTML], or
    text. *)
#[warnings="-register-all"]
Inductive Node : Type :=
| Element (tag className : string) (children : list Node)
| InnerHtml (tag className html : string)
| TextNode (text : string).


Section Legacy.

Context `{Runtime}.

(** [JSON.stringify(value, null, 2)], a platform function as [JSON.parse]
    is.  It does not throw on the values of the model (they have no cycle
    and no BigInt), so the outer [catch] of [content] is not reached. *)
Variable JSON_stringify : JsonValue -> string.

(** [content]; [None] is [null]. *)
Definition legacyContent (data : Data) : option string :=
  match data with
  | DNull | DUndefined => None
  | DString s =>
      if bool_decide (s = "") then None
      else match JSON_parse s with
           | Some parsed => Some (JSON_stringify parsed)
           | None => Some s
           end
  | DObject value => Some (JSON_stringify value)
  end.

(** [isJson]: the trimmed content starts with an opening brace or
    bracket. *)
Definition legacyIsJson (content : string) : bool :=
  String.prefix "{" (trim content) || String.prefix "[" (trim content).

(** The [pre] with the content: decorated lines, or the text as it is. *)
Definition legacyCode (content : string) : Node :=
  Element "div" "json-viewer"
    [Element "pre" "json-pre"
       [Element "code" "json-code"
          (if legacyIsJson content
           then InnerHtml "div" "json-line" <$> highlightJson content
           else [TextNode content])]].

Definition legacyJsonViewer (data : Data) (emptyText : option string) : Node :=
  let emptyText := default DEFAULT_EMPTY_TEXT emptyText in
  match legacyContent data with
  | None => Element "div" "json-viewer-empty" [TextNode emptyText]
  | Some content =>
      if bool_decide (content = "")
      then Element "div" "json-viewer-empty" [TextNode emptyText]
      else legacyCode content
  end.

End Legacy.

(** ** Vocabulary of the properties *)

(** The markup of the line that closes the block a line opens: the
    closing bracket as a token, then the comma of the block. *)
Definition closingHtml (l : JsonLine) : option string :=
  cb ← closingBracket l; cm ← trailingComma l; Some (getTokenHtml cb TBracket +:+ cm).

(** In the lines [new] that start at position [off] of the list, the line
    at [i] opens a block whose closing bracket is the line its [blockEnd]
    names. *)
Definition closes (new : list JsonLine) (off i : nat) (l : JsonLine) : Prop :=
  exists e cl, blockEnd l = Some e /\ off + i < e /\ new !! (e - off) = Some cl /\
    canFold cl = false /\ indent cl = indent l /\ closingHtml l = Some (html cl).

(** The lines [new], which start at position [off] and were made while the
    block counter went from [c] to [c']: every [id] is the position, every
    foldable line has a block number of its own in that range and a closing
    line, and block numbers grow along the list. *)
Definition seg_ok (off c c' : nat) (new : list JsonLine) : Prop :=
  (forall i l, new !! i = Some l -> id l = off + i) /\
  (forall i l, new !! i = Some l -> canFold l = true ->
     (exists k, c <= k < c' /\ blockId l = blockName k) /\ closes new off i l) /\
  (forall i j l l' k k', i < j -> new !! i = Some l -> new !! j = Some l' ->
     canFold l = true -> canFold l' = true ->
     blockId l = blockName k -> blockId l' = blockName k' -> k < k').

(** [st'] comes from [st] by appending well-shaped lines. *)
Definition extends (st st' : ParseState) : Prop :=
  exists new, result st' = result st ++ new /\
    blockIdCounter st <= blockIdCounter st' /\
    seg_ok (length (result st)) (blockIdCounter st) (blockIdCounter st') new.

(** The line list of a value. *)
Definition well_shaped (ls : list JsonLine) : Prop := exists c, seg_ok 0 0 c ls.

(** [b] is the block whose first line is line [s] and whose closing line is
    line [e]. *)
Definition block_at (ls : list JsonLine) (b : string) (s e : nat) : Prop :=
  exists l, ls !! s = Some l /\ canFold l = true /\ blockId l = b /\ blockEnd l = Some e.









(** ASCII white space: space, tab, line feed, vertical tab, form feed,
    carriage return. *)
Definition isSpace (a : ascii) : bool :=
  Ascii.eqb a " " || Ascii.eqb a "009" || Ascii.eqb a "010" || Ascii.eqb a "011"
  || Ascii.eqb a "012" || Ascii.eqb a "013".

Fixpoint trimStart (s : string) : string :=
  match s with
  | EmptyString => EmptyString
  | String a rest => if isSpace a then trimStart rest else s
  end.

Fixpoint trimEnd (s : string) : string :=
  match s with
  | EmptyString => EmptyString
  | String a rest =>
      match trimEnd rest with
      | EmptyString => if isSpace a then EmptyString else String a EmptyString
      | rest' => String a rest'
      end
  end.

Definition exampleParse (text : string) : option JsonValue :=
  if bool_decide (text = "{}") then Some (JObject [])
  else if bool_decide (text = "[]") then Some (JArray [])
  else if bool_decide (text = "null") then Some JNull
  else if bool_decide (text = "[true]") then Some (JArray [JBool true])
  else None.

(** A runtime for the examples.  [trim] removes the ASCII white space at
    both ends.  [JSON_parse] knows the few JSON texts of [exampleParse] and
    rejects every other text; of those, the examples only use texts that
    are not JSON. *)
Definition exampleRuntime : Runtime :=
  {| trim := fun s => trimEnd (trimStart s); JSON_parse := exampleParse |}.

(** A line feed. *)
Definition NL : string := String "010" EmptyString.

(** [JSON.stringify(value, null, 2)] of the values [exampleParse] makes (the
    empty text stands for every other value, which the examples do not
    use). *)
Definition exampleStringify (value : JsonValue) : string :=
  match value with
  | JObject [] => "{}"
  | JArray [] => "[]"
  | JNull => "null"
  | JArray [JBool true] => "[" +:+ NL +:+ "  true" +:+ NL +:+ "]"
  | _ => ""
  end.

(** The value of [{"a": [1, "x<y"], "b": {"c": null}, "d": []}]. *)
Definition exampleValue : JsonValue :=
  JObject [("a", JArray [JNumber "1"; JString "x<y"]);
           ("b", JObject [("c", JNull)]);
           ("d", JArray [])].

(** The number of lines a value takes: one for a scalar and for an empty
    array or object, and otherwise the lines of the members between the
    two bracket lines. *)
Fixpoint lineCount (v : JsonValue) : nat :=
  match v with
  | JArray items =>
      if length items =? 0 then 1 else 2 + list_sum (map lineCount items)
  | JObject entries =>
      if length entries =? 0 then 1
      else 2 + list_sum (map (fun entry : string * JsonValue => lineCount entry.2) entries)
  | _ => 1
  end.

(** The number of arrays and objects of a value that are not empty. *)
Fixpoint blockCount (v : JsonValue) : nat :=
  match v with
  | JArray items =>
      if length items =? 0 then 0 else 1 + list_sum (map blockCount items)
  | JObject entries =>
      if length entries =? 0 then 0
      else 1 + list_sum (map (fun entry : string * JsonValue => blockCount entry.2) entries)
  | _ => 0
  end.

(** In the lines [new], which start at position [off] and belong to a
    value at depth [ind]: no line is indented less than [ind], a block ends
    within the lines, and the lines strictly inside a block are indented
    more than its first line. *)
Definition deep_ok (off ind : nat) (new : list JsonLine) : Prop :=
  (forall i l, new !! i = Some l -> ind <= indent l) /\
  (forall i l e, new !! i = Some l -> blockEnd l = Some e -> e < off + length new) /\
  (forall i j l l' e, new !! i = Some l -> blockEnd l = Some e -> i < j -> off + j < e ->
     new !! j = Some l' -> indent l < indent l').

(** [st'] comes from [st] by appending [n] lines with [b] blocks among
    them, numbered on from [lineNumberVar st], for a value at depth [ind]. *)
Definition grows (ind n b : nat) (st st' : ParseState) : Prop :=
  exists new, result st' = result st ++ new /\ length new = n /\
    lineNumberVar st' = lineNumberVar st + n /\
    blockIdCounter st' = blockIdCounter st + b /\
    length (filter (fun l => canFold l = true) new) = b /\
    (forall i l, new !! i = Some l -> lineNumber l = lineNumberVar st + i) /\
    deep_ok (length (result st)) ind new.

(** ** Properties: the shape of the line list *)

Example escapeHtml_tag :
  escapeHtml ("<a href=" +:+ DQ +:+ "x" +:+ DQ +:+ ">&amp;</a>")
    = "&lt;a href=&quot;x&quot;&gt;&amp;amp;&lt;/a&gt;".
Proof. reflexivity. Qed.

Example parseJsonToLines_example :
  (fun l => (id l, indent l, canFold l, blockId l, blockEnd l))
    <$> parseJsonToLines exampleValue
  = [(0, 0, true, "block-0", Some 9); (1, 1, true, "block-1", Some 4);
     (2, 2, false, "", None); (3, 2, false, "", None); (4, 1, false, "", None);
     (5, 1, true, "block-2", Some 7); (6, 2, false, "", None);
     (7, 1, false, "", None); (8, 1, false, "", None); (9, 0, false, "", None)].
Proof. reflexivity. Qed.

Example parseJsonToLines_string_line :
  html <$> parseJsonToLines (JString "x<y")
    = [SPAN_OPEN +:+ "token-string" +:+ DQ +:+ ">&quot;x&lt;y&quot;</span>"].
Proof. reflexivity. Qed.

Lemma blockName_inj k k' : blockName k = blockName k' -> k = k'.
Proof.
  unfold blockName. intros Hk. apply String.app_inj in Hk.
  by apply (inj pretty) in Hk.
Qed.

Lemma blockName_nonempty k : blockName k <> "".
Proof. unfold blockName. discriminate. Qed.

Lemma closes_app_l a b off i l : closes a off i l -> closes (a ++ b) off i l.
Proof.
  intros (e & cl & He & Hlt & Hcl & Hf & Hi & Hh). exists e, cl.
  repeat split; try done. by apply lookup_app_l_Some.
Qed.

Lemma closes_app_r a b off i l :
  closes b (off + length a) i l -> closes (a ++ b) off (length a + i) l.
Proof.
  intros (e & cl & He & Hlt & Hcl & Hf & Hi & Hh). exists e, cl.
  repeat split; try done; [lia|].
  rewrite lookup_app_r by lia. by replace (e - off - length a) with (e - (off + length a)) by lia.
Qed.

Lemma seg_ok_nil off c : seg_ok off c c [].
Proof. repeat split; intros; by simplify_list_eq. Qed.

Lemma seg_ok_app off c c1 c2 a b :
  c <= c1 <= c2 ->
  seg_ok off c c1 a -> seg_ok (off + length a) c1 c2 b -> seg_ok off c c2 (a ++ b).
Proof.
  intros Hc (Ha1 & Ha2 & Ha3) (Hb1 & Hb2 & Hb3). split; [|split].
  - intros i l Hi. apply lookup_app_Some in Hi as [Hi|[Hge Hi]].
    + by apply Ha1.
    + rewrite (Hb1 _ _ Hi). lia.
  - intros i l Hi Hf. apply lookup_app_Some in Hi as [Hi|[Hge Hi]].
    + destruct (Ha2 i l Hi Hf) as [(k & Hk & Hid) Hcl]. split.
      * exists k. split; [lia|done].
      * by apply closes_app_l.
    + destruct (Hb2 _ l Hi Hf) as [(k & Hk & Hid) Hcl]. split.
      * exists k. split; [lia|done].
      * replace i with (length a + (i - length a)) by lia. by apply closes_app_r.
  - intros i j l l' k k' Hij Hi Hj Hf Hf' Hk Hk'.
    apply lookup_app_Some in Hi as [Hi|[Hgi Hi]];
      apply lookup_app_Some in Hj as [Hj|[Hgj Hj]].
    + by eapply (Ha3 i j).
    + destruct (Ha2 i l Hi Hf) as [(k0 & Hk0 & Hid) _].
      destruct (Hb2 _ l' Hj Hf') as [(k1 & Hk1 & Hid') _].
      rewrite Hk in Hid. apply blockName_inj in Hid.
      rewrite Hk' in Hid'. apply blockName_inj in Hid'. lia.
    + apply lookup_lt_Some in Hj. lia.
    + eapply (Hb3 (i - length a) (j - length a)); eauto. lia.
Qed.

Lemma seg_ok_leaf off c l :
  id l = off -> canFold l = false -> seg_ok off c c [l].
Proof.
  intros Hid Hf. split; [|split].
  - intros [|i] x Hx; simplify_list_eq. lia.
  - intros [|i] x Hx Hfx; simplify_list_eq; congruence.
  - intros [|i] [|j] x x' k k' Hij Hx Hx'; simplify_list_eq; lia.
Qed.

(** A block: its first line, then the lines inside and the closing line. *)
Lemma seg_ok_block off c c' start rest cl :
  S c <= c' ->
  seg_ok (S off) (S c) c' rest ->
  id start = off -> canFold start = true -> blockId start = blockName c ->
  blockEnd start = Some (off + length rest) ->
  last rest = Some cl -> canFold cl = false -> indent cl = indent start ->
  closingHtml start = Some (html cl) ->
  seg_ok off c c' (start :: rest).
Proof.
  intros Hc (Hr1 & Hr2 & Hr3) Hid Hf Hb He Hlast Hfc Hic Hhtml.
  assert (Hlen : 0 < length rest) by (destruct rest; [done|simpl; lia]).
  split; [|split].
  - intros [|i] l Hl; simpl in Hl.
    + injection Hl as <-. lia.
    + rewrite (Hr1 _ _ Hl). lia.
  - intros [|i] l Hl Hfl; simpl in Hl.
    + injection Hl as <-.
      split. { exists c. split; [lia|done]. }
      exists (off + length rest), cl. repeat split; try done; [lia|].
      replace (off + length rest - off) with (S (length rest - 1)) by lia.
      simpl. rewrite last_lookup in Hlast.
      by replace (length rest - 1) with (pred (length rest)) by lia.
    + destruct (Hr2 i l Hl Hfl)
        as [(k & Hk & Hidk) (e & x & Hex & Hlt & Hx & Hfx & Hix & Hhx)].
      split. { exists k. split; [lia|done]. }
      exists e, x. repeat split; try done; [lia|].
      replace (e - off) with (S (e - S off)) by lia. done.
  - intros [|i] [|j] l l' k k' Hij Hl Hl' Hfl Hfl' Hk Hk'; simpl in Hl, Hl'; try lia.
    + injection Hl as <-.
      destruct (Hr2 j l' Hl' Hfl') as [(k1 & Hk1 & Hid1) _].
      rewrite Hk in Hb. apply blockName_inj in Hb.
      rewrite Hk' in Hid1. apply blockName_inj in Hid1. lia.
    + eapply (Hr3 i j); eauto. lia.
Qed.

Lemma extends_refl st : extends st st.
Proof.
  exists []. rewrite app_nil_r. split; [done|]. split; [done|]. apply seg_ok_nil.
Qed.

Lemma extends_trans st1 st2 st3 : extends st1 st2 -> extends st2 st3 -> extends st1 st3.
Proof.
  intros (n1 & H1 & Hc1 & Hs1) (n2 & H2 & Hc2 & Hs2). exists (n1 ++ n2).
  split; [by rewrite H2, H1, app_assoc|]. split; [lia|].
  eapply seg_ok_app; [|exact Hs1|]; [lia|].
  by rewrite H1, length_app in Hs2.
Qed.

Lemma pushLine_extends indent html st : extends st (pushLine indent html st).
Proof.
  eexists. split; [reflexivity|]. split; [done|]. by apply seg_ok_leaf.
Qed.

Lemma forEachFrom_extends {A} (callback : A -> nat -> ParseState -> ParseState) items :
  Forall (fun item => forall idx st, extends st (callback item idx st)) items ->
  forall idx st, extends st (forEachFrom callback idx items st).
Proof.
  induction 1 as [|item items Hitem _ IH]; intros idx st; simpl.
  - apply extends_refl.
  - eapply extends_trans; [apply Hitem|apply IH].
Qed.

Lemma alter_middle {A} (f : A -> A) (l1 : list A) (x : A) (l2 : list A) :
  alter f (length l1) (l1 ++ x :: l2) = l1 ++ f x :: l2.
Proof. induction l1 as [|y l1 IH]; simpl; [done|]. by f_equal. Qed.

Lemma block_extends st indent html info closing comma
  (inside : ParseState -> ParseState) :
  (forall st', extends st' (inside st')) ->
  extends st
    (let '(blockId0, st0) := getBlockId st in
     setBlockEnd (length (result st0))
       (pushLine indent (getTokenHtml closing TBracket +:+ comma)
          (inside (pushFold indent html blockId0 info closing comma st0)))).
Proof.
  intros Hinside. destruct st as [res ln c]. cbn [getBlockId result blockIdCounter lineNumberVar].
  set (st1 := mkState res ln (S c)).
  set (st2 := pushFold indent html (blockName c) info closing comma st1).
  destruct (Hinside st2) as (kids & Hres & Hcnt & Hseg).
  set (st3 := inside st2) in *.
  set (start := mkLine (length res) ln indent html true (blockName c) None
                  (Some info) (Some closing) (Some comma)) in *.
  set (closeHtml := getTokenHtml closing TBracket +:+ comma).
  set (cl := mkLine (length (result st3)) (lineNumberVar st3) indent closeHtml false ""
               None None None None).
  set (e := length res + S (length kids)).
  change (result st2) with (res ++ [start]) in Hres, Hseg.
  change (blockIdCounter st2) with (S c) in Hcnt, Hseg.
  exists (withBlockEnd e start :: kids ++ [cl]).
  assert (Hlen3 : length (result st3) = S (length res) + length kids).
  { rewrite Hres, !length_app. simpl. lia. }
  split; [|split].
  - assert (Hr4 : result (pushLine indent closeHtml st3) = res ++ start :: kids ++ [cl]).
    { unfold pushLine. cbn [result]. fold cl. by rewrite Hres, <- !app_assoc. }
    unfold setBlockEnd. cbn [result]. rewrite Hr4.
    replace (length (res ++ start :: kids ++ [cl]) - 1) with e
      by (rewrite length_app; simpl; rewrite length_app; simpl; unfold e; lia).
    apply alter_middle.
  - cbn [blockIdCounter setBlockEnd pushLine]. lia.
  - cbn [blockIdCounter setBlockEnd pushLine result].
    eapply (seg_ok_block _ _ _ _ _ cl); try done.
    + rewrite length_app in Hseg. simpl in Hseg.
      replace (length res + 1) with (S (length res)) in Hseg by lia.
      eapply seg_ok_app; [|exact Hseg|]; [lia|].
      apply seg_ok_leaf; [|done]. simpl. lia.
    + simpl. f_equal. unfold e. rewrite length_app. simpl. lia.
    + by rewrite last_snoc.
Qed.

Lemma processValue_extends value :
  forall indent isLast keyPrefix st,
    extends st (processValue value indent isLast keyPrefix st).
Proof.
  induction value as [|b|text|s|items IH|entries IH|text] using JsonValue_nested_ind;
    intros indent isLast keyPrefix st; cbn [processValue];
    try apply pushLine_extends.
  - destruct (length items =? 0); [apply pushLine_extends|].
    refine (block_extends st indent _ _ _ _ (forEach _ items) _).
    intros st'. unfold forEach. apply forEachFrom_extends.
    eapply Forall_impl; [exact IH|]. intros item Hitem idx st''. apply Hitem.
  - destruct (length entries =? 0); [apply pushLine_extends|].
    refine (block_extends st indent _ _ _ _ (forEach _ entries) _).
    intros st'. unfold forEach. apply forEachFrom_extends.
    eapply Forall_impl; [exact IH|]. intros item Hitem idx st''. apply Hitem.
Qed.

Lemma parseJsonToLines_ok data :
  exists c, seg_ok 0 0 c (parseJsonToLines data).
Proof.
  destruct (processValue_extends data 0 true "" (mkState [] 1 0))
    as (new & Hres & _ & Hseg).
  unfold parseJsonToLines. rewrite Hres. simpl in *. by eexists.
Qed.
(** ** Properties: folding *)

Lemma elem_of_addIds n : forall idx acc i,
  i ∈ addIds n idx acc <-> i ∈ acc \/ idx <= i < idx + n.
Proof.
  induction n as [|n IH]; intros idx acc i; simpl.
  - split; [auto|]. intros [?|?]; [done|lia].
  - rewrite IH, elem_of_union, elem_of_singleton. split.
    + intros [[?| ->]|?]; [by left|right; lia|right; lia].
    + intros [?|?]; [by left; left|].
      destruct (decide (i = idx)) as [-> |]; [left; by right|right; lia].
Qed.

Lemma well_shaped_id ls i x : well_shaped ls -> ls !! i = Some x -> id x = i.
Proof. intros (c & H1 & _ & _) Hi. by rewrite (H1 _ _ Hi). Qed.

Lemma well_shaped_block ls s l :
  well_shaped ls -> ls !! s = Some l -> canFold l = true ->
  exists e closing, blockEnd l = Some e /\ s < e /\ ls !! e = Some closing /\
    canFold closing = false /\ indent closing = indent l /\
    closingHtml l = Some (html closing) /\ blockId l <> "".
Proof.
  intros (c & _ & H2 & _) Hs Hf.
  destruct (H2 _ _ Hs Hf) as [(k & _ & Hk) (e & cl & He & Hlt & Hcl & Hfc & Hic & Hh)].
  exists e, cl. rewrite Nat.sub_0_r in Hcl.
  split; [done|]. split; [lia|]. do 4 (split; [done|]).
  rewrite Hk. apply blockName_nonempty.
Qed.

Lemma block_at_unique ls b s e s' e' :
  well_shaped ls -> block_at ls b s e -> block_at ls b s' e' -> s = s' /\ e = e'.
Proof.
  intros (c & _ & H2 & H3) (l & Hl & Hf & Hb & He) (l' & Hl' & Hf' & Hb' & He').
  destruct (H2 _ _ Hl Hf) as [(k & _ & Hk) _].
  destruct (H2 _ _ Hl' Hf') as [(k' & _ & Hk') _].
  assert (k = k') as <- by (apply blockName_inj; congruence).
  assert (s = s') as <-.
  { destruct (Nat.lt_trichotomy s s') as [Hlt|[?|Hlt]]; [|done|].
    - pose proof (H3 _ _ _ _ _ _ Hlt Hl Hl' Hf Hf' Hk Hk'). lia.
    - pose proof (H3 _ _ _ _ _ _ Hlt Hl' Hl Hf' Hf Hk' Hk). lia. }
  split; [done|]. congruence.
Qed.

(** [Array.prototype.find] returns the first element that passes. *)
Lemma find_first {A} (f : A -> bool) (ls : list A) : forall s l,
  ls !! s = Some l -> f l = true ->
  (forall j x, j < s -> ls !! j = Some x -> f x = false) ->
  List.find f ls = Some l.
Proof.
  induction ls as [|y ls IH]; intros s l Hs Hf Hbefore; [done|].
  destruct s as [|s]; simpl in *.
  - injection Hs as ->. by rewrite Hf.
  - rewrite (Hbefore 0 y) by (done || lia).
    apply (IH s); [done|done|]. intros j x Hj Hx. apply (Hbefore (S j)); [lia|done].
Qed.

Lemma find_foldStart ls b s e :
  well_shaped ls -> block_at ls b s e ->
  exists l, List.find (fun l => canFold l && bool_decide (blockId l = b)) ls = Some l /\
    id l = s /\ blockEnd l = Some e.
Proof.
  intros Hls (l & Hl & Hf & Hb & He). exists l. split; [|split].
  - apply (find_first _ ls s); [done|by rewrite Hf, bool_decide_eq_true_2|].
    intros j x Hj Hx. destruct (canFold x) eqn:Hfx; [|done]. simpl.
    apply bool_decide_eq_false_2. intros Hbx.
    destruct (well_shaped_block ls j x Hls Hx Hfx) as (ex & _ & Hex & _).
    destruct (block_at_unique ls b s e j ex Hls) as [? _];
      [by exists l|by exists x|lia].
  - by eapply well_shaped_id.
  - done.
Qed.

Lemma find_foldStart_inv ls b l :
  well_shaped ls ->
  List.find (fun l => canFold l && bool_decide (blockId l = b)) ls = Some l ->
  exists e, block_at ls b (id l) e.
Proof.
  intros Hls Hfind. apply find_some in Hfind as [Hin Hf].
  apply andb_prop in Hf as [Hf Hb]. apply bool_decide_eq_true_1 in Hb.
  apply list_elem_of_In, list_elem_of_lookup in Hin as [s Hs].
  destruct (well_shaped_block ls s l Hls Hs Hf) as (e & _ & He & _).
  exists e, l. by rewrite (well_shaped_id ls s l Hls Hs).
Qed.

Lemma elem_of_hideBlock ls b acc i :
  well_shaped ls ->
  i ∈ hideBlock ls b acc <-> i ∈ acc \/ exists s e, block_at ls b s e /\ s < i < e.
Proof.
  intros Hls. unfold hideBlock.
  destruct (List.find _ ls) as [l|] eqn:Hfind.
  - destruct (find_foldStart_inv ls b l Hls Hfind) as (e & Hat).
    pose proof Hat as (l0 & Hl0 & Hf0 & Hb0 & He0).
    destruct (find_foldStart ls b _ e Hls Hat) as (l1 & Hfind1 & _ & He1).
    rewrite Hfind in Hfind1. injection Hfind1 as <-. rewrite He1.
    rewrite elem_of_addIds. split.
    + intros [?|Hr]; [by left|]. right. exists (id l), e. split; [done|lia].
    + intros [?|(s' & e' & Hat' & Hr)]; [by left|]. right.
      destruct (block_at_unique ls b _ _ _ _ Hls Hat Hat') as [<- <-]. lia.
  - split; [by left|]. intros [?|(s & e & Hat & _)]; [done|].
    destruct (find_foldStart ls b s e Hls Hat) as (l & Hl & _). congruence.
Qed.

Lemma elem_of_hiddenLineIds ls (collapsed : gset string) i :
  well_shaped ls ->
  i ∈ hiddenLineIds ls collapsed <->
  exists b s e, b ∈ collapsed /\ block_at ls b s e /\ s < i < e.
Proof.
  intros Hls. unfold hiddenLineIds. revert i.
  apply (set_fold_ind_L
           (fun (acc : gset nat) (X : gset string) =>
              forall i, i ∈ acc <-> exists b s e, b ∈ X /\ block_at ls b s e /\ s < i < e)).
  - intros i. split; [by rewrite elem_of_empty|].
    intros (b & _ & _ & Hb & _). by apply elem_of_empty in Hb.
  - intros b X acc Hb IH i. rewrite elem_of_hideBlock by done. rewrite IH. split.
    + intros [(b' & s & e & Hb' & Hat & Hr)|(s & e & Hat & Hr)].
      * exists b', s, e. split; [|done]. apply elem_of_union. by right.
      * exists b, s, e. split; [|done]. apply elem_of_union. left. by apply elem_of_singleton.
    + intros (b' & s & e & Hb' & Hat & Hr).
      apply elem_of_union in Hb' as [Hb'|Hb'].
      * apply elem_of_singleton in Hb' as ->. right. by exists s, e.
      * left. by exists b', s, e.
Qed.

Lemma toggleFold_twice b (collapsed : gset string) :
  toggleFold b (toggleFold b collapsed) = collapsed.
Proof.
  unfold toggleFold. destruct (bool_decide (b = "")); [done|].
  destruct (decide (b ∈ collapsed)) as [Hin|Hnin].
  - rewrite (bool_decide_eq_true_2 _ Hin).
    rewrite bool_decide_eq_false_2 by (rewrite elem_of_difference, elem_of_singleton; tauto).
    apply set_eq. intros x. rewrite elem_of_union, elem_of_difference, elem_of_singleton.
    destruct (decide (x = b)) as [-> |]; tauto.
  - rewrite (bool_decide_eq_false_2 _ Hnin).
    rewrite bool_decide_eq_true_2 by (rewrite elem_of_union, elem_of_singleton; tauto).
    apply set_eq. intros x. rewrite elem_of_difference, elem_of_union, elem_of_singleton.
    destruct (decide (x = b)) as [-> |]; tauto.
Qed.

Lemma visibleLines_none data : visibleLines (NJson data) ∅ = parseJsonToLines data.
Proof.
  unfold visibleLines, hiddenLineIds. cbn [lines effectiveCollapsedBlocks].
  rewrite set_fold_empty. induction (parseJsonToLines data) as [|x ls IH]; [done|].
  rewrite filter_cons_True by apply not_elem_of_empty. by rewrite IH.
Qed.

Lemma toggleFold_first b : b <> "" -> toggleFold b ∅ = {[b]}.
Proof.
  intros Hb. unfold toggleFold. rewrite bool_decide_eq_false_2 by done.
  rewrite bool_decide_eq_false_2 by apply not_elem_of_empty.
  by rewrite (left_id_L ∅ (∪)).
Qed.

(** With one block collapsed, the visible lines are the lines not strictly
    inside it. *)
Lemma visibleLines_one_block data s e l :
  parseJsonToLines data !! s = Some l -> canFold l = true -> blockEnd l = Some e ->
  visibleLines (NJson data) (toggleFold (blockId l) ∅) =
    filter (fun x => ~ (s < id x < e)) (parseJsonToLines data).
Proof.
  intros Hs Hf He. set (ls := parseJsonToLines data) in *.
  assert (Hls : well_shaped ls) by apply parseJsonToLines_ok.
  destruct (well_shaped_block ls s l Hls Hs Hf) as (e' & closing & He' & _ & _ & _ & _ & _ & Hne).
  assert (Hat : block_at ls (blockId l) s e) by by exists l.
  unfold visibleLines. cbn [lines effectiveCollapsedBlocks]. fold ls.
  apply list_filter_iff. intros x.
  rewrite elem_of_hiddenLineIds by done. rewrite toggleFold_first by done.
  split.
  - intros Hn Hr. apply Hn. exists (blockId l), s, e.
    split; [by apply elem_of_singleton|done].
  - intros Hn (b & s' & e'' & Hb & Hat' & Hr). apply Hn.
    apply elem_of_singleton in Hb as ->.
    by destruct (block_at_unique ls _ _ _ _ _ Hls Hat Hat') as [-> ->].
Qed.

(** C1: in the lines of any value, the line [s] that opens a block has its
    closing-bracket line [e] after it; collapsing that block hides exactly
    the lines strictly between [s] and [e] (the two stay visible, and the
    rest keep their order); unfolding it again gives back the collapsed set
    and with it the visible lines; and for any set of collapsed blocks the
    hidden lines are those strictly inside one of its blocks, so collapsing
    one more block adds exactly its inside to them. *)
Theorem fold_hides_block_interior (data : JsonValue) (s : nat) (l : JsonLine) :
  let ls := parseJsonToLines data in
  ls !! s = Some l -> canFold l = true ->
  (forall i x, ls !! i = Some x -> id x = i) /\
  exists e closing,
    blockEnd l = Some e /\ s < e /\ ls !! e = Some closing /\
    canFold closing = false /\ indent closing = indent l /\
    closingHtml l = Some (html closing) /\
    visibleLines (NJson data) (toggleFold (blockId l) ∅) =
      filter (fun x => ~ (s < id x < e)) ls /\
    l ∈ visibleLines (NJson data) (toggleFold (blockId l) ∅) /\
    closing ∈ visibleLines (NJson data) (toggleFold (blockId l) ∅) /\
    (forall collapsed : gset string,
       toggleFold (blockId l) (toggleFold (blockId l) collapsed) = collapsed) /\
    visibleLines (NJson data) (toggleFold (blockId l) (toggleFold (blockId l) ∅)) = ls /\
    (forall (collapsed : gset string) i,
       i ∈ hiddenLineIds ls collapsed <->
       exists b s' e', b ∈ collapsed /\ block_at ls b s' e' /\ s' < i < e') /\
    (forall (collapsed : gset string) i,
       blockId l ∉ collapsed ->
       i ∈ hiddenLineIds ls (toggleFold (blockId l) collapsed) <->
       i ∈ hiddenLineIds ls collapsed \/ s < i < e) /\
    (forall collapsed : gset string,
       visibleLines (NJson data) collapsed =
         filter (fun x => id x ∉ hiddenLineIds ls collapsed) ls).
Proof.
  intros ls Hs Hf.
  assert (Hls : well_shaped ls) by apply parseJsonToLines_ok.
  split; [intros i x Hx; by eapply well_shaped_id|].
  destruct (well_shaped_block ls s l Hls Hs Hf)
    as (e & closing & He & Hlt & Hcl & Hfc & Hic & Hhtml & Hne).
  exists e, closing. do 6 (split; [done|]).
  assert (Hat : block_at ls (blockId l) s e) by by exists l.
  assert (Hvis : visibleLines (NJson data) (toggleFold (blockId l) ∅) =
                 filter (fun x => ~ (s < id x < e)) ls)
    by by apply visibleLines_one_block.
  split; [exact Hvis|]. rewrite Hvis.
  split; [|split; [|split; [|split; [|split; [|split]]]]].
  - apply list_elem_of_filter. split; [|by eapply list_elem_of_lookup_2].
    rewrite (well_shaped_id ls s l Hls Hs). lia.
  - apply list_elem_of_filter. split; [|by eapply list_elem_of_lookup_2].
    rewrite (well_shaped_id ls e closing Hls Hcl). lia.
  - intros collapsed. apply toggleFold_twice.
  - rewrite toggleFold_twice. apply visibleLines_none.
  - intros collapsed i. by apply elem_of_hiddenLineIds.
  - intros collapsed i Hnew. unfold toggleFold.
    rewrite bool_decide_eq_false_2 by done. rewrite bool_decide_eq_false_2 by done.
    rewrite !elem_of_hiddenLineIds by done. split.
    + intros (b & s' & e' & Hb & Hat' & Hr).
      apply elem_of_union in Hb as [Hb|Hb]; [left; by exists b, s', e'|].
      apply elem_of_singleton in Hb as ->. right.
      by destruct (block_at_unique ls _ _ _ _ _ Hls Hat Hat') as [-> ->].
    + intros [(b & s' & e' & Hb & Hat' & Hr)|Hr].
      * exists b, s', e'. split; [|done]. apply elem_of_union. by left.
      * exists (blockId l), s, e. split; [|done].
        apply elem_of_union. right. by apply elem_of_singleton.
  - done.
Qed.

(** C1 on the example: collapsing the array under ["a"] (lines 1 to 4)
    leaves lines 0, 1, 4, ..., 9, and unfolding it shows all ten again. *)
Lemma fold_hides_block_interior_witness :
  exists l, parseJsonToLines exampleValue !! 1 = Some l /\ canFold l = true /\
    blockEnd l = Some 4 /\
    id <$> visibleLines (NJson exampleValue) (toggleFold (blockId l) ∅)
      = [0; 1; 4; 5; 6; 7; 8; 9] /\
    visibleLines (NJson exampleValue)
      (toggleFold (blockId l) (toggleFold (blockId l) ∅))
      = parseJsonToLines exampleValue.
Proof.
  destruct (parseJsonToLines exampleValue !! 1) as [l|] eqn:Hl; [|discriminate Hl].
  exists l. split; [done|].
  assert (Hf : canFold l = true) by (by injection Hl as <-).
  assert (He : blockEnd l = Some 4) by (by injection Hl as <-).
  split; [done|]. split; [done|].
  destruct (fold_hides_block_interior exampleValue 1 l Hl Hf)
    as (_ & e & closing & He' & _ & _ & _ & _ & _ & Hvis & _ & _ & _ & Hback & _).
  rewrite He in He'. injection He' as <-.
  split; [by rewrite Hvis|exact Hback].
Defined.

(** ** Properties: escaping *)

Lemma app_String a s t : String a s +:+ t = String a (s +:+ t).
Proof. reflexivity. Qed.


Lemma string_app_assoc s1 s2 s3 : (s1 +:+ s2) +:+ s3 = s1 +:+ (s2 +:+ s3).
Proof. induction s1 as [|a s1 IH]; [done|]. by rewrite !app_String, IH. Qed.










Lemma comma_cases (isLast : bool) :
  (if isLast then "" else ",") = "" \/ (if isLast then "" else ",") = ",".
Proof. destruct isLast; auto. Qed.










(** ** Properties: what the component shows *)

(** X3: with one block collapsed, the rows of the tree hold both the
    block's first line, marked collapsed and showing its own markup, the
    ellipsis and then the markup of the closing line, and the closing line
    itself: the closing bracket is on the screen twice. *)
Theorem collapsed_row_repeats_closing (data : JsonValue) (s : nat) (l : JsonLine) :
  let ls := parseJsonToLines data in
  ls !! s = Some l -> canFold l = true ->
  exists e closing,
    blockEnd l = Some e /\ ls !! e = Some closing /\
    let collapsed := toggleFold (blockId l) ∅ in
    let rows := renderLine collapsed <$> visibleLines (NJson data) collapsed in
    renderLine collapsed l ∈ rows /\
    renderLine collapsed closing ∈ rows /\
    isCollapsed (renderLine collapsed l) = true /\
    displayHtml (renderLine collapsed l)
      = html l +:+ getTokenHtml " … " TEllipsis +:+ html closing /\
    displayHtml (renderLine collapsed closing) = html closing.
Proof.
  intros ls Hs Hf.
  assert (Hls : well_shaped ls) by apply parseJsonToLines_ok.
  destruct (well_shaped_block ls s l Hls Hs Hf)
    as (e & closing & He & Hlt & Hcl & Hfc & Hic & Hhtml & Hne).
  exists e, closing. split; [done|]. split; [done|]. intros collapsed rows.
  assert (Hvis := visibleLines_one_block data s e l Hs Hf He).
  fold collapsed ls in Hvis.
  assert (Hc : collapsed = {[blockId l]}) by by apply toggleFold_first.
  split; [|split; [|split; [|split]]].
  - apply list_elem_of_fmap_2. rewrite Hvis.
    apply list_elem_of_filter. split; [|by eapply list_elem_of_lookup_2].
    rewrite (well_shaped_id ls s l Hls Hs). lia.
  - apply list_elem_of_fmap_2. rewrite Hvis.
    apply list_elem_of_filter. split; [|by eapply list_elem_of_lookup_2].
    rewrite (well_shaped_id ls e closing Hls Hcl). lia.
  - unfold renderLine. cbn [isCollapsed]. rewrite Hf, Hc.
    by rewrite bool_decide_eq_true_2 by by apply elem_of_singleton.
  - unfold renderLine. cbn [displayHtml]. rewrite Hf, Hc.
    rewrite bool_decide_eq_true_2 by by apply elem_of_singleton.
    cbn [andb]. unfold closingHtml in Hhtml.
    destruct (closingBracket l) as [cb|]; [|done].
    destruct (trailingComma l) as [cm|]; [|done].
    simpl in Hhtml. injection Hhtml as <-. cbn [default].
    by rewrite <- !string_app_assoc.
  - unfold renderLine. cbn [displayHtml]. by rewrite Hfc.
Qed.

(** X3 on the example: the array under ["a"], collapsed. *)
Lemma collapsed_row_repeats_closing_witness :
  exists l closing,
    parseJsonToLines exampleValue !! 1 = Some l /\
    parseJsonToLines exampleValue !! 4 = Some closing /\
    displayHtml (renderLine (toggleFold (blockId l) ∅) l)
      = html l +:+ getTokenHtml " … " TEllipsis +:+ html closing.
Proof.
  destruct (parseJsonToLines exampleValue !! 1) as [l|] eqn:Hl; [|discriminate Hl].
  assert (Hf : canFold l = true) by (by injection Hl as <-).
  assert (He : blockEnd l = Some 4) by (by injection Hl as <-).
  destruct (collapsed_row_repeats_closing exampleValue 1 l Hl Hf)
    as (e & closing & He' & Hcl & _ & _ & _ & Hd & _).
  rewrite He in He'. injection He' as <-.
  exists l, closing. by repeat split.
Defined.

Example highlightJson_object :
  highlightJson ("{" +:+ NL +:+ "  " +:+ DQ +:+ "a" +:+ DQ +:+ ": 1," +:+ NL
                 +:+ "  " +:+ DQ +:+ "b" +:+ DQ +:+ ": " +:+ DQ +:+ "x y" +:+ DQ +:+ "," +:+ NL
                 +:+ "  " +:+ DQ +:+ "c" +:+ DQ +:+ ": false," +:+ NL
                 +:+ "  " +:+ DQ +:+ "d" +:+ DQ +:+ ": null," +:+ NL
                 +:+ "  " +:+ DQ +:+ "e" +:+ DQ +:+ ": -2.50e3" +:+ NL +:+ "}")
  = ["{";
     "  " +:+ span "json-key" (DQ +:+ "a" +:+ DQ) +:+ ": " +:+ span "json-number" "1" +:+ ",";
     "  " +:+ span "json-key" (DQ +:+ "b" +:+ DQ) +:+ ": "
          +:+ span "json-string" (DQ +:+ "x y" +:+ DQ) +:+ ",";
     "  " +:+ span "json-key" (DQ +:+ "c" +:+ DQ) +:+ ": " +:+ span "json-boolean" "false" +:+ ",";
     "  " +:+ span "json-key" (DQ +:+ "d" +:+ DQ) +:+ ": " +:+ span "json-null" "null" +:+ ",";
     "  " +:+ span "json-key" (DQ +:+ "e" +:+ DQ) +:+ ": " +:+ span "json-number" "-2.50" +:+ "e3";
     "}"]%string.
Proof. vm_compute. reflexivity. Qed.

Example legacyJsonViewer_array :
  @legacyJsonViewer exampleRuntime exampleStringify (DString "[true]") None
  = Element "div" "json-viewer"
      [Element "pre" "json-pre"
         [Element "code" "json-code"
            [InnerHtml "div" "json-line" "["; InnerHtml "div" "json-line" "  true";
             InnerHtml "div" "json-line" "]"]]].
Proof. reflexivity. Qed.

Example legacyJsonViewer_blank_text :
  @legacyJsonViewer exampleRuntime exampleStringify (DString "  ") None
  = Element "div" "json-viewer"
      [Element "pre" "json-pre" [Element "code" "json-code" [TextNode "  "]]]
  /\ @JsonViewer exampleRuntime (DString "  ") None ∅ = VEmpty DEFAULT_EMPTY_TEXT.
Proof. split; reflexivity. Qed.





(** ** Properties: line numbers and nesting *)

Lemma deep_ok_nil off ind : deep_ok off ind [].
Proof. repeat split; intros; by rewrite lookup_nil in *. Qed.

Lemma deep_ok_app off ind a b :
  deep_ok off ind a -> deep_ok (off + length a) ind b -> deep_ok off ind (a ++ b).
Proof.
  intros (Ha1 & Ha2 & Ha3) (Hb1 & Hb2 & Hb3). unfold deep_ok. rewrite length_app.
  split; [|split].
  - intros i l Hi. apply lookup_app_Some in Hi as [Hi | [_ Hi]]; eauto.
  - intros i l e Hi He. apply lookup_app_Some in Hi as [Hi | [_ Hi]].
    + specialize (Ha2 _ _ _ Hi He). lia.
    + specialize (Hb2 _ _ _ Hi He). lia.
  - intros i j l l' e Hi He Hij Hje Hj.
    apply lookup_app_Some in Hi as [Hi | [Hge Hi]].
    + specialize (Ha2 _ _ _ Hi He).
      apply lookup_app_Some in Hj as [Hj | [Hgej _]]; [by eapply Ha3|lia].
    + apply lookup_app_Some in Hj as [Hj | [Hgej Hj]].
      { apply lookup_lt_Some in Hj. lia. }
      eapply (Hb3 (i - length a) (j - length a)); eauto; lia.
Qed.

Lemma grows_refl ind st : grows ind 0 0 st st.
Proof.
  exists []. rewrite app_nil_r, !Nat.add_0_r.
  do 5 (split; [done|]). split; [|apply deep_ok_nil].
  intros i l Hi. by rewrite lookup_nil in Hi.
Qed.

Lemma grows_trans ind n1 b1 n2 b2 st1 st2 st3 :
  grows ind n1 b1 st1 st2 -> grows ind n2 b2 st2 st3 -> grows ind (n1 + n2) (b1 + b2) st1 st3.
Proof.
  intros (a & Ha & Hn1 & Hl1 & Hc1 & Hf1 & Hnum1 & Hd1)
         (b & Hb & Hn2 & Hl2 & Hc2 & Hf2 & Hnum2 & Hd2).
  exists (a ++ b). split; [by rewrite Hb, Ha, app_assoc|].
  split; [rewrite length_app; lia|]. split; [lia|]. split; [lia|].
  split; [rewrite filter_app, length_app; lia|]. split.
  - intros i l Hi. apply lookup_app_Some in Hi as [Hi | [Hge Hi]]; [by apply Hnum1|].
    rewrite (Hnum2 _ _ Hi). lia.
  - apply deep_ok_app; [done|]. by rewrite Ha, length_app in Hd2.
Qed.

Lemma pushLine_grows ind html st : grows ind 1 0 st (pushLine ind html st).
Proof.
  eexists. split; [reflexivity|]. split; [done|]. split; [simpl; lia|].
  split; [simpl; lia|]. split; [done|]. split.
  - intros [|i] l Hi; [|done]. injection Hi as <-. simpl. lia.
  - split; [|split].
    + intros [|i] l Hi; [|done]. by injection Hi as <-.
    + intros [|i] l e Hi; [|done]. by injection Hi as <-.
    + intros [|i] j l l' e Hi; [|done]. by injection Hi as <-.
Qed.

(** The members of an array or object, one after the other. *)
Lemma forEachFrom_grows {A} (callback : A -> nat -> ParseState -> ParseState)
  (lc bc : A -> nat) ind items :
  Forall (fun item => forall idx st, grows ind (lc item) (bc item) st (callback item idx st))
         items ->
  forall idx st, grows ind (list_sum (map lc items)) (list_sum (map bc items)) st
                   (forEachFrom callback idx items st).
Proof.
  induction 1 as [|item items Hitem _ IH]; intros idx st; simpl.
  - apply grows_refl.
  - eapply grows_trans; [apply Hitem|apply IH].
Qed.

Lemma block_grows st ind html info closing comma n b
  (inside : ParseState -> ParseState) :
  (forall st', grows (S ind) n b st' (inside st')) ->
  grows ind (2 + n) (1 + b) st
    (let '(blockId0, st0) := getBlockId st in
     setBlockEnd (length (result st0))
       (pushLine ind (getTokenHtml closing TBracket +:+ comma)
          (inside (pushFold ind html blockId0 info closing comma st0)))).
Proof.
  intros Hinside. destruct st as [res ln c].
  cbn [getBlockId result blockIdCounter lineNumberVar].
  set (st1 := mkState res ln (S c)).
  set (st2 := pushFold ind html (blockName c) info closing comma st1).
  destruct (Hinside st2) as (kids & Hres & Hlen & Hln & Hcnt & Hfold & Hnum & Hd1 & Hd2 & Hd3).
  set (st3 := inside st2) in *.
  set (start := mkLine (length res) ln ind html true (blockName c) None
                  (Some info) (Some closing) (Some comma)) in *.
  set (closeHtml := getTokenHtml closing TBracket +:+ comma).
  set (cl := mkLine (length (result st3)) (lineNumberVar st3) ind closeHtml false ""
               None None None None).
  set (e := length res + S (length kids)).
  change (result st2) with (res ++ [start]) in Hres, Hd2, Hd3.
  change (lineNumberVar st2) with (S ln) in Hln, Hnum.
  change (blockIdCounter st2) with (S c) in Hcnt.
  rewrite length_app in Hd2, Hd3. simpl in Hd2, Hd3.
  exists (withBlockEnd e start :: kids ++ [cl]).
  split; [|split; [|split; [|split; [|split; [|split]]]]].
  - assert (Hr4 : result (pushLine ind closeHtml st3) = res ++ start :: kids ++ [cl]).
    { unfold pushLine. cbn [result]. fold cl. by rewrite Hres, <- !app_assoc. }
    unfold setBlockEnd. cbn [result]. rewrite Hr4.
    replace (length (res ++ start :: kids ++ [cl]) - 1) with e
      by (rewrite length_app; simpl; rewrite length_app; simpl; unfold e; lia).
    apply alter_middle.
  - simpl. rewrite length_app. simpl. lia.
  - cbn [lineNumberVar setBlockEnd pushLine]. lia.
  - cbn [blockIdCounter setBlockEnd pushLine]. lia.
  - rewrite filter_cons_True by done. rewrite filter_app. simpl.
    rewrite length_app, Hfold. simpl. lia.
  - intros [|i] l Hi; cbn [lineNumberVar].
    { injection Hi as <-. simpl. lia. }
    simpl in Hi. apply lookup_app_Some in Hi as [Hi | [Hge Hi]].
    + rewrite (Hnum _ _ Hi). lia.
    + destruct (i - length kids) as [|k] eqn:Ek; [|done]. injection Hi as <-.
      cbn [lineNumber cl]. lia.
  - cbn [result]. split; [|split].
    + intros [|i] l Hi.
      { by injection Hi as <-. }
      simpl in Hi. apply lookup_app_Some in Hi as [Hi | [Hge Hi]].
      * specialize (Hd1 _ _ Hi). lia.
      * destruct (i - length kids) as [|k]; [|done]. by injection Hi as <-.
    + intros [|i] l e' Hi He'.
      { injection Hi as <-. injection He' as <-. simpl. rewrite length_app. simpl.
        unfold e. lia. }
      simpl in Hi. simpl. rewrite length_app. simpl.
      apply lookup_app_Some in Hi as [Hi | [Hge Hi]].
      * specialize (Hd2 _ _ _ Hi He'). lia.
      * destruct (i - length kids) as [|k]; [|done]. by injection Hi as <-.
    + intros [|i] j l l' e' Hi He' Hij Hje Hj.
      { injection Hi as <-. injection He' as <-.
        destruct j as [|j]; [lia|]. simpl in Hj.
        apply lookup_app_Some in Hj as [Hj | [Hge Hj]].
        - specialize (Hd1 _ _ Hj). simpl. lia.
        - unfold e in Hje. lia. }
      simpl in Hi. destruct j as [|j]; [lia|]. simpl in Hj.
      apply lookup_app_Some in Hi as [Hi | [Hge Hi]].
      * specialize (Hd2 _ _ _ Hi He').
        apply lookup_app_Some in Hj as [Hj | [Hgej Hj]]; [|lia].
        eapply (Hd3 i j); eauto; lia.
      * destruct (i - length kids) as [|k]; [|done]. by injection Hi as <-.
Qed.

Lemma processValue_grows value :
  forall ind isLast keyPrefix st,
    grows ind (lineCount value) (blockCount value) st
      (processValue value ind isLast keyPrefix st).
Proof.
  induction value as [|b|text|s|items IH|entries IH|text] using JsonValue_nested_ind;
    intros ind isLast keyPrefix st; cbn [processValue lineCount blockCount];
    try apply pushLine_grows.
  - destruct (length items =? 0); [apply pushLine_grows|].
    refine (block_grows st ind _ _ _ _ _ _ (forEach _ items) _).
    intros st'. unfold forEach. apply forEachFrom_grows.
    eapply Forall_impl; [exact IH|]. intros item Hitem idx st''. apply Hitem.
  - destruct (length entries =? 0); [apply pushLine_grows|].
    refine (block_grows st ind _ _ _ _ _ _ (forEach _ entries) _).
    intros st'. unfold forEach.
    apply (forEachFrom_grows _ (fun entry => lineCount entry.2) (fun entry => blockCount entry.2)).
    eapply Forall_impl; [exact IH|]. intros item Hitem idx st''. apply Hitem.
Qed.

(** X13: the lines of a value are as many as its scalars and empty
    containers plus two for every container that is not empty; they are
    numbered from 1 in order, so that a line's number is its position plus
    one (and stays so when lines around it are folded away); and there is
    one foldable line for every container that is not empty. *)
Theorem parseJsonToLines_numbered (data : JsonValue) :
  let ls := parseJsonToLines data in
  length ls = lineCount data
  /\ (forall i l, ls !! i = Some l -> lineNumber l = S i /\ id l = i)
  /\ length (filter (fun l => canFold l = true) ls) = blockCount data.
Proof.
  intros ls.
  destruct (processValue_grows data 0 true "" (mkState [] 1 0))
    as (new & Hres & Hlen & _ & _ & Hfold & Hnum & _).
  change (result (mkState [] 1 0) ++ new) with new in Hres.
  change (parseJsonToLines data = new) in Hres.
  subst ls. rewrite Hres.
  split; [done|]. split; [|done].
  intros i l Hi. split; [by rewrite (Hnum _ _ Hi)|].
  eapply well_shaped_id; [|done]. rewrite <- Hres. apply parseJsonToLines_ok.
Qed.

Lemma parseJsonToLines_deep data : deep_ok 0 0 (parseJsonToLines data).
Proof.
  destruct (processValue_grows data 0 true "" (mkState [] 1 0))
    as (new & Hres & _ & _ & _ & _ & _ & Hd).
  change (parseJsonToLines data = new) in Hres. by rewrite Hres.
Qed.

(** Blocks do not overlap: a block that starts after another one starts
    either after its end or inside it, and then it ends inside it. *)
Lemma block_at_nested data b s e b' s' e' :
  block_at (parseJsonToLines data) b s e ->
  block_at (parseJsonToLines data) b' s' e' ->
  s < s' -> e < s' \/ (s' < e /\ e' < e).
Proof.
  set (ls := parseJsonToLines data).
  assert (Hls : well_shaped ls) by apply parseJsonToLines_ok.
  destruct (parseJsonToLines_deep data) as (_ & _ & Hdeep). fold ls in Hdeep.
  intros (l & Hl & Hf & _ & He) (l' & Hl' & Hf' & _ & He') Hlt.
  destruct (well_shaped_block ls s l Hls Hl Hf)
    as (e0 & cl & He0 & _ & Hcl & Hclf & Hcli & _).
  destruct (well_shaped_block ls s' l' Hls Hl' Hf')
    as (e0' & cl' & He0' & Hlt' & Hcl' & Hclf' & Hcli' & _).
  assert (e0 = e) as -> by congruence. assert (e0' = e') as -> by congruence.
  destruct (Nat.lt_trichotomy e s') as [?|[->|Hin]]; [by left| |right].
  { congruence. }
  split; [done|].
  assert (indent l < indent l') as Hind by (eapply (Hdeep s s'); eauto).
  destruct (Nat.lt_trichotomy e' e) as [?|[->|Hout]]; [done| |].
  - assert (cl = cl') by congruence. subst. lia.
  - assert (indent l' < indent cl) by (eapply (Hdeep s' e); eauto). lia.
Qed.

(** X14: blocks are nested or apart, never overlapping, and the lines
    inside a block are indented more than its first line; so while a block
    is collapsed, folding or unfolding a block inside it changes nothing
    that is shown. *)
Theorem nested_fold_hidden (data : JsonValue) (b b' : string) (s e s' e' : nat)
  (collapsed : gset string) :
  block_at (parseJsonToLines data) b s e ->
  block_at (parseJsonToLines data) b' s' e' ->
  s < s' ->
  (e < s' \/ (s' < e /\ e' < e))
  /\ (forall j l0 l, parseJsonToLines data !! s = Some l0 ->
        parseJsonToLines data !! j = Some l -> s < j < e -> indent l0 < indent l)
  /\ (s' < e -> b ∈ collapsed ->
        visibleLines (NJson data) (toggleFold b' collapsed)
        = visibleLines (NJson data) collapsed).
Proof.
  intros Hb Hb' Hlt.
  pose proof (block_at_nested data b s e b' s' e' Hb Hb' Hlt) as Hnest.
  set (ls := parseJsonToLines data) in *.
  assert (Hls : well_shaped ls) by apply parseJsonToLines_ok.
  split; [done|]. split.
  { destruct (parseJsonToLines_deep data) as (_ & _ & Hdeep). fold ls in Hdeep.
    destruct Hb as (l & Hl & _ & _ & He).
    intros j l0 l1 Hl0 Hj Hj'. assert (l0 = l) as -> by congruence.
    eapply (Hdeep s j); eauto; lia. }
  intros Hin Hc. destruct Hnest as [?|[_ Hend]]; [lia|].
  assert (b <> b') as Hne.
  { intros ->. destruct (block_at_unique ls _ _ _ _ _ Hls Hb Hb'). lia. }
  assert (b' <> "") as Hb'ne.
  { destruct Hb' as (l' & Hl' & Hf' & <- & _).
    by destruct (well_shaped_block ls s' l' Hls Hl' Hf') as (? & ? & _ & _ & _ & _ & _ & _ & ?). }
  unfold visibleLines. cbn [lines effectiveCollapsedBlocks]. fold ls.
  apply list_filter_iff. intros x.
  rewrite !elem_of_hiddenLineIds by done.
  assert (forall i, (exists b0 s0 e0, b0 ∈ toggleFold b' collapsed /\ block_at ls b0 s0 e0
                       /\ s0 < i < e0)
                    <-> (exists b0 s0 e0, b0 ∈ collapsed /\ block_at ls b0 s0 e0
                           /\ s0 < i < e0)) as Hiff; [|by rewrite Hiff].
  intros i. unfold toggleFold. rewrite bool_decide_eq_false_2 by done.
  case_bool_decide as Hmem; split; intros (b0 & s0 & e0 & Hb0 & Hat & Hr).
  - exists b0, s0, e0. apply elem_of_difference in Hb0 as [Hb0 _]. done.
  - destruct (decide (b0 = b')) as [->|Hne0].
    + destruct (block_at_unique ls _ _ _ _ _ Hls Hat Hb') as [-> ->].
      exists b, s, e. split; [|split; [done|lia]].
      apply elem_of_difference. split; [done|]. by rewrite elem_of_singleton.
    + exists b0, s0, e0. split; [|done].
      apply elem_of_difference. split; [done|]. by rewrite elem_of_singleton.
  - destruct (decide (b0 = b')) as [->|Hne0].
    + destruct (block_at_unique ls _ _ _ _ _ Hls Hat Hb') as [-> ->].
      exists b, s, e. split; [done|split; [done|lia]].
    + exists b0, s0, e0. split; [|done].
      apply elem_of_union in Hb0 as [Hb0|Hb0]; [done|].
      by apply elem_of_singleton in Hb0.
  - exists b0, s0, e0. split; [|done]. apply elem_of_union. by left.
Qed.

Lemma nested_fold_hidden_witness :
  let data := JObject [("a"%string, JArray [JNumber "1"; JNumber "2"])] in
  visibleLines (NJson data) (toggleFold "block-1" {["block-0"%string]})
  = visibleLines (NJson data) {["block-0"%string]}.
Proof.
  intros data.
  destruct (nested_fold_hidden data "block-0" "block-1" 0 5 1 4 {["block-0"%string]})
    as (_ & _ & Hfold).
  - eexists. split; [reflexivity|]. by repeat split.
  - eexists. split; [reflexivity|]. by repeat split.
  - lia.
  - apply Hfold; [lia|]. by apply elem_of_singleton.
Defined.

(** Numbers that grow along a list and stay below its length count up from
    zero. *)
Lemma increasing_below_length (ks : list nat) :
  (forall i j a b, i < j -> ks !! i = Some a -> ks !! j = Some b -> a < b) ->
  (forall a, a ∈ ks -> a < length ks) ->
  ks = seq 0 (length ks).
Proof.
  induction ks as [|a ks IH] using rev_ind; intros Hinc Hlt; [done|].
  rewrite length_app in *. cbn [length] in *. rewrite Nat.add_1_r in *.
  rewrite seq_S. cbn [plus].
  assert (a < S (length ks)) as Ha by (apply Hlt, elem_of_app; right; by apply list_elem_of_singleton).
  assert (forall i b, ks !! i = Some b -> b < a) as Hbelow.
  { intros i b Hi. apply (Hinc i (length ks) b a).
    - by eapply lookup_lt_Some.
    - by rewrite lookup_app_l by (by eapply lookup_lt_Some).
    - by rewrite lookup_app_r, Nat.sub_diag by lia. }
  rewrite <- IH.
  - f_equal. f_equal. destruct (decide (length ks = 0)) as [H0|Hn]; [lia|].
    destruct (lookup_lt_is_Some_2 ks (length ks - 1)) as [b Hb]; [lia|].
    assert (b = length ks - 1) as ->.
    { assert (ks !! (length ks - 1) = seq 0 (length ks) !! (length ks - 1)) as Hs.
      { f_equal. apply IH.
        - intros i j x y Hij Hi Hj. apply (Hinc i j x y Hij).
          + by rewrite lookup_app_l by (by eapply lookup_lt_Some).
          + by rewrite lookup_app_l by (by eapply lookup_lt_Some).
        - intros x Hx. apply list_elem_of_lookup in Hx as [i Hi].
          specialize (Hbelow _ _ Hi). lia. }
      rewrite Hb, lookup_seq_lt in Hs by lia. by injection Hs. }
    specialize (Hbelow _ _ Hb). lia.
  - intros i j x y Hij Hi Hj. apply (Hinc i j x y Hij).
    + by rewrite lookup_app_l by (by eapply lookup_lt_Some).
    + by rewrite lookup_app_l by (by eapply lookup_lt_Some).
  - intros x Hx. apply list_elem_of_lookup in Hx as [i Hi].
    specialize (Hbelow _ _ Hi). lia.
Qed.

(** [filter] keeps the order of the elements. *)
Lemma filter_lookup_order {A} (P : A -> Prop) `{forall x, Decision (P x)} (ls : list A) :
  forall i j x y, i < j -> filter P ls !! i = Some x -> filter P ls !! j = Some y ->
  exists i' j', i' < j' /\ ls !! i' = Some x /\ ls !! j' = Some y.
Proof.
  induction ls as [|a ls IH]; intros i j x y Hij Hi Hj; [done|].
  rewrite filter_cons in Hi, Hj. destruct (decide (P a)) as [Hp|Hp].
  - destruct i as [|i], j as [|j]; try lia.
    + injection Hi as <-. cbn in Hj.
      apply list_elem_of_lookup_2, list_elem_of_filter in Hj as [_ Hy].
      apply list_elem_of_lookup in Hy as [j' Hj']. exists 0, (S j'). split; [lia|done].
    + cbn in Hi, Hj. destruct (IH i j x y ltac:(lia) Hi Hj) as (i' & j' & ? & ? & ?).
      exists (S i'), (S j'). split; [lia|done].
  - destruct (IH i j x y Hij Hi Hj) as (i' & j' & ? & ? & ?).
    exists (S i'), (S j'). split; [lia|done].
Qed.

(** The lines of a value with the block counter they end on. *)
Lemma parseJsonToLines_counter data :
  seg_ok 0 0 (blockCount data) (parseJsonToLines data).
Proof.
  destruct (processValue_extends data 0 true "" (mkState [] 1 0)) as (new & Hres & _ & Hseg).
  destruct (processValue_grows data 0 true "" (mkState [] 1 0))
    as (new' & Hres' & _ & _ & Hcnt & _).
  unfold parseJsonToLines. rewrite Hres. cbn in *. by rewrite Hcnt in Hseg.
Qed.

(** The foldable lines carry the block names in order. *)
Lemma blockIds_seq data :
  blockId <$> filter (fun l => canFold l = true) (parseJsonToLines data)
  = blockName <$> seq 0 (blockCount data).
Proof.
  destruct (parseJsonToLines_counter data) as (_ & Hname & Hinc).
  destruct (processValue_grows data 0 true "" (mkState [] 1 0))
    as (new & Hres & _ & _ & _ & Hfold & _).
  change (result (mkState [] 1 0) ++ new) with new in Hres.
  change (parseJsonToLines data = new) in Hres. rewrite <- Hres in Hfold. clear Hres new.
  set (ls := parseJsonToLines data) in *.
  set (fs := filter (fun l => canFold l = true) ls) in *.
  assert (exists ks, length ks = length fs /\ blockId <$> fs = blockName <$> ks) as (ks & Hlen & Hks).
  { assert (Forall (fun l => exists k, k < blockCount data /\ blockId l = blockName k) fs) as Hall.
    { apply Forall_forall. intros l Hl. apply list_elem_of_filter in Hl as [Hf Hl].
      apply list_elem_of_lookup in Hl as [i Hi].
      destruct (Hname _ _ Hi Hf) as [(k & Hk & Hb) _]. exists k. split; [lia|done]. }
    clear -Hall. induction Hall as [|l fs (k & _ & Hk) _ (ks & Hlen & Hks)]; [by exists []|].
    exists (k :: ks). split; [cbn; lia|]. cbn. by rewrite Hk, Hks. }
  rewrite Hks. f_equal. rewrite <- Hfold, <- Hlen.
  assert (forall i l k, fs !! i = Some l -> ks !! i = Some k -> blockId l = blockName k) as Hat.
  { intros i l k Hi Hk.
    assert ((blockId <$> fs) !! i = (blockName <$> ks) !! i) as Heq by by rewrite Hks.
    rewrite !list_lookup_fmap, Hi, Hk in Heq. cbn in Heq. by injection Heq. }
  apply increasing_below_length.
  - intros i j a b Hij Hi Hj.
    destruct (lookup_lt_is_Some_2 fs i) as [l Hl]; [rewrite <- Hlen; by eapply lookup_lt_Some|].
    destruct (lookup_lt_is_Some_2 fs j) as [l' Hl']; [rewrite <- Hlen; by eapply lookup_lt_Some|].
    destruct (filter_lookup_order _ ls i j l l' Hij Hl Hl') as (i' & j' & Hij' & Hi' & Hj').
    pose proof (Hat _ _ _ Hl Hi) as Ha. pose proof (Hat _ _ _ Hl' Hj) as Hb.
    apply list_elem_of_lookup_2, list_elem_of_filter in Hl as [Hf _].
    apply list_elem_of_lookup_2, list_elem_of_filter in Hl' as [Hf' _].
    exact (Hinc i' j' l l' a b Hij' Hi' Hj' Hf Hf' Ha Hb).
  - intros a Ha. apply list_elem_of_lookup in Ha as [i Hi].
    destruct (lookup_lt_is_Some_2 fs i) as [l Hl]; [rewrite <- Hlen; by eapply lookup_lt_Some|].
    pose proof (Hat _ _ _ Hl Hi) as Hb.
    apply list_elem_of_lookup_2, list_elem_of_filter in Hl as [Hf Hin].
    apply list_elem_of_lookup in Hin as [i' Hi'].
    destruct (Hname _ _ Hi' Hf) as [(k & Hk & Hb') _].
    rewrite Hb in Hb'. apply blockName_inj in Hb' as ->. lia.
Qed.

(** X22: block ids are given by position: in the lines of every value the
    foldable lines are named block-0, block-1, ... in their order.  The set
    of collapsed blocks is kept while the content is JSON, so a block
    collapsed in one value is collapsed in the next value shown, whichever
    block comes at the same position there: the lines inside it are not
    among the visible ones. *)
Theorem folds_carry_over (data data' : JsonValue) (collapsed : gset string)
  (k s' e' : nat) (l l' : JsonLine) :
  let fs := filter (fun l => canFold l = true) (parseJsonToLines data) in
  let fs' := filter (fun l => canFold l = true) (parseJsonToLines data') in
  fs !! k = Some l -> blockId l ∈ collapsed ->
  fs' !! k = Some l' -> parseJsonToLines data' !! s' = Some l' -> blockEnd l' = Some e' ->
  blockId l = blockName k /\ blockId l' = blockId l
  /\ effectiveCollapsedBlocks (NJson data') collapsed = collapsed
  /\ forall x, x ∈ visibleLines (NJson data') collapsed -> ~ (s' < id x < e').
Proof.
  intros fs fs' Hl Hc Hl' Hs' He'.
  assert (forall d i x, filter (fun l => canFold l = true) (parseJsonToLines d) !! i = Some x ->
            blockId x = blockName i) as Hpos.
  { intros d i x Hx.
    assert ((blockId <$> filter (fun l => canFold l = true) (parseJsonToLines d)) !! i
            = Some (blockId x)) as Hb by (by rewrite list_lookup_fmap, Hx).
    rewrite blockIds_seq, list_lookup_fmap in Hb.
    destruct (seq 0 (blockCount d) !! i) as [n|] eqn:Hn; [|done].
    apply lookup_seq in Hn as [-> _]. cbn in Hb. by injection Hb. }
  pose proof (Hpos _ _ _ Hl) as Hk. pose proof (Hpos _ _ _ Hl') as Hk'.
  split; [done|]. split; [congruence|]. split; [done|].
  intros x Hx Hin. unfold visibleLines in Hx. cbn [lines effectiveCollapsedBlocks] in Hx.
  apply list_elem_of_filter in Hx as [Hhid _]. apply Hhid.
  apply elem_of_hiddenLineIds; [apply parseJsonToLines_ok|].
  exists (blockId l), s', e'. split; [done|]. split; [|done].
  exists l'. split; [done|]. split; [|split; [congruence|done]].
  by apply list_elem_of_lookup_2, list_elem_of_filter in Hl' as [Hf _].
Qed.

(** X22 on two values: the object's block, collapsed, hides the inside of
    the array shown next. *)
Lemma folds_carry_over_witness :
  Forall (fun x => ~ (0 < id x < 3))
    (visibleLines (NJson (JArray [JNumber "1"; JNumber "2"])) (toggleFold "block-0" ∅)).
Proof.
  apply Forall_forall.
  edestruct (folds_carry_over (JObject [("a", JNull)]) (JArray [JNumber "1"; JNumber "2"])
               (toggleFold "block-0" ∅) 0 0 3) as (_ & _ & _ & H);
    [reflexivity| |reflexivity|reflexivity|reflexivity|exact H].
  rewrite toggleFold_first by done. by apply elem_of_singleton.
Defined.

End JsonViewer.
